(** * Cinn-Math: the board engine, the selection logic, the game reducer and
      the game controller

    A shallow embedding of [gameLogic/boardUtils.ts], [gameLogic/matchLogic.ts],
    [state/gameState.ts], [hooks/useGameController.ts] and [constants.ts], with
    the properties of the specification and further properties of the code
    proved over it.

    Conventions of the embedding.
    - JavaScript numbers that the game computes with (tile values, scores,
      seconds, coordinates) are integers and are embedded as [Z]; the one
      computation that leaves the integers, the combo factor of the points,
      is embedded on binary64 floating-point numbers.  The sums and products
      of the source are those of doubles, which agree with those of [Z] as
      long as operands and result stay within [MAX_SAFE_INTEGER]; a property
      that states the exact value of a sum or product of any length carries
      that range as a hypothesis.
    - An array is a [list]; reading outside it yields [undefined], writing
      outside it extends it.
    - [Math.random], [crypto.randomUUID] and [localStorage] are effects on an
      explicit [World] that is threaded through the code by the [Eff] monad.
    - An effect of the controller hook is the function from the state it
      observes to the sounds and actions it emits, in their order, those of a
      further run that its own actions start included. *)

From Stdlib Require Import ZArith QArith Qround Lia List Permutation.
From Stdlib Require PrimFloat FloatOps SpecFloat.
From stdpp Require Import gmap strings list pretty.

Set Default Proof Using "Type".

(** ** types.ts *)

Inductive GameMode := Sum | Multiply.
Inductive Difficulty := Banana | Apple | Coconut.
Inductive SelectionMode := Drag | Tap.
Inductive GameStatus := Ready | Playing | Paused | Clearing | Falling | GameOver.
Inductive GameScreen := StartScreen | GameScreenGame | ThemesScreen.

Inductive TileKind := KNumber | KTime.
Inductive TileValue := Num (n : Z) | CINNAMOROLL.

(** [TileType] is [{ id; value: number | 'CINNAMOROLL'; type: 'number' | 'time' }].
    Its only two producers, [createNumberTile] and [createTimeTile], tie the
    value to the [type] tag, so the record is embedded as the tagged union
    those producers span. *)
Inductive TileType :=
  | NumberTile (id : string) (value : Z)
  | TimeTile (id : string).

Definition tile_id (t : TileType) : string :=
  match t with NumberTile i _ => i | TimeTile i => i end.

Definition tile_type (t : TileType) : TileKind :=
  match t with NumberTile _ _ => KNumber | TimeTile _ => KTime end.

Definition tile_value (t : TileType) : TileValue :=
  match t with NumberTile _ v => Num v | TimeTile _ => CINNAMOROLL end.

(** [tile.value as number]: an unchecked cast in the source.  Every use sits
    behind a [type === 'number'] test; the second branch is never the one
    that decides a result below. *)
Definition as_number (v : TileValue) : Z :=
  match v with Num n => n | CINNAMOROLL => 0%Z end.

Record Coords := mkCoords { row : Z; col : Z }.

Record StartGameConfig := mkConfig {
  mode : GameMode;
  difficulty : Difficulty;
  selectionMode : SelectionMode }.

Global Instance GameMode_eq_dec : EqDecision GameMode.
Proof. solve_decision. Defined.
Global Instance GameStatus_eq_dec : EqDecision GameStatus.
Proof. solve_decision. Defined.
Global Instance SelectionMode_eq_dec : EqDecision SelectionMode.
Proof. solve_decision. Defined.
Global Instance TileKind_eq_dec : EqDecision TileKind.
Proof. solve_decision. Defined.
Global Instance Coords_eq_dec : EqDecision Coords.
Proof. solve_decision. Defined.

(** ** Arrays and boards

    What a board position holds at run time: a tile, [null] (a cleared
    cell), or [undefined] (a read outside the array). *)
Inductive Cell := Undefined | Null | Tile (t : TileType).

Abbreviation Board := (list (list Cell)).

(** [a[i]] for a JavaScript number [i]. *)
Definition js_nth {A} (a : list A) (i : Z) : option A :=
  if (i <? 0)%Z then None else a !! Z.to_nat i.

(** [a[i] = x]: inside the array the slot is overwritten, beyond its end the
    array grows and the skipped slots read [undefined]. *)
Definition js_set (a : list Cell) (i : nat) (x : Cell) : list Cell :=
  if decide (i < length a) then <[i := x]> a
  else a ++ replicate (i - length a) Undefined ++ [x].

(** [board[row]?.[col]] *)
Definition cellAt (board : Board) (r c : Z) : Cell :=
  match js_nth board r with
  | None => Undefined
  | Some line => default Undefined (js_nth line c)
  end.

(** [t?.type === 'number'], equally [!!t && t.type === 'number'] *)
Definition isNumberCell (x : Cell) : bool :=
  match x with Tile (NumberTile _ _) => true | _ => false end.

(** [t?.type === 'time'] *)
Definition isTimeCell (x : Cell) : bool :=
  match x with Tile (TimeTile _) => true | _ => false end.

(** [x === null] *)
Definition isNull (x : Cell) : bool :=
  match x with Null => true | _ => false end.

(** [tile.value as number] on an element that passed the number filter. *)
Definition cell_number (x : Cell) : Z :=
  match x with Tile t => as_number (tile_value t) | _ => 0%Z end.

(** ** gameLogic/matchLogic.ts *)

(** The source folds doubles; the fold over [Z] is the same wherever every
    partial result is a safe integer. *)
Definition calculateSelectionValue
    (coords : list Coords) (board : Board) (m : GameMode) : Z :=
  let selectedNumberTiles :=
    List.filter isNumberCell (map (fun c => cellAt board (row c) (col c)) coords) in
  if (length selectedNumberTiles =? 0)%nat then
    match m with Sum => 0%Z | Multiply => 1%Z end
  else
    match m with
    | Sum => fold_left (fun sum tile => (sum + cell_number tile)%Z) selectedNumberTiles 0%Z
    | Multiply => fold_left (fun prod tile => (prod * cell_number tile)%Z) selectedNumberTiles 1%Z
    end.

(** *** The specification's reading of a selection *)

(** The value of the number tile at a coordinate, if there is one. *)
Definition numberValueAt (board : Board) (c : Coords) : option Z :=
  match cellAt board (row c) (col c) with
  | Tile (NumberTile _ v) => Some v
  | _ => None
  end.

Definition modeIdentity (m : GameMode) : Z :=
  match m with Sum => 0%Z | Multiply => 1%Z end.

Definition modeOp (m : GameMode) : Z -> Z -> Z :=
  match m with Sum => Z.add | Multiply => Z.mul end.

(** Fold of the mode's operation from the mode's identity. *)
Definition foldValues (m : GameMode) (vs : list Z) : Z :=
  fold_left (modeOp m) vs (modeIdentity m).


(** A coordinate inside a square grid of the given side. *)
Definition inBounds (side : Z) (c : Coords) : bool :=
  ((0 <=? row c) && (row c <? side) && (0 <=? col c) && (col c <? side))%Z.

(** The board does not reach beyond [side] rows and [side] columns. *)
Definition boardWithin (side : nat) (board : Board) : Prop :=
  length board <= side /\ Forall (fun line => length line <= side) board.

(** ** The environment of the code

    [Math.random()] returns a double in [[0,1)]; draw number [k] of a run is
    embedded as the exact fraction [entropy k mod 2^53 / 2^53].
    [crypto.randomUUID()] hands out the strings of [uuidSource] in order.
    [localStorage] is a finite map from keys to strings. *)

Record World := mkWorld {
  entropy : nat -> N;
  drawn : nat;
  uuidSource : nat -> string;
  issued : nat;
  localStorage : gmap string string }.

(** How a call ends: with a value, with JavaScript's [TypeError]
    (a property read or written on [undefined]), or, for the one unbounded
    loop of the code, with the step budget of the model used up. *)
Inductive Outcome (A : Type) :=
  | Ok (a : A)
  | TypeError
  | OutOfFuel.
Arguments Ok {A} a.
Arguments TypeError {A}.
Arguments OutOfFuel {A}.

Definition obind {A B} (o : Outcome A) (k : A -> Outcome B) : Outcome B :=
  match o with
  | Ok a => k a
  | TypeError => TypeError
  | OutOfFuel => OutOfFuel
  end.

(** Effectful code: a state transformer on the world that may fail. *)
Definition Eff (A : Type) : Type := World -> Outcome (A * World).

Definition ret {A} (a : A) : Eff A := fun w => Ok (a, w).

Definition bind {A B} (e : Eff A) (k : A -> Eff B) : Eff B :=
  fun w =>
    match e w with
    | Ok (a, w') => k a w'
    | TypeError => TypeError
    | OutOfFuel => OutOfFuel
    end.

Definition lift {A} (o : Outcome A) : Eff A :=
  fun w => obind o (fun a => Ok (a, w)).

Declare Scope eff_scope.
Delimit Scope eff_scope with eff.
Notation "x <- e ;; k" := (bind e (fun x => k))
  (at level 100, e at next level, right associativity) : eff_scope.

Declare Scope outcome_scope.
Delimit Scope outcome_scope with outcome.
Notation "x <- e ;; k" := (obind e (fun x => k))
  (at level 100, e at next level, right associativity) : outcome_scope.

Definition unitInterval (n : N) : Q :=
  Z.of_N (n mod 2 ^ 53) # 2 ^ 53.

(** [Math.random()] *)
Definition Math_random : Eff Q := fun w =>
  Ok (unitInterval (entropy w (drawn w)),
      mkWorld (entropy w) (S (drawn w)) (uuidSource w) (issued w) (localStorage w)).

(** [Math.floor(Math.random() * n)] *)
Definition randomBelow (n : Z) : Eff Z :=
  (u <- Math_random ;; ret (Qfloor (u * inject_Z n)))%eff.

(** [crypto.randomUUID()] *)
Definition randomUUID : Eff string := fun w =>
  Ok (uuidSource w (issued w),
      mkWorld (entropy w) (drawn w) (uuidSource w) (S (issued w)) (localStorage w)).

(** [localStorage.setItem(key, value)] *)
Definition setItem (key value : string) : Eff unit := fun w =>
  Ok (tt, mkWorld (entropy w) (drawn w) (uuidSource w) (issued w)
            (<[key := value]> (localStorage w))).

(** ** constants.ts *)

Definition GRID_SIZE : nat := 5.
Definition TIME_BONUS : Z := 10.
Definition COMBO_DURATION_MS : Z := 3000.
Definition DROP_ANIMATION_DURATION : Z := 600.
Definition CLEAR_ANIMATION_DURATION : Z := 400.
Definition FALL_OFF_ANIMATION_DURATION : Z := 500.

Record Range := mkRange { min : Z; max : Z }.

Record DifficultySetting := mkSetting {
  initialTime : Z;
  tileRange : Range;
  timeTileProbability : GameMode -> Q;
  targetRange : GameMode -> Range }.

Definition DIFFICULTY_SETTINGS (d : Difficulty) : DifficultySetting :=
  match d with
  | Banana => mkSetting 75 (mkRange 1 5)
      (fun m => match m with Sum => 30 # 100 | Multiply => 40 # 100 end)
      (fun m => match m with Sum => mkRange 4 15 | Multiply => mkRange 4 25 end)
  | Apple => mkSetting 60 (mkRange 1 9)
      (fun m => match m with Sum => 25 # 100 | Multiply => 35 # 100 end)
      (fun m => match m with Sum => mkRange 5 25 | Multiply => mkRange 4 81 end)
  | Coconut => mkSetting 45 (mkRange 2 12)
      (fun m => match m with Sum => 15 # 100 | Multiply => 25 # 100 end)
      (fun m => match m with Sum => mkRange 10 40 | Multiply => mkRange 20 150 end)
  end.

(** ** gameLogic/boardUtils.ts *)

Definition createNumberTile (d : Difficulty) : Eff TileType :=
  (let range := tileRange (DIFFICULTY_SETTINGS d) in
   i <- randomUUID ;;
   v <- randomBelow (max range - min range + 1) ;;
   ret (NumberTile i (v + min range)))%eff.

Definition createTimeTile : Eff TileType :=
  (i <- randomUUID ;; ret (TimeTile i))%eff.

(** [Array.from({ length: n }, () => make())] *)
Fixpoint arrayFrom {A} (n : nat) (make : Eff A) : Eff (list A) :=
  match n with
  | O => ret []
  | S n' => (x <- make ;; rest <- arrayFrom n' make ;; ret (x :: rest))%eff
  end.

Record InitialBoard := mkInitialBoard {
  ib_board : Board;
  allIds : gset string }.

(** The identifiers of the tiles of a list of cells, as a [Set]. *)
Definition idSet (cells : list Cell) : gset string :=
  list_to_set (omap (fun x => match x with Tile t => Some (tile_id t) | _ => None end) cells).

Definition createInitialBoard (d : Difficulty) : Eff InitialBoard :=
  (b <- arrayFrom GRID_SIZE
          (arrayFrom GRID_SIZE (t <- createNumberTile d ;; ret (Tile t))) ;;
   ret (mkInitialBoard b (idSet (concat b))))%eff.

(** [newBoard[r][c]]: the row must exist, the column need not. *)
Definition readCell (b : Board) (r c : Z) : Outcome Cell :=
  match js_nth b r with
  | None => TypeError
  | Some line => Ok (default Undefined (js_nth line c))
  end.

(** [newBoard[r][c] = x] *)
Definition writeCell (b : Board) (r : Z) (c : nat) (x : Cell) : Outcome Board :=
  match js_nth b r with
  | None => TypeError
  | Some line => Ok (<[Z.to_nat r := js_set line c x]> b)
  end.

(** The first inner loop of [applyGravity], [for (r = n - 1; r >= 0; r--)],
    on column [c]: it returns the final [emptyRow] and the board. *)
Fixpoint compactColumn (c : nat) (n : nat) (emptyRow : Z) (newBoard : Board)
    : Outcome (Z * Board) :=
  match n with
  | O => Ok (emptyRow, newBoard)
  | S r =>
    (x <- readCell newBoard (Z.of_nat r) (Z.of_nat c) ;;
     if isNull x && (emptyRow =? -1)%Z then
       compactColumn c r (Z.of_nat r) newBoard
     else if negb (isNull x) && negb (emptyRow =? -1)%Z then
       b1 <- writeCell newBoard emptyRow c x ;;
       b2 <- writeCell b1 (Z.of_nat r) c Null ;;
       compactColumn c r (emptyRow - 1)%Z b2
     else
       compactColumn c r emptyRow newBoard)%outcome
  end.

(** The second inner loop, [for (r = n - 1; r >= 0; r--)] started at
    [n - 1 = emptyRow]: every remaining slot receives a new tile. *)
Fixpoint fillColumn (probability : Q) (d : Difficulty) (c : nat) (n : nat)
    (newBoard : Board) (droppedTileIds : gset string) : Eff (Board * gset string) :=
  match n with
  | O => ret (newBoard, droppedTileIds)
  | S r =>
    (u <- Math_random ;;
     newTile <- (if Qlt_le_dec u probability then createTimeTile
                 else createNumberTile d) ;;
     b1 <- lift (writeCell newBoard (Z.of_nat r) c (Tile newTile)) ;;
     fillColumn probability d c r b1 ({[tile_id newTile]} ∪ droppedTileIds))%eff
  end.

(** The outer loop, [for (c = GRID_SIZE - k; c < GRID_SIZE; c++)]. *)
Fixpoint gravityColumns (probability : Q) (d : Difficulty) (k : nat) (c : nat)
    (newBoard : Board) (droppedTileIds : gset string) : Eff (Board * gset string) :=
  match k with
  | O => ret (newBoard, droppedTileIds)
  | S k' =>
    (compacted <- lift (compactColumn c GRID_SIZE (-1) newBoard) ;;
     let (emptyRow, b1) := compacted in
     filled <- fillColumn probability d c (Z.to_nat (emptyRow + 1)) b1 droppedTileIds ;;
     let (b2, ids) := filled in
     gravityColumns probability d k' (S c) b2 ids)%eff
  end.

Record GravityResult := mkGravityResult {
  nextBoard : Board;
  droppedIds : gset string }.

Definition applyGravity (currentBoard : Board) (gameMode : GameMode) (d : Difficulty)
    : Eff GravityResult :=
  (let newBoard := map (fun line => line) currentBoard in
   let probability := timeTileProbability (DIFFICULTY_SETTINGS d) gameMode in
   done <- gravityColumns probability d GRID_SIZE 0 newBoard ∅ ;;
   ret (mkGravityResult done.1 done.2))%eff.

(** *** findPathForTarget *)

(** [!!t] *)
Definition isTruthy (x : Cell) : bool :=
  match x with Tile _ => true | _ => false end.

(** [array.filter(p)] for a predicate that may throw. *)
Fixpoint filterO {A} (p : A -> Outcome bool) (l : list A) : Outcome (list A) :=
  match l with
  | [] => Ok []
  | x :: l' =>
    (keep <- p x ;; rest <- filterO p l' ;;
     Ok (if keep : bool then x :: rest else rest))%outcome
  end.

(** [array.map(f)] for a function that may throw. *)
Fixpoint mapO {A B} (f : A -> Outcome B) (l : list A) : Outcome (list B) :=
  match l with
  | [] => Ok []
  | x :: l' => (y <- f x ;; rest <- mapO f l' ;; Ok (y :: rest))%outcome
  end.

(** The [do ... while] loop that draws a start cell until it holds a number
    tile.  The loop has no bound in the source; [fuel] bounds the number of
    attempts of the model. *)
Fixpoint pickStart (fuel : nat) (b : Board) : Eff Coords :=
  match fuel with
  | O => fun _ => OutOfFuel
  | S fuel' =>
    (startRow <- randomBelow (Z.of_nat GRID_SIZE) ;;
     startCol <- randomBelow (Z.of_nat GRID_SIZE) ;;
     x <- lift (readCell b startRow startCol) ;;
     if isNumberCell x then ret (mkCoords startRow startCol)
     else pickStart fuel' b)%eff
  end.

(** The filter predicate on the four neighbours.  The source keeps the visited
    cells as a [Set] of the strings [`${r},${c}`], which name a pair of
    integers uniquely; the set of pairs stands for it. *)
Definition isCandidate (b : Board) (visited : gset (Z * Z)) (n : Coords) : Outcome bool :=
  if ((0 <=? row n) && (row n <? Z.of_nat GRID_SIZE)
      && (0 <=? col n) && (col n <? Z.of_nat GRID_SIZE))%Z
     && negb (bool_decide ((row n, col n) ∈ visited))
  then (x <- readCell b (row n) (col n) ;; Ok (isNumberCell x))%outcome
  else Ok false.

Definition fourNeighbours (p : Coords) : list Coords :=
  [ mkCoords (row p - 1) (col p); mkCoords (row p + 1) (col p);
    mkCoords (row p) (col p - 1); mkCoords (row p) (col p + 1) ].

(** [for (i = 0; i < n; i++)] with its [break]. *)
Fixpoint extendPath (b : Board) (n : nat) (path : list Coords) (visited : gset (Z * Z))
    : Eff (list Coords) :=
  match n with
  | O => ret path
  | S n' =>
    match last path with
    | None => fun _ => TypeError
    | Some lastCoord =>
      (neighbors <- lift (filterO (isCandidate b visited) (fourNeighbours lastCoord)) ;;
       if (0 <? length neighbors)%nat then
         i <- randomBelow (Z.of_nat (length neighbors)) ;;
         match js_nth neighbors i with
         | None => fun _ => TypeError
         | Some next =>
           extendPath b n' (path ++ [next]) ({[ (row next, col next) ]} ∪ visited)
         end
       else ret path)%eff
    end
  end.

(** [tiles.reduce(...)] of the mode over [tile.value as number]. *)
Definition reduceTiles (gameMode : GameMode) (tiles : list Cell) : Z :=
  match gameMode with
  | Sum => fold_left (fun sum tile => (sum + cell_number tile)%Z) tiles 0%Z
  | Multiply => fold_left (fun prod tile => (prod * cell_number tile)%Z) tiles 1%Z
  end.

Section FindPath.

(** [[...tiles].sort(() => 0.5 - Math.random())].  The comparator is not
    consistent, so the order of the result and the number of draws are the
    engine's choice; the engine's sort is a parameter of the model. *)
Variable randomOrderSort : list Cell -> Eff (list Cell).

Definition findPathForTarget (fuel : nat) (b : Board) (gameMode : GameMode) : Eff Z :=
  let numberTiles := List.filter isNumberCell (concat b) in
  if (length numberTiles <? 2)%nat then ret 10%Z
  else
    (start <- pickStart fuel b ;;
     extra <- randomBelow 2 ;;
     let pathLength := (extra + 2)%Z in
     path <- extendPath b (Z.to_nat (pathLength - 1)) [start]
               {[ (row start, col start) ]} ;;
     cells <- lift (mapO (fun p => readCell b (row p) (col p)) path) ;;
     let targetTiles := List.filter isTruthy cells in
     if (length targetTiles <? 2)%nat then
       sorted <- randomOrderSort numberTiles ;;
       let randomTiles := take 2 sorted in
       if (length randomTiles <? 2)%nat then ret 10%Z
       else ret (reduceTiles gameMode randomTiles)
     else ret (reduceTiles gameMode targetTiles))%eff.

End FindPath.

(** ** state/gameState.ts *)

Record ParticleType := mkParticle {
  particle_id : string;
  particle_x : Q; particle_y : Q; particle_size : Q;
  particle_dx : Q; particle_dy : Q; particle_endScale : Q }.

Record NumberParticleType := mkNumberParticle {
  numberParticle_id : string;
  numberParticle_number : Z;
  numberParticle_startX : Q; numberParticle_startY : Q;
  numberParticle_endX : Q; numberParticle_endY : Q;
  numberParticle_delay : Q }.

Record Announcement := mkAnnouncement {
  announcement_text : string;
  announcement_style : string;
  announcement_id : string }.

(** [{ visible, value, x, y }]: the pointer position is passed through
    untouched, as a rational. *)
Record ValueIndicator := mkValueIndicator {
  visible : bool;
  value : Z;
  pointerX : Q;
  pointerY : Q }.

Record GameState := mkGameState {
  gameScreen : GameScreen;
  status : GameStatus;
  config : StartGameConfig;
  board : Board;
  selectedCoords : list Coords;
  isSelecting : bool;
  targetNumber : Z;
  timeLeft : Z;
  score : Z;
  bestScore : Z;
  comboCount : Z;
  comboTimerKey : string;
  clearingCoords : list Coords;
  droppingTileIds : gset string;
  fallingOffTimeTileIds : gset string;
  incorrectSelection : option string;
  isTargetMatched : bool;
  scoreJustUpdated : bool;
  particles : list ParticleType;
  numberParticles : list NumberParticleType;
  announcements : list Announcement;
  showValueIndicator : bool;
  valueIndicator : ValueIndicator }.

(** [{ ...state, field: v }], one function per field. *)
Definition set_gameScreen (v : GameScreen) (s : GameState) : GameState :=
  mkGameState v (status s) (config s) (board s) (selectedCoords s)
    (isSelecting s) (targetNumber s) (timeLeft s) (score s) (bestScore s)
    (comboCount s) (comboTimerKey s) (clearingCoords s) (droppingTileIds s)
    (fallingOffTimeTileIds s) (incorrectSelection s) (isTargetMatched s)
    (scoreJustUpdated s) (particles s) (numberParticles s) (announcements s)
    (showValueIndicator s) (valueIndicator s).

Definition set_status (v : GameStatus) (s : GameState) : GameState :=
  mkGameState (gameScreen s) v (config s) (board s) (selectedCoords s)
    (isSelecting s) (targetNumber s) (timeLeft s) (score s) (bestScore s)
    (comboCount s) (comboTimerKey s) (clearingCoords s) (droppingTileIds s)
    (fallingOffTimeTileIds s) (incorrectSelection s) (isTargetMatched s)
    (scoreJustUpdated s) (particles s) (numberParticles s) (announcements s)
    (showValueIndicator s) (valueIndicator s).

Definition set_config (v : StartGameConfig) (s : GameState) : GameState :=
  mkGameState (gameScreen s) (status s) v (board s) (selectedCoords s)
    (isSelecting s) (targetNumber s) (timeLeft s) (score s) (bestScore s)
    (comboCount s) (comboTimerKey s) (clearingCoords s) (droppingTileIds s)
    (fallingOffTimeTileIds s) (incorrectSelection s) (isTargetMatched s)
    (scoreJustUpdated s) (particles s) (numberParticles s) (announcements s)
    (showValueIndicator s) (valueIndicator s).

Definition set_board (v : Board) (s : GameState) : GameState :=
  mkGameState (gameScreen s) (status s) (config s) v (selectedCoords s)
    (isSelecting s) (targetNumber s) (timeLeft s) (score s) (bestScore s)
    (comboCount s) (comboTimerKey s) (clearingCoords s) (droppingTileIds s)
    (fallingOffTimeTileIds s) (incorrectSelection s) (isTargetMatched s)
    (scoreJustUpdated s) (particles s) (numberParticles s) (announcements s)
    (showValueIndicator s) (valueIndicator s).

Definition set_selectedCoords (v : list Coords) (s : GameState) : GameState :=
  mkGameState (gameScreen s) (status s) (config s) (board s) v (isSelecting s)
    (targetNumber s) (timeLeft s) (score s) (bestScore s) (comboCount s)
    (comboTimerKey s) (clearingCoords s) (droppingTileIds s)
    (fallingOffTimeTileIds s) (incorrectSelection s) (isTargetMatched s)
    (scoreJustUpdated s) (particles s) (numberParticles s) (announcements s)
    (showValueIndicator s) (valueIndicator s).

Definition set_isSelecting (v : bool) (s : GameState) : GameState :=
  mkGameState (gameScreen s) (status s) (config s) (board s)
    (selectedCoords s) v (targetNumber s) (timeLeft s) (score s) (bestScore s)
    (comboCount s) (comboTimerKey s) (clearingCoords s) (droppingTileIds s)
    (fallingOffTimeTileIds s) (incorrectSelection s) (isTargetMatched s)
    (scoreJustUpdated s) (particles s) (numberParticles s) (announcements s)
    (showValueIndicator s) (valueIndicator s).

Definition set_targetNumber (v : Z) (s : GameState) : GameState :=
  mkGameState (gameScreen s) (status s) (config s) (board s)
    (selectedCoords s) (isSelecting s) v (timeLeft s) (score s) (bestScore s)
    (comboCount s) (comboTimerKey s) (clearingCoords s) (droppingTileIds s)
    (fallingOffTimeTileIds s) (incorrectSelection s) (isTargetMatched s)
    (scoreJustUpdated s) (particles s) (numberParticles s) (announcements s)
    (showValueIndicator s) (valueIndicator s).

Definition set_timeLeft (v : Z) (s : GameState) : GameState :=
  mkGameState (gameScreen s) (status s) (config s) (board s)
    (selectedCoords s) (isSelecting s) (targetNumber s) v (score s)
    (bestScore s) (comboCount s) (comboTimerKey s) (clearingCoords s)
    (droppingTileIds s) (fallingOffTimeTileIds s) (incorrectSelection s)
    (isTargetMatched s) (scoreJustUpdated s) (particles s) (numberParticles s)
    (announcements s) (showValueIndicator s) (valueIndicator s).

Definition set_score (v : Z) (s : GameState) : GameState :=
  mkGameState (gameScreen s) (status s) (config s) (board s)
    (selectedCoords s) (isSelecting s) (targetNumber s) (timeLeft s) v
    (bestScore s) (comboCount s) (comboTimerKey s) (clearingCoords s)
    (droppingTileIds s) (fallingOffTimeTileIds s) (incorrectSelection s)
    (isTargetMatched s) (scoreJustUpdated s) (particles s) (numberParticles s)
    (announcements s) (showValueIndicator s) (valueIndicator s).

Definition set_bestScore (v : Z) (s : GameState) : GameState :=
  mkGameState (gameScreen s) (status s) (config s) (board s)
    (selectedCoords s) (isSelecting s) (targetNumber s) (timeLeft s) (score s)
    v (comboCount s) (comboTimerKey s) (clearingCoords s) (droppingTileIds s)
    (fallingOffTimeTileIds s) (incorrectSelection s) (isTargetMatched s)
    (scoreJustUpdated s) (particles s) (numberParticles s) (announcements s)
    (showValueIndicator s) (valueIndicator s).

Definition set_comboCount (v : Z) (s : GameState) : GameState :=
  mkGameState (gameScreen s) (status s) (config s) (board s)
    (selectedCoords s) (isSelecting s) (targetNumber s) (timeLeft s) (score s)
    (bestScore s) v (comboTimerKey s) (clearingCoords s) (droppingTileIds s)
    (fallingOffTimeTileIds s) (incorrectSelection s) (isTargetMatched s)
    (scoreJustUpdated s) (particles s) (numberParticles s) (announcements s)
    (showValueIndicator s) (valueIndicator s).

Definition set_comboTimerKey (v : string) (s : GameState) : GameState :=
  mkGameState (gameScreen s) (status s) (config s) (board s)
    (selectedCoords s) (isSelecting s) (targetNumber s) (timeLeft s) (score s)
    (bestScore s) (comboCount s) v (clearingCoords s) (droppingTileIds s)
    (fallingOffTimeTileIds s) (incorrectSelection s) (isTargetMatched s)
    (scoreJustUpdated s) (particles s) (numberParticles s) (announcements s)
    (showValueIndicator s) (valueIndicator s).

Definition set_clearingCoords (v : list Coords) (s : GameState) : GameState :=
  mkGameState (gameScreen s) (status s) (config s) (board s)
    (selectedCoords s) (isSelecting s) (targetNumber s) (timeLeft s) (score s)
    (bestScore s) (comboCount s) (comboTimerKey s) v (droppingTileIds s)
    (fallingOffTimeTileIds s) (incorrectSelection s) (isTargetMatched s)
    (scoreJustUpdated s) (particles s) (numberParticles s) (announcements s)
    (showValueIndicator s) (valueIndicator s).

Definition set_droppingTileIds (v : gset string) (s : GameState) : GameState :=
  mkGameState (gameScreen s) (status s) (config s) (board s)
    (selectedCoords s) (isSelecting s) (targetNumber s) (timeLeft s) (score s)
    (bestScore s) (comboCount s) (comboTimerKey s) (clearingCoords s) v
    (fallingOffTimeTileIds s) (incorrectSelection s) (isTargetMatched s)
    (scoreJustUpdated s) (particles s) (numberParticles s) (announcements s)
    (showValueIndicator s) (valueIndicator s).

Definition set_fallingOffTimeTileIds (v : gset string) (s : GameState) : GameState :=
  mkGameState (gameScreen s) (status s) (config s) (board s)
    (selectedCoords s) (isSelecting s) (targetNumber s) (timeLeft s) (score s)
    (bestScore s) (comboCount s) (comboTimerKey s) (clearingCoords s)
    (droppingTileIds s) v (incorrectSelection s) (isTargetMatched s)
    (scoreJustUpdated s) (particles s) (numberParticles s) (announcements s)
    (showValueIndicator s) (valueIndicator s).

Definition set_incorrectSelection (v : option string) (s : GameState) : GameState :=
  mkGameState (gameScreen s) (status s) (config s) (board s)
    (selectedCoords s) (isSelecting s) (targetNumber s) (timeLeft s) (score s)
    (bestScore s) (comboCount s) (comboTimerKey s) (clearingCoords s)
    (droppingTileIds s) (fallingOffTimeTileIds s) v (isTargetMatched s)
    (scoreJustUpdated s) (particles s) (numberParticles s) (announcements s)
    (showValueIndicator s) (valueIndicator s).

Definition set_isTargetMatched (v : bool) (s : GameState) : GameState :=
  mkGameState (gameScreen s) (status s) (config s) (board s)
    (selectedCoords s) (isSelecting s) (targetNumber s) (timeLeft s) (score s)
    (bestScore s) (comboCount s) (comboTimerKey s) (clearingCoords s)
    (droppingTileIds s) (fallingOffTimeTileIds s) (incorrectSelection s) v
    (scoreJustUpdated s) (particles s) (numberParticles s) (announcements s)
    (showValueIndicator s) (valueIndicator s).

Definition set_scoreJustUpdated (v : bool) (s : GameState) : GameState :=
  mkGameState (gameScreen s) (status s) (config s) (board s)
    (selectedCoords s) (isSelecting s) (targetNumber s) (timeLeft s) (score s)
    (bestScore s) (comboCount s) (comboTimerKey s) (clearingCoords s)
    (droppingTileIds s) (fallingOffTimeTileIds s) (incorrectSelection s)
    (isTargetMatched s) v (particles s) (numberParticles s) (announcements s)
    (showValueIndicator s) (valueIndicator s).

Definition set_particles (v : list ParticleType) (s : GameState) : GameState :=
  mkGameState (gameScreen s) (status s) (config s) (board s)
    (selectedCoords s) (isSelecting s) (targetNumber s) (timeLeft s) (score s)
    (bestScore s) (comboCount s) (comboTimerKey s) (clearingCoords s)
    (droppingTileIds s) (fallingOffTimeTileIds s) (incorrectSelection s)
    (isTargetMatched s) (scoreJustUpdated s) v (numberParticles s)
    (announcements s) (showValueIndicator s) (valueIndicator s).

Definition set_numberParticles (v : list NumberParticleType) (s : GameState) : GameState :=
  mkGameState (gameScreen s) (status s) (config s) (board s)
    (selectedCoords s) (isSelecting s) (targetNumber s) (timeLeft s) (score s)
    (bestScore s) (comboCount s) (comboTimerKey s) (clearingCoords s)
    (droppingTileIds s) (fallingOffTimeTileIds s) (incorrectSelection s)
    (isTargetMatched s) (scoreJustUpdated s) (particles s) v (announcements s)
    (showValueIndicator s) (valueIndicator s).

Definition set_announcements (v : list Announcement) (s : GameState) : GameState :=
  mkGameState (gameScreen s) (status s) (config s) (board s)
    (selectedCoords s) (isSelecting s) (targetNumber s) (timeLeft s) (score s)
    (bestScore s) (comboCount s) (comboTimerKey s) (clearingCoords s)
    (droppingTileIds s) (fallingOffTimeTileIds s) (incorrectSelection s)
    (isTargetMatched s) (scoreJustUpdated s) (particles s) (numberParticles s)
    v (showValueIndicator s) (valueIndicator s).

Definition set_showValueIndicator (v : bool) (s : GameState) : GameState :=
  mkGameState (gameScreen s) (status s) (config s) (board s)
    (selectedCoords s) (isSelecting s) (targetNumber s) (timeLeft s) (score s)
    (bestScore s) (comboCount s) (comboTimerKey s) (clearingCoords s)
    (droppingTileIds s) (fallingOffTimeTileIds s) (incorrectSelection s)
    (isTargetMatched s) (scoreJustUpdated s) (particles s) (numberParticles s)
    (announcements s) v (valueIndicator s).

Definition set_valueIndicator (v : ValueIndicator) (s : GameState) : GameState :=
  mkGameState (gameScreen s) (status s) (config s) (board s)
    (selectedCoords s) (isSelecting s) (targetNumber s) (timeLeft s) (score s)
    (bestScore s) (comboCount s) (comboTimerKey s) (clearingCoords s)
    (droppingTileIds s) (fallingOffTimeTileIds s) (incorrectSelection s)
    (isTargetMatched s) (scoreJustUpdated s) (particles s) (numberParticles s)
    (announcements s) (showValueIndicator s) v.

Inductive GameAction :=
  | START_GAME (payload : StartGameConfig)
  | PAUSE_GAME
  | RESUME_GAME
  | RESTART_GAME
  | RETURN_TO_MENU
  | NAVIGATE_THEMES
  | NAVIGATE_BACK (payload : GameScreen)
  | TICK
  | GAME_OVER
  | POINTER_DOWN (payload : option Coords)
  | POINTER_MOVE (coords : option Coords) (clientX clientY : Q)
  | POINTER_UP
  | MATCH_SUCCESS (points : Z) (coordsToClear : list Coords)
  | MATCH_FAILURE
  | FINISH_CLEARING (next : Board) (dropped : gset string)
  | START_BONUS_FALL (timeTiles : gset string) (timeToAdd : Z)
  | FINISH_BONUS_FALL (next : Board) (dropped : gset string)
  | FINISH_TURN (newTarget : Z)
  | RESET_ANIMATIONS
  | ADD_ANNOUNCEMENT (text : string) (style : option string)
  | REMOVE_ANNOUNCEMENT (payload : string)
  | REMOVE_PARTICLE (payload : string)
  | REMOVE_NUMBER_PARTICLE (payload : string)
  | TOGGLE_VALUE_INDICATOR.

(** [c.row === p.row && c.col === p.col] *)
Definition sameCoords (c p : Coords) : bool :=
  ((row c =? row p) && (col c =? col p))%Z.

(** [style || 'text-pink-500'] *)
Definition styleOrDefault (style : option string) : string :=
  match style with
  | Some EmptyString => "text-pink-500"
  | Some s => s
  | None => "text-pink-500"
  end.

Section Reducer.

(** What the module reads when it is loaded: the stored best score, the
    first combo key and the stored indicator preference. *)
Variable storedBestScore : Z.
Variable firstComboTimerKey : string.
Variable storedShowValueIndicator : bool.

Definition initialState : GameState :=
  {| gameScreen := StartScreen;
     status := Ready;
     config := mkConfig Sum Banana Tap;
     board := [];
     selectedCoords := [];
     isSelecting := false;
     targetNumber := 0;
     timeLeft := 0;
     score := 0;
     bestScore := storedBestScore;
     comboCount := 0;
     comboTimerKey := firstComboTimerKey;
     clearingCoords := [];
     droppingTileIds := ∅;
     fallingOffTimeTileIds := ∅;
     incorrectSelection := None;
     isTargetMatched := false;
     scoreJustUpdated := false;
     particles := [];
     numberParticles := [];
     announcements := [];
     showValueIndicator := storedShowValueIndicator;
     valueIndicator := mkValueIndicator false 0 0 0 |}.

(** The state both [START_GAME] and [RESTART_GAME] return. *)
Definition freshGame (state : GameState) (cfg : StartGameConfig) : Eff GameState :=
  (newBoardData <- createInitialBoard (difficulty cfg) ;;
   ret (set_gameScreen GameScreenGame
       (set_status Playing
       (set_config cfg
       (set_board (ib_board newBoardData)
       (set_timeLeft (initialTime (DIFFICULTY_SETTINGS (difficulty cfg)))
       (set_droppingTileIds (allIds newBoardData)
       (set_bestScore (bestScore state)
       (set_showValueIndicator (showValueIndicator state) initialState)))))))))%eff.

Definition pointerDown (state : GameState) (payload : option Coords) : GameState :=
  match payload with
  | None => state
  | Some p =>
    if negb (bool_decide (status state = Playing)) then state
    else if bool_decide (selectionMode (config state) = Tap) then
      let isSelected := existsb (fun c => sameCoords c p) (selectedCoords state) in
      let newSelection :=
        if isSelected
        then List.filter (fun c => negb (row c =? row p)%Z || negb (col c =? col p)%Z)
               (selectedCoords state)
        else selectedCoords state ++ [p] in
      set_selectedCoords newSelection state
    else
      let initialSelection := [p] in
      let initialValue :=
        calculateSelectionValue initialSelection (board state) (mode (config state)) in
      set_isSelecting true
        (set_selectedCoords initialSelection
        (set_valueIndicator
           (mkValueIndicator true initialValue
              (pointerX (valueIndicator state)) (pointerY (valueIndicator state)))
           state))
  end.

(** [{ ...state, valueIndicator: { ...state.valueIndicator, x, y } }] *)
Definition movePointer (state : GameState) (clientX clientY : Q) : GameState :=
  set_valueIndicator
    (mkValueIndicator (visible (valueIndicator state)) (value (valueIndicator state))
       clientX clientY)
    state.

Definition pointerMove (state : GameState) (coords : option Coords) (clientX clientY : Q)
    : Outcome GameState :=
  match coords with
  | None => Ok (movePointer state clientX clientY)
  | Some c =>
    if negb (isSelecting state) then Ok (movePointer state clientX clientY)
    else
      let selected := selectedCoords state in
      if (length selected =? 0)%nat then
        Ok (set_valueIndicator
              (mkValueIndicator false (value (valueIndicator state)) clientX clientY)
              state)
      else
        (backtracking <-
           (if (1 <? length selected)%nat then
              match js_nth selected (Z.of_nat (length selected) - 2) with
              | None => TypeError
              | Some secondToLast => Ok (sameCoords secondToLast c)
              end
            else Ok false) ;;
         if backtracking : bool then
           let newSelection := take (length selected - 1) selected in
           let newValue :=
             calculateSelectionValue newSelection (board state) (mode (config state)) in
           Ok (set_selectedCoords newSelection
                 (set_valueIndicator (mkValueIndicator true newValue clientX clientY) state))
         else
           let isAlreadySelected := existsb (fun s => sameCoords s c) selected in
           if isAlreadySelected then Ok (movePointer state clientX clientY)
           else
             match js_nth selected (Z.of_nat (length selected) - 1) with
             | None => TypeError
             | Some lastCoord =>
               let isAdjacent :=
                 ((Z.abs (row lastCoord - row c) <=? 1)
                  && (Z.abs (col lastCoord - col c) <=? 1))%Z in
               if isAdjacent then
                 let newSelection := selected ++ [c] in
                 let newValue :=
                   calculateSelectionValue newSelection (board state) (mode (config state)) in
                 Ok (set_selectedCoords newSelection
                       (set_valueIndicator
                          (mkValueIndicator true newValue clientX clientY) state))
               else Ok (movePointer state clientX clientY)
             end)%outcome
  end.

(** The additions on score, combo count and clock are those of doubles in
    the source, exact within the safe integers. *)
Definition gameReducer (state : GameState) (action : GameAction) : Eff GameState :=
  match action with
  | START_GAME payload => freshGame state payload
  | RESTART_GAME => freshGame state (config state)
  | PAUSE_GAME => ret (set_status Paused state)
  | RESUME_GAME => ret (set_status Playing state)
  | RETURN_TO_MENU => ret (set_gameScreen StartScreen (set_status Ready state))
  | NAVIGATE_THEMES => ret (set_gameScreen ThemesScreen state)
  | NAVIGATE_BACK payload => ret (set_gameScreen payload state)
  | TICK => ret (set_timeLeft (Z.max 0 (timeLeft state - 1)) state)
  | GAME_OVER => ret (set_status GameOver state)
  | POINTER_DOWN payload => ret (pointerDown state payload)
  | POINTER_MOVE coords clientX clientY => lift (pointerMove state coords clientX clientY)
  | POINTER_UP =>
    ret (set_isSelecting false
          (set_valueIndicator
             (mkValueIndicator false (value (valueIndicator state))
                (pointerX (valueIndicator state)) (pointerY (valueIndicator state)))
             state))
  | MATCH_SUCCESS points coordsToClear =>
    (let newScore := (score state + points)%Z in
     let newBestScore := Z.max (bestScore state) newScore in
     _ <- setItem "bestScore" (pretty newBestScore) ;;
     key <- randomUUID ;;
     ret (set_score newScore
         (set_bestScore newBestScore
         (set_scoreJustUpdated true
         (set_isTargetMatched true
         (set_comboCount (comboCount state + 1)%Z
         (set_comboTimerKey key
         (set_status Clearing
         (set_selectedCoords []
         (set_clearingCoords coordsToClear state))))))))))%eff
  | MATCH_FAILURE =>
    (key <- randomUUID ;;
     ret (set_incorrectSelection (Some key) (set_selectedCoords [] state)))%eff
  | FINISH_CLEARING next dropped =>
    ret (set_status Falling
        (set_board next
        (set_droppingTileIds dropped
        (set_clearingCoords [] state))))
  | START_BONUS_FALL timeTiles timeToAdd =>
    ret (set_fallingOffTimeTileIds timeTiles
        (set_timeLeft (timeLeft state + timeToAdd)%Z state))
  | FINISH_BONUS_FALL next dropped =>
    ret (set_board next
        (set_droppingTileIds dropped
        (set_fallingOffTimeTileIds ∅ state)))
  | FINISH_TURN newTarget =>
    ret (set_status Playing (set_targetNumber newTarget state))
  | RESET_ANIMATIONS =>
    ret (set_scoreJustUpdated false
        (set_isTargetMatched false
        (set_incorrectSelection None
        (set_droppingTileIds ∅ state))))
  | ADD_ANNOUNCEMENT text style =>
    (i <- randomUUID ;;
     let newAnnouncement := mkAnnouncement text (styleOrDefault style) i in
     ret (set_announcements (announcements state ++ [newAnnouncement]) state))%eff
  | REMOVE_ANNOUNCEMENT payload =>
    ret (set_announcements
           (List.filter (fun a => negb (bool_decide (announcement_id a = payload)))
              (announcements state))
           state)
  | REMOVE_PARTICLE payload =>
    ret (set_particles
           (List.filter (fun p => negb (bool_decide (particle_id p = payload)))
              (particles state))
           state)
  | REMOVE_NUMBER_PARTICLE payload =>
    ret (set_numberParticles
           (List.filter (fun p => negb (bool_decide (numberParticle_id p = payload)))
              (numberParticles state))
           state)
  | TOGGLE_VALUE_INDICATOR =>
    ret (set_showValueIndicator (negb (showValueIndicator state)) state)
  end.

End Reducer.

(** ** Vocabulary of the specification *)

Section Dispatch.

Variable storedBestScore : Z.
Variable firstComboTimerKey : string.
Variable storedShowValueIndicator : bool.

Local Abbreviation reduce :=
  (gameReducer storedBestScore firstComboTimerKey storedShowValueIndicator).

(** Dispatching a list of actions in order. *)
Fixpoint dispatchAll (state : GameState) (actions : list GameAction) : Eff GameState :=
  match actions with
  | [] => ret state
  | a :: rest => (s1 <- reduce state a ;; dispatchAll s1 rest)%eff
  end.

(** The states reached after each action of a list, in order. *)
Fixpoint dispatchTrace (state : GameState) (actions : list GameAction)
    : Eff (list GameState) :=
  match actions with
  | [] => ret []
  | a :: rest =>
    (s1 <- reduce state a ;;
     later <- dispatchTrace s1 rest ;;
     ret (s1 :: later))%eff
  end.

End Dispatch.

(** A sequence of [MatchSuccess] actions, from their payloads. *)
Definition matchSuccesses (payloads : list (Z * list Coords)) : list GameAction :=
  map (fun p => MATCH_SUCCESS p.1 p.2) payloads.

Definition nonDecreasing (l : list Z) : Prop :=
  forall i a b, l !! i = Some a -> l !! S i = Some b -> (a <= b)%Z.

(** The largest of a start value and the values of a list. *)
Definition maxOver (start : Z) (l : list Z) : Z := fold_right Z.max start l.

(** The entry before the last one of a selection. *)
Definition secondToLast (selected : list Coords) : option Coords :=
  match rev selected with
  | _ :: c :: _ => Some c
  | _ => None
  end.

Definition chebyshev (a b : Coords) : Z :=
  Z.max (Z.abs (row a - row b)) (Z.abs (col a - col b)).

(** A board of [GRID_SIZE] rows of [GRID_SIZE] cells. *)
Definition isGrid (b : Board) : Prop :=
  length b = GRID_SIZE /\ Forall (fun line => length line = GRID_SIZE) b.

(** Column [c] of a board, from the top row to the bottom row. *)
Definition column (b : Board) (c : nat) : list Cell :=
  (fun line => default Undefined (line !! c)) <$> b.

(** [x !== null] *)
Definition nonNull (x : Cell) : bool := negb (isNull x).

(** The identifiers of a list of tiles. *)
Definition tileIds (tiles : list TileType) : list string := map tile_id tiles.

(** The state of the column while rows [n .. GRID_SIZE - 1] have been
    visited: rows above [n] are untouched, rows [n .. m - 1] are empty, and the
    rows from [m] on hold the tiles met so far, in their order. *)
Definition compacting (orig col : list Cell) (n m : nat) (emptyRow : Z) : Prop :=
  n <= m <= length orig
  /\ length col = length orig
  /\ ((emptyRow = (-1)%Z /\ m = n) \/ (emptyRow = (Z.of_nat m - 1)%Z /\ n < m))
  /\ take n col = take n orig
  /\ drop n col = replicate (m - n) Null ++ List.filter nonNull (drop n orig).

(** No position of the board reads [undefined]: the cells are of the declared
    type [TileType | null]. *)
Definition typedBoard (b : Board) : Prop :=
  Forall (Forall (fun x => x <> Undefined)) b.

(** Every cell of the board is occupied by a tile. *)
Definition fullBoard (b : Board) : Prop :=
  Forall (Forall (fun x => isTruthy x = true)) b.

(** The identifier of the tile in a cell, if there is a tile. *)
Definition cellId (x : Cell) : option string :=
  match x with Tile t => Some (tile_id t) | _ => None end.

(** The identifiers of the tiles that [fresh] assigns to the columns
    [c .. c + k - 1], column after column. *)
Definition freshIds (fresh : nat -> list TileType) (c k : nat) : list string :=
  concat ((fun c' => tileIds (fresh c')) <$> seq c k).

(** The same identifiers in the order in which the code creates the tiles:
    column after column, each column from its lowest free row upwards. *)
Definition freshIdsInOrder (fresh : nat -> list TileType) (c k : nat) : list string :=
  concat ((fun c' => tileIds (reverse (fresh c'))) <$> seq c k).

(** *** Paths and targets *)

(** Two coordinates are four-adjacent: one step up, down, left or right. *)
Definition adjacent4 (a b : Coords) : Prop :=
  (Z.abs (row a - row b) + Z.abs (col a - col b) = 1)%Z.

(** Every coordinate of the list is four-adjacent to the next one. *)
Definition chained (path : list Coords) : Prop :=
  forall i a b, path !! i = Some a -> path !! S i = Some b -> adjacent4 a b.

Definition isNumberAt (b : Board) (p : Coords) : Prop :=
  isNumberCell (cellAt b (row p) (col p)) = true.

(** A contiguous path of two or three distinct number tiles of the board. *)
Definition validPath (b : Board) (path : list Coords) : Prop :=
  (length path = 2 \/ length path = 3)
  /\ NoDup path
  /\ chained path
  /\ Forall (isNumberAt b) path.

(** The value is the sum or product along some such path. *)
Definition reachableTarget (b : Board) (m : GameMode) (v : Z) : Prop :=
  exists path, validPath b path /\ v = foldValues m (omap (numberValueAt b) path).

(** The values of the number tiles of the whole board, row after row. *)
Definition numberValues (b : Board) : list Z :=
  omap (fun x => match x with Tile (NumberTile _ v) => Some v | _ => None end) (concat b).

(** The value is the sum or product of two number tiles at different
    positions of the board. *)
Definition pairTarget (b : Board) (m : GameMode) (v : Z) : Prop :=
  exists v1 v2 others,
    Permutation (v1 :: v2 :: others) (numberValues b) /\ v = foldValues m [v1; v2].

(** The cell has a number tile on one of its four sides. *)
Definition hasNumberNeighbour (b : Board) (p : Coords) : Prop :=
  exists q, q ∈ fourNeighbours p /\ isNumberAt b q.

(** The result of [Math.floor(Math.random() * GRID_SIZE)] at draw [j] after
    the draws made so far. *)
Definition gridDraw (w : World) (j : nat) : Z :=
  Qfloor (unitInterval (entropy w (drawn w + j)) * inject_Z (Z.of_nat GRID_SIZE)).

(** Attempt [k] of the start search lands on a number tile. *)
Definition attemptHits (b : Board) (w : World) (k : nat) : Prop :=
  isNumberCell (cellAt b (gridDraw w (2 * k)) (gridDraw w (2 * k + 1))) = true.

(** The cell that attempt [k] of the start search draws: row first, then
    column. *)
Definition drawnCell (w : World) (k : nat) : Coords :=
  mkCoords (gridDraw w (2 * k)) (gridDraw w (2 * k + 1)).

(** The start tile of the walk: the cell of the first attempt of the start
    search that lands on a number tile. *)
Definition startTile (b : Board) (w : World) (start : Coords) : Prop :=
  exists k, attemptHits b w k
            /\ (forall j, j < k -> ~ attemptHits b w j)
            /\ start = drawnCell w k.

(** What an engine's sort under the random comparator is assumed to do: it
    returns, and returns a rearrangement of its input. *)
Definition rearranges (sort : list Cell -> Eff (list Cell)) : Prop :=
  forall l w, exists l' w', sort l w = Ok (l', w') /\ Permutation l' l.

(** The neighbour filter of the path search, as a total test. *)
Definition candidate (b : Board) (visited : gset (Z * Z)) (q : Coords) : bool :=
  inBounds (Z.of_nat GRID_SIZE) q
  && negb (bool_decide ((row q, col q) ∈ visited))
  && isNumberCell (cellAt b (row q) (col q)).

(** What the path search maintains: the path runs over distinct number
    tiles, each next to its predecessor, and [visited] holds exactly its
    coordinates. *)
Definition pathInv (b : Board) (path : list Coords) (visited : gset (Z * Z)) : Prop :=
  NoDup path
  /\ chained path
  /\ Forall (isNumberAt b) path
  /\ (forall q, (row q, col q) ∈ visited <-> q ∈ path).

(** ** Concrete inputs used by the examples *)

Definition exampleWorld : World :=
  mkWorld (fun k => N.of_nat k * 2 ^ 50)%N 0 (fun k => "tile-" +:+ pretty k) 0 ∅.

Definition exampleTile (v : Z) (k : nat) : Cell :=
  Tile (NumberTile ("t" +:+ pretty k) v).

Definition exampleBonus (k : nat) : Cell := Tile (TimeTile ("b" +:+ pretty k)).

(** A full board: four rows of numbers and a row with two bonus tiles. *)
Definition exampleBoard : Board :=
  [ [exampleTile 3 0; exampleTile 5 1; exampleTile 2 2; exampleTile 4 3; exampleTile 1 4];
    [exampleTile 1 5; exampleTile 2 6; exampleTile 6 7; exampleTile 4 8; exampleTile 5 9];
    [exampleTile 4 10; exampleBonus 11; exampleTile 3 12; exampleTile 2 13; exampleBonus 14];
    [exampleTile 2 15; exampleTile 2 16; exampleTile 1 17; exampleTile 5 18; exampleTile 3 19];
    [exampleTile 5 20; exampleTile 1 21; exampleTile 4 22; exampleTile 3 23; exampleTile 2 24] ].

(** A game in progress on [exampleBoard], with a chosen status, clock and
    selection mode. *)
Definition exampleState (st : GameStatus) (t : Z) (sm : SelectionMode) : GameState :=
  set_status st
    (set_timeLeft t
    (set_config (mkConfig Sum Banana sm)
    (set_board exampleBoard
    (set_gameScreen GameScreenGame
    (set_targetNumber 8
    (set_score 10 (initialState 7 "combo-0" true))))))).

(** The same game in the middle of a drag over the given cells. *)
Definition exampleDrag (selected : list Coords) : GameState :=
  set_isSelecting true (set_selectedCoords selected (exampleState Playing 30 Drag)).

(** [exampleBoard] after a match cleared three cells of column 1 and bonus
    resolution cleared one cell of column 4. *)
Definition exampleCleared : Board :=
  [ [exampleTile 3 0; Null; exampleTile 2 2; exampleTile 4 3; exampleTile 1 4];
    [exampleTile 1 5; exampleTile 2 6; exampleTile 6 7; exampleTile 4 8; exampleTile 5 9];
    [exampleTile 4 10; Null; exampleTile 3 12; exampleTile 2 13; Null];
    [exampleTile 2 15; exampleTile 2 16; exampleTile 1 17; exampleTile 5 18; exampleTile 3 19];
    [exampleTile 5 20; Null; exampleTile 4 22; exampleTile 3 23; exampleTile 2 24] ].

(** A sort an engine may run on short arrays: insertion from the left, each
    comparison asking the comparator [() => 0.5 - Math.random()]. *)
Fixpoint insertRandomly (x : Cell) (sorted : list Cell) : Eff (list Cell) :=
  match sorted with
  | [] => ret [x]
  | y :: rest =>
    (u <- Math_random ;;
     if Qlt_le_dec 0 ((1 # 2) - u) then
       later <- insertRandomly x rest ;; ret (y :: later)
     else ret (x :: y :: rest))%eff
  end.

Fixpoint exampleSort (l : list Cell) : Eff (list Cell) :=
  match l with
  | [] => ret []
  | x :: rest => (sorted <- exampleSort rest ;; insertRandomly x sorted)%eff
  end.

(** A grid with two number tiles, in opposite corners, among bonus tiles. *)
Definition sparseBoard : Board :=
  [ [exampleTile 3 0; exampleBonus 1; exampleBonus 2; exampleBonus 3; exampleBonus 4];
    [exampleBonus 5; exampleBonus 6; exampleBonus 7; exampleBonus 8; exampleBonus 9];
    [exampleBonus 10; exampleBonus 11; exampleBonus 12; exampleBonus 13; exampleBonus 14];
    [exampleBonus 15; exampleBonus 16; exampleBonus 17; exampleBonus 18; exampleBonus 19];
    [exampleBonus 20; exampleBonus 21; exampleBonus 22; exampleBonus 23; exampleTile 4 24] ].

(** A world whose every draw is one half. *)
Definition halfWorld : World :=
  mkWorld (fun _ => 2 ^ 52)%N 0 (fun k => "tile-" +:+ pretty k) 0 ∅.

(** ** Vocabulary for the further properties *)

(** The value lies in the tile range of the difficulty. *)
Definition inTileRange (d : Difficulty) (v : Z) : Prop :=
  (min (tileRange (DIFFICULTY_SETTINGS d)) <= v <= max (tileRange (DIFFICULTY_SETTINGS d)))%Z.

(** A number tile in the cell carries a value of the difficulty's range. *)
Definition validCell (d : Difficulty) (x : Cell) : Prop :=
  match x with
  | Tile (NumberTile _ v) => inTileRange d v
  | _ => True
  end.

Global Instance validCell_dec (d : Difficulty) (x : Cell) : Decision (validCell d x).
Proof. destruct x as [| |[i v|i]]; cbn; unfold inTileRange; apply _. Defined.

Definition validBoard (d : Difficulty) (b : Board) : Prop :=
  Forall (Forall (validCell d)) b.

(** Every cell of the board holds a number tile. *)
Definition numberBoard (b : Board) : Prop :=
  Forall (Forall (fun x => isNumberCell x = true)) b.

(** The identifiers of the tiles of the board, row after row. *)
Definition boardIds (b : Board) : list string := omap cellId (concat b).

(** [make] issues [k] identifiers per call, reports them through [ids], and
    establishes [P]. *)
Definition issues {A} (make : Eff A) (P : A -> Prop) (ids : A -> list string) (k : nat)
    : Prop :=
  forall w, exists x w',
    make w = Ok (x, w')
    /\ P x
    /\ ids x = uuidSource w <$> seq (issued w) k
    /\ issued w' = issued w + k
    /\ uuidSource w' = uuidSource w
    /\ localStorage w' = localStorage w.

(** Consecutive entries of a selection are at most a king's move apart. *)
Definition kingChained (l : list Coords) : Prop :=
  forall i a b, l !! i = Some a -> l !! S i = Some b -> (chebyshev a b <= 1)%Z.

Definition isMatchSuccess (a : GameAction) : bool :=
  match a with MATCH_SUCCESS _ _ => true | _ => false end.

(** [START_GAME] and [RESTART_GAME], the two actions that build a new game. *)
Definition startsGame (a : GameAction) : bool :=
  match a with START_GAME _ | RESTART_GAME => true | _ => false end.

(** The points carried by an action: those of a [MATCH_SUCCESS], else none. *)
Definition pointsOf (a : GameAction) : Z :=
  match a with MATCH_SUCCESS points _ => points | _ => 0%Z end.

(** The seconds an action adds to the clock through [START_BONUS_FALL]. *)
Definition bonusTimeOf (a : GameAction) : Z :=
  match a with START_BONUS_FALL _ timeToAdd => timeToAdd | _ => 0%Z end.

Definition sumZ (l : list Z) : Z := fold_right Z.add 0%Z l.

(** [Number.MAX_SAFE_INTEGER].  The numbers of the source are doubles: they
    hold every integer up to this magnitude, and a sum or a product of
    integers is exact as long as it stays within it. *)
Definition MAX_SAFE_INTEGER : Z := (2 ^ 53 - 1)%Z.

Definition safeInteger (z : Z) : Prop := (Z.abs z <= MAX_SAFE_INTEGER)%Z.

(** What a value can add to the size of a running sum, or multiply the size
    of a running product by. *)
Definition magnitude (m : GameMode) (v : Z) : Z :=
  match m with
  | Sum => Z.abs v
  | Multiply => Z.max 1 (Z.abs v)
  end.

(** The values can be summed (sum mode) or multiplied (multiply mode) in any
    order without leaving the safe integers. *)
Definition safeValues (m : GameMode) (vs : list Z) : Prop :=
  (foldValues m (magnitude m <$> vs) <= MAX_SAFE_INTEGER)%Z.

(** The world with its stream of random numbers read from position [from]. *)
Definition drawsFrom (w : World) (from : nat) : World :=
  mkWorld (entropy w) from (uuidSource w) (issued w) (localStorage w).

(** The random numbers of the world keep visiting the whole grid: wherever
    in the stream a start search begins, every cell of the grid is drawn by
    one of its first [fuel] attempts. *)
Definition thoroughDraws (fuel : nat) (w : World) : Prop :=
  forall from p, inBounds (Z.of_nat GRID_SIZE) p = true ->
    exists k, k < fuel /\ drawnCell (drawsFrom w from) k = p.

(** The computation reads the stream of random numbers of the world and
    leaves the stream itself as it is. *)
Definition keepsEntropy {A} (e : Eff A) : Prop :=
  forall w a w', e w = Ok (a, w') -> entropy w' = entropy w.

(** The selection is well formed: it never lists a cell twice, in drag mode
    it is a chain of king's moves, and a drag is in progress in drag mode
    only. *)
Definition selectionInv (s : GameState) : Prop :=
  NoDup (selectedCoords s)
  /\ (selectionMode (config s) = Drag -> kingChained (selectedCoords s))
  /\ (isSelecting s = true -> selectionMode (config s) = Drag).

(** ** hooks/useGameController.ts

    The controller observes the state and answers with sounds and with
    actions for the reducer.  Each effect of the hook is embedded as the
    function from the state it observes to what it emits, in order, once its
    timers have fired and while the component is mounted. *)

Inductive SoundHook :=
  | SfxSelect | SfxMatchL1 | SfxMatchL2 | SfxMatchL3 | SfxMatchL4
  | SfxCombo | SfxBonus | SfxGameover | SfxError.

Inductive Emission :=
  | PlaySound (hook : SoundHook)
  | Dispatch (action : GameAction).

(** The actions among the emissions, in order. *)
Definition dispatched (es : list Emission) : list GameAction :=
  omap (fun e => match e with Dispatch a => Some a | PlaySound _ => None end) es.

(** *** The points of a match

    [Math.ceil(sum * (1 + comboCount * 0.1))] is computed on doubles, and its
    result differs from the exact product for some inputs, so the formula is
    embedded on binary64 floating-point numbers. *)

(** An integer as a double, rounded to nearest even. *)
Definition toDouble (z : Z) : PrimFloat.float :=
  FloatOps.SF2Prim (SpecFloat.binary_normalize FloatOps.prec FloatOps.emax z 0 false).

(** The literal [0.1]: the double [7205759403792794 * 2^-56]. *)
Definition oneTenth : PrimFloat.float :=
  FloatOps.SF2Prim (SpecFloat.S754_finite false 7205759403792794 (-56)).

(** [Math.ceil(x)] of a finite double, as an integer. *)
Definition Math_ceil (x : PrimFloat.float) : Z :=
  match FloatOps.Prim2SF x with
  | SpecFloat.S754_finite negative m e =>
    if (0 <=? e)%Z then
      if negative then (- (Z.pos m * 2 ^ e))%Z else (Z.pos m * 2 ^ e)%Z
    else if negative then (- (Z.pos m / 2 ^ (- e)))%Z
    else (- ((- Z.pos m) / 2 ^ (- e)))%Z
  | _ => 0%Z
  end.

(** [Math.ceil(sum * (1 + comboCount * 0.1))] *)
Definition comboPoints (sum comboCount : Z) : Z :=
  Math_ceil
    (PrimFloat.mul (toDouble sum)
       (PrimFloat.add (toDouble 1) (PrimFloat.mul (toDouble comboCount) oneTenth))).

(** [`match_L${Math.min(comboCount, 3) + 1}`], when it names a sound. *)
Definition comboSfx (comboCount : Z) : option SoundHook :=
  match (Z.min comboCount 3 + 1)%Z with
  | 1%Z => Some SfxMatchL1
  | 2%Z => Some SfxMatchL2
  | 3%Z => Some SfxMatchL3
  | 4%Z => Some SfxMatchL4
  | _ => None
  end.

(** [a[i] = x] for a JavaScript number [i]: a negative [i] names a property
    that is not an element, and the elements stay as they are. *)
Definition js_setZ (a : list Cell) (i : Z) (x : Cell) : list Cell :=
  if (i <? 0)%Z then a else js_set a (Z.to_nat i) x.

(** [boardAfterClear[row][col] = null] *)
Definition clearCell (b : Board) (c : Coords) : Outcome Board :=
  match js_nth b (row c) with
  | None => TypeError
  | Some line => Ok (<[Z.to_nat (row c) := js_setZ line (col c) Null]> b)
  end.

(** [coords.forEach(c => { boardAfterClear[c.row][c.col] = null; })] *)
Fixpoint clearCells (b : Board) (coords : list Coords) : Outcome Board :=
  match coords with
  | [] => Ok b
  | c :: rest => (b1 <- clearCell b c ;; clearCells b1 rest)%outcome
  end.

(** The loop over the bottom row that collects the identifiers of its time
    tiles, [state.board[GRID_SIZE - 1]?.[c]] for [c] from 0. *)
Definition bottomTimeIds (b : Board) : gset string :=
  list_to_set
    (omap (fun c : nat =>
             match cellAt b (Z.of_nat GRID_SIZE - 1) (Z.of_nat c) with
             | Tile (TimeTile i) => Some i
             | _ => None
             end)
          (seq 0 GRID_SIZE)).

(** [tile?.id || ''] *)
Definition idOrEmpty (x : Cell) : string :=
  match x with Tile t => tile_id t | _ => EmptyString end.

(** [board.map(row => row.map(tile => ids.has(tile?.id || '') ? null : tile))] *)
Definition removeBonuses (ids : gset string) (b : Board) : Board :=
  map (map (fun tile => if bool_decide (idOrEmpty tile ∈ ids) then Null else tile)) b.

(** [!!s] for a string or [null]. *)
Definition isTruthyString (s : option string) : bool :=
  match s with Some (String _ _) => true | _ => false end.

Section Controller.

(** The sounds of the theme, [Partial<Record<SoundHook, string>>]. *)
Variable soundMap : SoundHook -> option string.

(** The engine's sort and the bound on the start search, see
    [findPathForTarget]. *)
Variable randomOrderSort : list Cell -> Eff (list Cell).
Variable fuel : nat.

(** [soundMap[comboSfx] ? comboSfx : 'match_L1'] *)
Definition matchSound (comboCount : Z) : SoundHook :=
  match comboSfx comboCount with
  | Some hook => if isTruthyString (soundMap hook) then hook else SfxMatchL1
  | None => SfxMatchL1
  end.

Definition checkMatch (state : GameState) : Outcome (list Emission) :=
  let selected := selectedCoords state in
  let b := board state in
  let cfg := config state in
  if (length selected =? 0)%nat then Ok []
  else
    let hasNumberTile :=
      existsb (fun c => isNumberCell (cellAt b (row c) (col c))) selected in
    if negb hasNumberTile then
      if bool_decide (selectionMode cfg = Drag) && negb (isSelecting state)
      then Ok [Dispatch MATCH_FAILURE]
      else Ok []
    else
      let currentVal := calculateSelectionValue selected b (mode cfg) in
      if (currentVal =? targetNumber state)%Z then
        (tiles <- mapO (fun c => readCell b (row c) (col c)) selected ;;
         let selectedNumberTiles := List.filter isNumberCell tiles in
         let sum :=
           fold_left (fun sum tile => (sum + cell_number tile)%Z) selectedNumberTiles 0%Z in
         let points := comboPoints sum (comboCount state) in
         Ok ([PlaySound (matchSound (comboCount state))]
             ++ (if (0 <? comboCount state)%Z
                    && (Z.rem (comboCount state + 1) 3 =? 0)%Z
                 then [PlaySound SfxCombo;
                       Dispatch (ADD_ANNOUNCEMENT
                                   (pretty (comboCount state + 1)%Z +:+ "x COMBO!") None)]
                 else [])
             ++ [Dispatch (MATCH_SUCCESS points selected)]))%outcome
      else if bool_decide (selectionMode cfg = Tap) && (targetNumber state <? currentVal)%Z
      then Ok [PlaySound SfxError; Dispatch MATCH_FAILURE]
      else if bool_decide (selectionMode cfg = Drag) && negb (isSelecting state)
              && negb (currentVal =? targetNumber state)%Z
      then Ok [PlaySound SfxError; Dispatch MATCH_FAILURE]
      else Ok [].

(** What [checkMatch] emits on a matching selection. *)
Definition successEmissions (s : GameState) (points : Z) : list Emission :=
  [PlaySound (matchSound (comboCount s))]
  ++ (if (0 <? comboCount s)%Z && (Z.rem (comboCount s + 1) 3 =? 0)%Z
      then [PlaySound SfxCombo;
            Dispatch (ADD_ANNOUNCEMENT (pretty (comboCount s + 1)%Z +:+ "x COMBO!") None)]
      else [])
  ++ [Dispatch (MATCH_SUCCESS points (selectedCoords s))].

(** The effect that runs [checkMatch]. *)
Definition matchEffect (state : GameState) : Outcome (list Emission) :=
  if negb (bool_decide (status state = Playing)) then Ok []
  else
    (tapped <- (if bool_decide (selectionMode (config state) = Tap)
                then checkMatch state else Ok []) ;;
     dragged <- (if bool_decide (selectionMode (config state) = Drag)
                    && negb (isSelecting state)
                 then checkMatch state else Ok []) ;;
     Ok (tapped ++ dragged))%outcome.

(** The game timer: what the interval emits each second. *)
Definition timerEffect (state : GameState) : list Emission :=
  if negb (bool_decide (status state = Playing)) then [] else [Dispatch TICK].

Definition gameOverEffect (state : GameState) : list Emission :=
  if bool_decide (status state = Playing) && (timeLeft state <=? 0)%Z
  then [Dispatch GAME_OVER] else [].

(** The first target of a game. *)
Definition initialTargetEffect (state : GameState) : Eff (list Emission) :=
  if bool_decide (status state = Playing) && (targetNumber state =? 0)%Z then
    (newTarget <- findPathForTarget randomOrderSort fuel (board state)
                    (mode (config state)) ;;
     ret [Dispatch (FINISH_TURN newTarget); Dispatch RESET_ANIMATIONS])%eff
  else ret [].

(** After the clearing animation: the matched cells are emptied and gravity
    is applied. *)
Definition clearingEffect (state : GameState) : Eff (list Emission) :=
  if bool_decide (status state = Clearing) && (0 <? length (clearingCoords state))%nat then
    (boardAfterClear <- lift (clearCells (board state) (clearingCoords state)) ;;
     r <- applyGravity boardAfterClear (mode (config state)) (difficulty (config state)) ;;
     ret [Dispatch (FINISH_CLEARING (nextBoard r) (droppedIds r))])%eff
  else ret [].

(** The callback of the falling effect's timer, on the board and the
    configuration of the state the effect observed: what it emits, its
    nested timers included, and the board it has installed with
    [FINISH_BONUS_FALL], if any. *)
Definition fallingCallback (b : Board) (cfg : StartGameConfig)
    : Eff (list Emission * option Board) :=
  let timeBonuses := bottomTimeIds b in
  if (0 <? size timeBonuses)%nat then
    (let boardAfterBonus := removeBonuses timeBonuses b in
     r <- applyGravity boardAfterBonus (mode cfg) (difficulty cfg) ;;
     newTarget <- findPathForTarget randomOrderSort fuel (nextBoard r) (mode cfg) ;;
     ret ([PlaySound SfxBonus;
           Dispatch (START_BONUS_FALL timeBonuses
                       (TIME_BONUS * Z.of_nat (size timeBonuses))%Z);
           Dispatch (FINISH_BONUS_FALL (nextBoard r) (droppedIds r));
           Dispatch (FINISH_TURN newTarget)],
          Some (nextBoard r)))%eff
  else
    (newTarget <- findPathForTarget randomOrderSort fuel b (mode cfg) ;;
     ret ([Dispatch (FINISH_TURN newTarget)], None))%eff.

(** After the drop animation: the time tiles of the bottom row are cashed
    in, and the turn ends with a new target.

    The effect depends on [status] and [state.board] and has no clean-up.
    When the bottom row holds time tiles, [FINISH_BONUS_FALL] replaces
    [state.board] while the status is still falling, so the effect runs a
    second time, on the board just installed.  The timer of the second run is
    set after the timer of the first run's [FINISH_TURN] and with the same
    delay, so its callback comes right after that action; it does not look at
    the status, which is playing by then, and cashes in the time tiles that
    the first run has brought to the bottom row.  A board it installs
    reaches a playing game and starts no third run. *)
Definition fallingEffect (state : GameState) : Eff (list Emission) :=
  if bool_decide (status state = Falling) then
    (first <- fallingCallback (board state) (config state) ;;
     match first.2 with
     | None => ret first.1
     | Some installed =>
       again <- fallingCallback installed (config state) ;;
       ret (first.1 ++ again.1)
     end)%eff
  else ret [].

(** The animation flags are reset 800 ms after any of them is raised. *)
Definition animationCleanupEffect (state : GameState) : list Emission :=
  if scoreJustUpdated state || isTargetMatched state
     || isTruthyString (incorrectSelection state)
     || (0 <? size (droppingTileIds state))%nat
  then [Dispatch RESET_ANIMATIONS] else [].

(** The latest announcement is removed 1500 ms after the list changed. *)
Definition announcementCleanupEffect (state : GameState) : list Emission :=
  if (0 <? length (announcements state))%nat then
    match js_nth (announcements state) (Z.of_nat (length (announcements state)) - 1) with
    | Some latestAnnouncement =>
      [Dispatch (REMOVE_ANNOUNCEMENT (announcement_id latestAnnouncement))]
    | None => []
    end
  else [].

End Controller.

(** *** Effects and reducer together *)

Section Play.

Variable storedBestScore : Z.
Variable firstComboTimerKey : string.
Variable storedShowValueIndicator : bool.

(** One second of play without input: the timer's tick is dispatched, then
    what the game-over effect emits on the new state. *)
Definition second (state : GameState) : Eff GameState :=
  (s1 <- dispatchAll storedBestScore firstComboTimerKey storedShowValueIndicator
           state (dispatched (timerEffect state)) ;;
   dispatchAll storedBestScore firstComboTimerKey storedShowValueIndicator
     s1 (dispatched (gameOverEffect s1)))%eff.

Fixpoint seconds (n : nat) (state : GameState) : Eff GameState :=
  match n with
  | O => ret state
  | S n' => (s1 <- second state ;; seconds n' s1)%eff
  end.

End Play.

(** The moment at which the match effect judges the selection: always in tap
    mode, after the pointer went up in drag mode. *)
Definition deciding (state : GameState) : Prop :=
  selectionMode (config state) = Tap \/ isSelecting state = false.

(** Every selected coordinate names a row of the board. *)
Definition rowsExist (b : Board) (coords : list Coords) : Prop :=
  Forall (fun c => (0 <= row c < Z.of_nat (length b))%Z) coords.

(** The announcement of every third match in a row. *)
Definition comboAnnouncement (comboCount : Z) : list GameAction :=
  if (0 <? comboCount)%Z && ((comboCount + 1) mod 3 =? 0)%Z
  then [ADD_ANNOUNCEMENT (pretty (comboCount + 1)%Z +:+ "x COMBO!") None]
  else [].

(** The cell in row [r] of column [c] is among the coordinates. *)
Definition listed (coords : list Coords) (r c : nat) : bool :=
  existsb (fun p => sameCoords p (mkCoords (Z.of_nat r) (Z.of_nat c))) coords.

(** Column [c], from the top, with the listed cells emptied. *)
Definition clearedColumn (coords : list Coords) (c : nat) (cells : list Cell) : list Cell :=
  imap (fun r x => if listed coords r c then Null else x) cells.

(** The sounds of a theme that ships the first match sound only. *)
Definition exampleSounds (hook : SoundHook) : option string :=
  match hook with
  | SfxSelect => Some "select.mp3"
  | SfxMatchL1 => Some "match1.mp3"
  | SfxBonus => Some "bonus.mp3"
  | SfxError => Some "error.mp3"
  | _ => None
  end.

(** A tap selection on [exampleBoard] in a game with the given target. *)
Definition exampleTaps (selected : list Coords) (target : Z) : GameState :=
  set_targetNumber target (set_selectedCoords selected (exampleState Playing 30 Tap)).

(** [exampleBoard] with its row of bonus tiles at the bottom, in a game of
    difficulty apple that waits for the end of the fall. *)
Definition exampleFallen : Board :=
  [ [exampleTile 3 0; exampleTile 5 1; exampleTile 2 2; exampleTile 4 3; exampleTile 1 4];
    [exampleTile 1 5; exampleTile 2 6; exampleTile 6 7; exampleTile 4 8; exampleTile 5 9];
    [exampleTile 2 15; exampleTile 2 16; exampleTile 1 17; exampleTile 5 18; exampleTile 3 19];
    [exampleTile 5 20; exampleTile 1 21; exampleTile 4 22; exampleTile 3 23; exampleTile 2 24];
    [exampleTile 4 10; exampleBonus 11; exampleTile 3 12; exampleTile 2 13; exampleBonus 14] ].

Definition exampleFalling : GameState :=
  set_status Falling
    (set_config (mkConfig Sum Apple Tap)
       (set_board exampleFallen (exampleState Playing 30 Tap))).

(** A new game of difficulty apple on [exampleBoard], before its first
    target. *)
Definition exampleNewGame : GameState :=
  set_targetNumber 0
    (set_config (mkConfig Sum Apple Tap) (exampleState Playing 60 Tap)).


(** Twenty-five grid indices in which every pair of indices occurs once as
    two neighbours, the last entry being followed by the first. *)
Definition exampleCycle : list N :=
  [0; 0; 1; 0; 2; 0; 3; 0; 4; 1; 1; 2; 1; 3; 1; 4; 2; 2; 3; 2; 4; 3; 3; 4; 4]%N.

(** A world whose random numbers run through [exampleCycle] again and
    again: draw [k] is the middle of the fifth of the unit interval that
    [Math.floor(Math.random() * GRID_SIZE)] maps to entry [k mod 25]. *)
Definition thoroughWorld : World :=
  mkWorld (fun k => ((2 * nth (k mod 25) exampleCycle 0 + 1) * 2 ^ 52 / 5)%N)
    0 (fun k => "tile-" +:+ pretty k) 0 ∅.

(** Every cell of the grid is drawn by one of the first [fuel] attempts of a
    start search that begins at position [from] of the stream. *)
Definition coversFrom (w : World) (fuel from : nat) : bool :=
  forallb
    (fun r =>
       forallb
         (fun c =>
            existsb
              (fun k => sameCoords (drawnCell (drawsFrom w from) k)
                          (mkCoords (Z.of_nat r) (Z.of_nat c)))
              (seq 0 fuel))
         (seq 0 GRID_SIZE))
    (seq 0 GRID_SIZE).
(** ** Lemmas on selections *)

Section Selection.

Lemma fold_number_cells (m : GameMode) (board : Board) (coords : list Coords) (acc : Z) :
  fold_left (fun a tile => modeOp m a (cell_number tile))
    (List.filter isNumberCell (map (fun c => cellAt board (row c) (col c)) coords)) acc
  = fold_left (modeOp m) (omap (numberValueAt board) coords) acc.
Proof.
  revert acc. induction coords as [|c coords IH]; intros acc; [reflexivity|].
  cbn [map List.filter omap list_omap]. unfold numberValueAt at 1.
  destruct (cellAt board (row c) (col c)) as [| |[i v|i]]; cbn; auto.
Qed.

Lemma calculateSelectionValue_fold coords board m :
  calculateSelectionValue coords board m
  = foldValues m (omap (numberValueAt board) coords).
Proof.
  unfold calculateSelectionValue, foldValues.
  pose proof (fold_number_cells m board coords (modeIdentity m)) as H.
  destruct (List.filter isNumberCell _) as [|x l] eqn:E.
  - cbn [length Nat.eqb]. rewrite <- H. destruct m; reflexivity.
  - cbn [length Nat.eqb]. rewrite <- H. destruct m; reflexivity.
Qed.


Lemma js_nth_None_ge {A} (a : list A) (i : Z) :
  (Z.of_nat (length a) <= i)%Z -> js_nth a i = None.
Proof.
  intros H. unfold js_nth. destruct (i <? 0)%Z; [reflexivity|].
  apply lookup_ge_None. lia.
Qed.

Lemma js_nth_None_neg {A} (a : list A) (i : Z) :
  (i < 0)%Z -> js_nth a i = None.
Proof.
  intros Hi. unfold js_nth. destruct (Z.ltb_spec i 0); [reflexivity|lia].
Qed.

Lemma js_nth_Some_lt {A} (a : list A) (i : Z) x :
  js_nth a i = Some x -> (0 <= i < Z.of_nat (length a))%Z /\ a !! Z.to_nat i = Some x.
Proof.
  unfold js_nth. destruct (Z.ltb_spec i 0); [discriminate|].
  intros Hx. split; [|exact Hx]. apply lookup_lt_Some in Hx. lia.
Qed.

Lemma cellAt_outside side board c :
  boardWithin side board -> inBounds (Z.of_nat side) c = false ->
  cellAt board (row c) (col c) = Undefined.
Proof.
  intros [Hrows Hcols] Hout. unfold cellAt.
  destruct (js_nth board (row c)) as [line|] eqn:Hr; [|reflexivity].
  apply js_nth_Some_lt in Hr as [Hrow Hline].
  assert (length line <= side) as Hlen.
  { rewrite Forall_forall in Hcols. apply Hcols.
    eapply list_elem_of_lookup_2. exact Hline. }
  destruct (js_nth line (col c)) as [x|] eqn:Hc; [|reflexivity].
  apply js_nth_Some_lt in Hc as [Hcol _].
  unfold inBounds in Hout.
  destruct (Z.leb_spec 0 (row c)), (Z.ltb_spec (row c) (Z.of_nat side)),
    (Z.leb_spec 0 (col c)), (Z.ltb_spec (col c) (Z.of_nat side));
    cbn in Hout; try discriminate; lia.
Qed.

Lemma filter_number_inBounds side board coords :
  boardWithin side board ->
  List.filter isNumberCell (map (fun c => cellAt board (row c) (col c)) coords)
  = List.filter isNumberCell
      (map (fun c => cellAt board (row c) (col c))
         (List.filter (inBounds (Z.of_nat side)) coords)).
Proof.
  intros Hb. induction coords as [|c coords IH]; [reflexivity|].
  cbn [map List.filter].
  destruct (inBounds (Z.of_nat side) c) eqn:Hin.
  - cbn [map List.filter]. rewrite IH. reflexivity.
  - rewrite (cellAt_outside side board c Hb Hin). cbn. exact IH.
Qed.

End Selection.

(** ** The reducer *)

Section ReducerFacts.

(** The values the module reads when it is loaded, see [initialState]. *)
Variable b0 : Z.
Variable k0 : string.
Variable v0 : bool.

Local Abbreviation reduce := (gameReducer b0 k0 v0).
Local Abbreviation run := (dispatchAll b0 k0 v0).
Local Abbreviation trace := (dispatchTrace b0 k0 v0).


Lemma set_status_id s st : set_status st s = s <-> st = status s.
Proof.
  split.
  - intros H. apply (f_equal status) in H. exact H.
  - intros ->. destruct s; reflexivity.
Qed.


(** *** Totality *)

Lemma createNumberTile_total d w :
  exists t w', createNumberTile d w = Ok (t, w').
Proof. unfold createNumberTile, bind, randomUUID, randomBelow, bind, Math_random, ret. eauto. Qed.

Lemma arrayFrom_total {A} (make : Eff A) n :
  (forall w, exists a w', make w = Ok (a, w')) ->
  forall w, exists l w', arrayFrom n make w = Ok (l, w').
Proof.
  intros Hmake. induction n as [|n IH]; intros w; cbn.
  - unfold ret. eauto.
  - unfold bind. destruct (Hmake w) as (a & w1 & ->).
    destruct (IH w1) as (l & w2 & ->). unfold ret. eauto.
Qed.

Lemma createInitialBoard_total d w :
  exists ib w', createInitialBoard d w = Ok (ib, w').
Proof.
  assert (forall w2, exists l w3,
            arrayFrom GRID_SIZE (bind (createNumberTile d) (fun t => ret (Tile t))) w2
            = Ok (l, w3)) as Hline.
  { apply arrayFrom_total. intros w2. unfold bind.
    destruct (createNumberTile_total d w2) as (t & w3 & ->). unfold ret. eauto. }
  destruct (arrayFrom_total _ GRID_SIZE Hline w) as (b & w1 & Hb).
  unfold createInitialBoard, bind at 1. rewrite Hb. unfold ret. eauto.
Qed.

Lemma freshGame_total s cfg w :
  exists s' w', freshGame b0 k0 v0 s cfg w = Ok (s', w').
Proof.
  unfold freshGame, bind.
  destruct (createInitialBoard_total (difficulty cfg) w) as (ib & w1 & ->).
  unfold ret. eauto.
Qed.

Lemma js_nth_lt_is_Some {A} (l : list A) (i : Z) :
  (0 <= i < Z.of_nat (length l))%Z -> exists x, js_nth l i = Some x.
Proof.
  intros Hi. unfold js_nth. destruct (Z.ltb_spec i 0) as [Hneg|_]; [lia|].
  destruct (lookup_lt_is_Some_2 l (Z.to_nat i)) as [x Hx]; [lia|]. eauto.
Qed.

Lemma pointerMove_total s coords x y :
  exists s', pointerMove s coords x y = Ok s'.
Proof.
  unfold pointerMove. destruct coords as [c|]; [|eauto].
  destruct (isSelecting s); cbn [negb]; [|eauto].
  destruct (Nat.eqb_spec (length (selectedCoords s)) 0) as [|Hlen]; [eauto|].
  destruct (Nat.ltb_spec 1 (length (selectedCoords s))) as [Hgt|Hle].
  - destruct (js_nth_lt_is_Some (selectedCoords s) (Z.of_nat (length (selectedCoords s)) - 2))
      as [p ->]; [lia|]. cbn [obind].
    destruct (sameCoords p c); [eauto|].
    destruct (existsb _ _); [eauto|].
    destruct (js_nth_lt_is_Some (selectedCoords s) (Z.of_nat (length (selectedCoords s)) - 1))
      as [q ->]; [lia|].
    destruct (_ && _); eauto.
  - cbn [obind].
    destruct (existsb _ _); [eauto|].
    destruct (js_nth_lt_is_Some (selectedCoords s) (Z.of_nat (length (selectedCoords s)) - 1))
      as [q ->]; [lia|].
    destruct (_ && _); eauto.
Qed.

Lemma gameReducer_total s a w :
  exists s' w', reduce s a w = Ok (s', w').
Proof.
  destruct a; cbn [gameReducer];
    try (lazymatch goal with
         | |- exists s' w', ret _ _ = _ => unfold ret; eexists _, _; reflexivity
         | |- exists s' w', freshGame _ _ _ _ _ _ = _ => apply freshGame_total
         end).
  - unfold lift. destruct (pointerMove_total s coords clientX clientY) as [s' ->].
    cbn [obind]. eexists _, _. reflexivity.
  - unfold bind, setItem, randomUUID, ret. eexists _, _. reflexivity.
  - unfold bind, randomUUID, ret. eexists _, _. reflexivity.
  - unfold bind, randomUUID, ret. eexists _, _. reflexivity.
Qed.

(** *** Tick *)

Lemma tick_step s w :
  reduce s TICK w = Ok (set_timeLeft (Z.max 0 (timeLeft s - 1)) s, w).
Proof. reflexivity. Qed.

Lemma ticks_run n s w :
  exists s', run s (replicate n TICK) w = Ok (s', w)
    /\ status s' = status s
    /\ timeLeft s' = match n with
                     | O => timeLeft s
                     | S _ => Z.max 0 (timeLeft s - Z.of_nat n)
                     end.
Proof.
  revert s. induction n as [|n IH]; intros s.
  - exists s. repeat split; reflexivity.
  - cbn [replicate dispatchAll]. unfold bind at 1. rewrite tick_step.
    destruct (IH (set_timeLeft (Z.max 0 (timeLeft s - 1)) s)) as (s' & Hrun & Hst & Ht).
    exists s'. split; [exact Hrun|]. split; [rewrite Hst; reflexivity|].
    rewrite Ht. cbn [timeLeft set_timeLeft]. destruct n; lia.
Qed.

(** *** MatchSuccess *)

Lemma matchSuccess_step s points cs w :
  exists s1 w1, reduce s (MATCH_SUCCESS points cs) w = Ok (s1, w1)
    /\ score s1 = (score s + points)%Z
    /\ bestScore s1 = Z.max (bestScore s) (score s + points).
Proof.
  cbn [gameReducer]. unfold bind, setItem, randomUUID, ret.
  eexists _, _. split; [reflexivity|]. split; reflexivity.
Qed.

Lemma maxOver_shift a b l : maxOver (Z.max a b) l = Z.max b (maxOver a l).
Proof.
  unfold maxOver. induction l as [|x l IH]; cbn; [lia|]. rewrite IH. lia.
Qed.

Lemma matchSuccess_trace payloads : forall s w,
  exists states w', trace s (matchSuccesses payloads) w = Ok (states, w')
    /\ length states = length payloads
    /\ (forall k sk, states !! k = Some sk ->
          bestScore sk = maxOver (bestScore s) (map score (take (S k) states)))
    /\ (Forall (fun p => (0 <= p.1)%Z) payloads ->
          nonDecreasing (score s :: map score states)).
Proof.
  induction payloads as [|[points cs] payloads IH]; intros s w.
  - exists [], w. split; [reflexivity|]. split; [reflexivity|]. split.
    + intros k sk Hk. rewrite lookup_nil in Hk. discriminate.
    + intros _ i a b Ha Hb. destruct i; cbn in Hb; discriminate.
  - cbn [matchSuccesses map dispatchTrace fst snd].
    destruct (matchSuccess_step s points cs w) as (s1 & w1 & Hstep & Hscore & Hbest).
    destruct (IH s1 w1) as (states & w' & Hrun & Hlen & Hmax & Hmono).
    exists (s1 :: states), w'. split.
    { unfold bind at 1. rewrite Hstep. unfold bind at 1.
      fold (matchSuccesses payloads). rewrite Hrun. reflexivity. }
    split; [cbn; rewrite Hlen; reflexivity|]. split.
    + intros [|k] sk Hk.
      * cbn in Hk. injection Hk as <-. cbn. rewrite take_0. cbn.
        rewrite Hbest, Hscore. lia.
      * cbn in Hk. rewrite (Hmax k sk Hk), Hbest. cbn [take map].
        change (maxOver ?a (?x :: ?l)) with (Z.max x (maxOver a l)).
        rewrite maxOver_shift. rewrite Hscore. reflexivity.
    + intros Hpos. inversion Hpos as [|? ? Hp Hrest]; subst. cbn [fst] in Hp.
      specialize (Hmono Hrest).
      intros [|i] a b Ha Hb.
      * cbn in Ha, Hb. injection Ha as <-. injection Hb as <-. lia.
      * apply (Hmono i a b); assumption.
Qed.

(** *** PointerMove *)

Lemma sameCoords_true c p : sameCoords c p = true <-> c = p.
Proof.
  unfold sameCoords. rewrite andb_true_iff, !Z.eqb_eq.
  destruct c, p; cbn. split; [intros [-> ->]; reflexivity|intros [= -> ->]; auto].
Qed.

Lemma sameCoords_false c p : sameCoords c p = false <-> c <> p.
Proof.
  rewrite <- sameCoords_true. destruct (sameCoords c p); split; congruence.
Qed.

Lemma existsb_sameCoords selected c :
  existsb (fun s => sameCoords s c) selected = true <-> c ∈ selected.
Proof.
  rewrite existsb_exists. split.
  - intros (x & Hin & Heq). apply sameCoords_true in Heq as <-.
    apply list_elem_of_In. exact Hin.
  - intros Hin. exists c. split; [apply list_elem_of_In; exact Hin|].
    apply sameCoords_true. reflexivity.
Qed.

Lemma js_nth_app_last {A} (l : list A) (x : A) :
  js_nth (l ++ [x]) (Z.of_nat (length (l ++ [x])) - 1) = Some x.
Proof.
  unfold js_nth. rewrite length_app. cbn [length].
  destruct (Z.ltb_spec (Z.of_nat (length l + 1) - 1) 0) as [Hneg|_]; [lia|].
  replace (Z.to_nat (Z.of_nat (length l + 1) - 1)) with (length l) by lia.
  rewrite lookup_app_r by lia. rewrite Nat.sub_diag. reflexivity.
Qed.

Lemma js_nth_app_secondToLast {A} (l : list A) (x y : A) :
  js_nth (l ++ [x; y]) (Z.of_nat (length (l ++ [x; y])) - 2) = Some x.
Proof.
  unfold js_nth. rewrite length_app. cbn [length].
  destruct (Z.ltb_spec (Z.of_nat (length l + 2) - 2) 0) as [Hneg|_]; [lia|].
  replace (Z.to_nat (Z.of_nat (length l + 2) - 2)) with (length l) by lia.
  rewrite lookup_app_r by lia. rewrite Nat.sub_diag. reflexivity.
Qed.

Lemma secondToLast_app l x y : secondToLast (l ++ [x; y]) = Some x.
Proof. unfold secondToLast. rewrite rev_app_distr. reflexivity. Qed.

Lemma secondToLast_single x : secondToLast [x] = None.
Proof. reflexivity. Qed.

(** A non-empty selection ends in one entry, or in two. *)
Lemma selection_shape (l : list Coords) :
  l <> [] -> (exists x, l = [x]) \/ (exists l' x y, l = l' ++ [x; y]).
Proof.
  intros Hne. destruct l as [|a l] using rev_ind; [congruence|]. clear IHl.
  destruct l as [|b l] using rev_ind; [left; eauto|]. clear IHl.
  right. exists l, b, a. rewrite <- app_assoc. reflexivity.
Qed.

End ReducerFacts.

(** ** Gravity *)

Section Gravity.

Lemma js_nth_of_nat {A} (l : list A) (i : nat) : js_nth l (Z.of_nat i) = l !! i.
Proof.
  unfold js_nth. destruct (Z.ltb_spec (Z.of_nat i) 0) as [Hneg|_]; [lia|].
  rewrite Nat2Z.id. reflexivity.
Qed.

Lemma isGrid_lookup b r :
  isGrid b -> r < GRID_SIZE -> exists line, b !! r = Some line /\ length line = GRID_SIZE.
Proof.
  intros [Hrows Hcols] Hr.
  destruct (lookup_lt_is_Some_2 b r) as [line Hline]; [lia|].
  exists line. split; [exact Hline|].
  rewrite Forall_forall in Hcols. apply Hcols.
  eapply list_elem_of_lookup_2. exact Hline.
Qed.

Lemma column_length b c : length (column b c) = length b.
Proof. unfold column. apply length_fmap. Qed.

Lemma column_lookup b c r line :
  b !! r = Some line -> column b c !! r = Some (default Undefined (line !! c)).
Proof. intros H. unfold column. rewrite list_lookup_fmap, H. reflexivity. Qed.

Lemma readCell_column b r c x :
  r < length b -> column b c !! r = Some x ->
  readCell b (Z.of_nat r) (Z.of_nat c) = Ok x.
Proof.
  intros Hr Hx. unfold readCell. rewrite js_nth_of_nat.
  destruct (lookup_lt_is_Some_2 b r Hr) as [line Hline].
  rewrite Hline. rewrite (column_lookup b c r line Hline) in Hx.
  injection Hx as <-. rewrite js_nth_of_nat. reflexivity.
Qed.

Lemma writeCell_grid b r c x :
  isGrid b -> r < GRID_SIZE -> c < GRID_SIZE ->
  exists b', writeCell b (Z.of_nat r) c x = Ok b'
    /\ isGrid b'
    /\ column b' c = <[r := x]> (column b c)
    /\ (forall c', c' <> c -> column b' c' = column b c').
Proof.
  intros Hgrid Hr Hc.
  destruct (isGrid_lookup b r Hgrid Hr) as (line & Hline & Hlen).
  unfold writeCell. rewrite js_nth_of_nat, Hline, Nat2Z.id.
  unfold js_set. rewrite decide_True by lia.
  eexists. split; [reflexivity|]. split; [|split].
  - destruct Hgrid as [Hrows Hcols]. split.
    + rewrite length_insert. exact Hrows.
    + apply Forall_insert; [exact Hcols|]. rewrite length_insert. exact Hlen.
  - unfold column. rewrite list_fmap_insert.
    rewrite list_lookup_insert_eq by lia. reflexivity.
  - intros c' Hne. unfold column. rewrite list_fmap_insert.
    rewrite list_lookup_insert_ne by congruence.
    apply list_insert_id. rewrite list_lookup_fmap, Hline. reflexivity.
Qed.

Lemma filter_nonNull_cons_null l : List.filter nonNull (Null :: l) = List.filter nonNull l.
Proof. reflexivity. Qed.

Lemma insert_replicate_last {A} (k : nat) (x y : A) (l : list A) :
  <[k := y]> (replicate (S k) x ++ l) = replicate k x ++ y :: l.
Proof.
  induction k as [|k IH]; [reflexivity|].
  cbn [replicate app]. change (<[S k := y]> (x :: ?t)) with (x :: <[k := y]> t).
  f_equal. exact IH.
Qed.

Lemma take_eq_shrink {A} (a b : list A) (n k : nat) :
  k <= n -> take n a = take n b -> take k a = take k b.
Proof.
  intros Hk H. rewrite <- (Nat.min_l k n) by lia.
  rewrite <- !take_take. rewrite H. reflexivity.
Qed.

Lemma take_eq_lookup {A} (a b : list A) (n r : nat) :
  r < n -> take n a = take n b -> a !! r = b !! r.
Proof.
  intros Hr H. rewrite <- (lookup_take_lt a n r), <- (lookup_take_lt b n r) by lia.
  rewrite H. reflexivity.
Qed.

Lemma compacting_step_null orig col r m e :
  compacting orig col (S r) m e -> orig !! r = Some Null ->
  compacting orig col r (if (e =? -1)%Z then S r else m)
    (if (e =? -1)%Z then Z.of_nat r else e).
Proof.
  intros (Hnm & Hlen & Hrel & Htake & Hdrop) Hx.
  assert (col !! r = Some Null) as Hcol.
  { rewrite <- Hx. apply (take_eq_lookup col orig (S r) r); [lia|exact Htake]. }
  assert (take r col = take r orig) as Htake'
    by (apply (take_eq_shrink col orig (S r) r); [lia|exact Htake]).
  pose proof (drop_S col Null r Hcol) as Hdc.
  pose proof (drop_S orig Null r Hx) as Hdo.
  unfold compacting. rewrite Hdc, Hdo, filter_nonNull_cons_null, Hdrop.
  destruct Hrel as [[-> ->]|[-> Hlt]].
  - rewrite !Z.eqb_refl. split; [lia|]. split; [exact Hlen|]. split; [right; lia|].
    split; [exact Htake'|].
    replace (S r - r) with 1 by lia. rewrite Nat.sub_diag. reflexivity.
  - destruct (Z.eqb_spec (Z.of_nat m - 1) (-1)) as [Heq|_]; [lia|].
    split; [lia|]. split; [exact Hlen|]. split; [right; lia|].
    split; [exact Htake'|].
    replace (m - r) with (S (m - S r)) by lia. reflexivity.
Qed.

Lemma compacting_step_keep orig col r m x :
  compacting orig col (S r) m (-1) -> orig !! r = Some x -> nonNull x = true ->
  compacting orig col r r (-1).
Proof.
  intros (Hnm & Hlen & Hrel & Htake & Hdrop) Hx Hnn.
  assert (m = S r) as -> by (destruct Hrel as [[_ ->]|[? ?]]; lia).
  assert (col !! r = Some x) as Hcol.
  { rewrite <- Hx. apply (take_eq_lookup col orig (S r) r); [lia|exact Htake]. }
  split; [lia|]. split; [exact Hlen|]. split; [left; auto|]. split.
  - apply (take_eq_shrink col orig (S r) r); [lia|exact Htake].
  - rewrite (drop_S col x r Hcol), (drop_S orig x r Hx), Hdrop.
    rewrite !Nat.sub_diag. cbn [replicate app List.filter]. rewrite Hnn. reflexivity.
Qed.

Lemma compacting_step_move orig col r m x :
  compacting orig col (S r) m (Z.of_nat m - 1) -> S r < m ->
  orig !! r = Some x -> nonNull x = true ->
  compacting orig (<[r := Null]> (<[m - 1 := x]> col)) r (m - 1) (Z.of_nat m - 1 - 1).
Proof.
  intros (Hnm & Hlen & Hrel & Htake & Hdrop) Hlt Hx Hnn.
  split; [lia|]. split; [rewrite !length_insert; exact Hlen|].
  split; [right; lia|]. split.
  - rewrite take_insert_ge by lia. rewrite take_insert_ge by lia.
    apply (take_eq_shrink col orig (S r) r); [lia|exact Htake].
  - rewrite (drop_S _ Null r).
    2:{ apply list_lookup_insert_eq. rewrite length_insert. lia. }
    rewrite drop_insert_lt by lia.
    rewrite drop_insert_ge by lia. rewrite Hdrop.
    rewrite (drop_S orig x r Hx). cbn [List.filter]. rewrite Hnn.
    replace (m - S r) with (S (m - 1 - S r)) by lia.
    rewrite insert_replicate_last.
    replace (m - 1 - r) with (S (m - 1 - S r)) by lia. reflexivity.
Qed.

Lemma compacting_lookup orig col n m e r :
  compacting orig col n m e -> r < n -> col !! r = orig !! r.
Proof.
  intros (_ & _ & _ & Htake & _) Hr.
  apply (take_eq_lookup col orig n r); [lia|exact Htake].
Qed.

Lemma compactColumn_spec c orig : c < GRID_SIZE -> length orig = GRID_SIZE ->
  forall n m e b,
    isGrid b -> compacting orig (column b c) n m e ->
    exists e' b',
      compactColumn c n e b = Ok (e', b')
      /\ isGrid b'
      /\ (forall c', c' <> c -> column b' c' = column b c')
      /\ (-1 <= e' < Z.of_nat GRID_SIZE)%Z
      /\ column b' c = replicate (Z.to_nat (e' + 1)) Null ++ List.filter nonNull orig.
Proof.
  intros Hc Horig. induction n as [|r IH]; intros m e b Hgrid Hinv.
  - exists e, b. split; [reflexivity|]. split; [exact Hgrid|]. split; [auto|].
    destruct Hinv as (Hnm & Hlen & Hrel & _ & Hdrop).
    rewrite !drop_0, Nat.sub_0_r in Hdrop.
    assert (Z.to_nat (e + 1) = m) as Hm by (destruct Hrel as [[-> ->]|[-> _]]; lia).
    split; [destruct Hrel as [[-> ->]|[-> _]]; lia|].
    rewrite Hm. exact Hdrop.
  - assert (r < GRID_SIZE) as Hr by (destruct Hinv as (? & _); lia).
    destruct (lookup_lt_is_Some_2 orig r) as [x Hx]; [lia|].
    assert (column b c !! r = Some x) as Hcol
      by (rewrite (compacting_lookup _ _ _ _ _ r Hinv); [exact Hx|lia]).
    cbn [compactColumn].
    rewrite (readCell_column b r c x); [|destruct Hgrid; lia|exact Hcol].
    cbn [obind].
    destruct (isNull x) eqn:Hnull.
    + assert (x = Null) as -> by (destruct x; cbn in Hnull; congruence).
      pose proof (compacting_step_null _ _ _ _ _ Hinv Hx) as Hnext.
      cbn [andb negb]. destruct (e =? -1)%Z; apply (IH _ _ _ Hgrid Hnext).
    + cbn [andb negb].
      assert (nonNull x = true) as Hnn by (unfold nonNull; rewrite Hnull; reflexivity).
      destruct (Z.eqb_spec e (-1)) as [->|Hne]; cbn [negb].
      * apply (IH r _ _ Hgrid). eapply compacting_step_keep; eassumption.
      * destruct Hinv as (Hnm & Hlen & Hrel & Htake & Hdrop).
        destruct Hrel as [[He _]|[He Hlt]]; [congruence|]. subst e.
        replace (Z.of_nat m - 1)%Z with (Z.of_nat (m - 1)) by lia.
        destruct (writeCell_grid b (m - 1) c x Hgrid) as (b1 & -> & Hg1 & Hc1 & Ho1);
          [lia|exact Hc|]. cbn [obind].
        destruct (writeCell_grid b1 r c Null Hg1) as (b2 & -> & Hg2 & Hc2 & Ho2);
          [lia|exact Hc|]. cbn [obind].
        destruct (IH (m - 1) (Z.of_nat (m - 1) - 1)%Z b2 Hg2)
          as (e' & b' & Hrun & Hg' & Ho' & He' & Hc').
        { rewrite Hc2, Hc1.
          replace (Z.of_nat (m - 1) - 1)%Z with (Z.of_nat m - 1 - 1)%Z by lia.
          apply compacting_step_move; [|lia|exact Hx|exact Hnn].
          split; [lia|]. split; [exact Hlen|]. split; [right; lia|]. split; assumption. }
        exists e', b'. split; [exact Hrun|]. split; [exact Hg'|]. split; [|split; assumption].
        intros c' Hne'. rewrite (Ho' c' Hne'), (Ho2 c' Hne'), (Ho1 c' Hne'). reflexivity.
Qed.


Lemma bind_Ok {A B} (e : Eff A) (k : A -> Eff B) w a w' :
  e w = Ok (a, w') -> bind e k w = k a w'.
Proof. unfold bind. intros ->. reflexivity. Qed.

Lemma lift_Ok {A} (o : Outcome A) a w : o = Ok a -> lift o w = Ok (a, w).
Proof. intros ->. reflexivity. Qed.

(** The tile drawn for one slot: its identifier is the next one issued. *)
Lemma drawTile_spec (probability : Q) (d : Difficulty) (w : World) :
  exists t w',
    bind Math_random
      (fun u => if Qlt_le_dec u probability then createTimeTile else createNumberTile d) w
    = Ok (t, w')
    /\ tile_id t = uuidSource w (issued w)
    /\ issued w' = S (issued w)
    /\ uuidSource w' = uuidSource w.
Proof.
  unfold bind at 1. unfold Math_random at 1.
  destruct (Qlt_le_dec _ _).
  - eexists _, _. split; [reflexivity|]. repeat split.
  - eexists _, _. split; [reflexivity|]. repeat split.
Qed.

Lemma fmap_Tile_snoc (fresh : list TileType) (t : TileType) (rest : list Cell) :
  (Tile <$> fresh) ++ Tile t :: rest = (Tile <$> (fresh ++ [t])) ++ rest.
Proof. rewrite fmap_app, <- app_assoc. reflexivity. Qed.

Lemma fillColumn_spec (probability : Q) (d : Difficulty) (c : nat) :
  c < GRID_SIZE ->
  forall n b ids w rest,
    isGrid b -> n <= GRID_SIZE ->
    column b c = replicate n Null ++ rest ->
    exists fresh b' w',
      fillColumn probability d c n b ids w
        = Ok ((b', list_to_set (tileIds fresh) ∪ ids), w')
      /\ isGrid b'
      /\ (forall c', c' <> c -> column b' c' = column b c')
      /\ column b' c = (Tile <$> fresh) ++ rest
      /\ length fresh = n
      /\ tileIds (reverse fresh) = uuidSource w <$> seq (issued w) n
      /\ issued w' = issued w + n
      /\ uuidSource w' = uuidSource w.
Proof.
  intros Hc. induction n as [|r IH]; intros b ids w rest Hgrid Hn Hcol.
  - exists [], b, w. cbn [fillColumn]. unfold ret.
    split; [f_equal; f_equal; f_equal; symmetry; apply union_empty_l_L|].
    split; [exact Hgrid|]. split; [auto|]. split; [exact Hcol|].
    split; [reflexivity|]. split; [reflexivity|]. split; [lia|reflexivity].
  - destruct (drawTile_spec probability d w) as (t & w1 & Hdraw & Hid & Hiss & Hsrc).
    destruct (writeCell_grid b r c (Tile t) Hgrid) as (b1 & Hwrite & Hg1 & Hc1 & Ho1);
      [lia|exact Hc|].
    destruct (IH b1 ({[tile_id t]} ∪ ids) w1 (Tile t :: rest) Hg1)
      as (fresh & b' & w' & Hrun & Hg' & Ho' & Hc' & Hlen & Hids & Hiss' & Hsrc');
      [lia| |].
    { rewrite Hc1, Hcol. apply insert_replicate_last. }
    exists (fresh ++ [t]), b', w'. split.
    { cbn [fillColumn].
      change (bind Math_random (fun u => bind ?f ?k) w)
        with (bind Math_random (fun u => bind (f u) k) w).
      unfold bind at 1. unfold bind at 1 in Hdraw.
      unfold Math_random at 1. unfold Math_random at 1 in Hdraw.
      cbv beta iota. cbv beta iota in Hdraw.
      rewrite (bind_Ok _ _ _ _ _ Hdraw).
      rewrite (bind_Ok _ _ _ _ _ (lift_Ok _ _ _ Hwrite)).
      rewrite Hrun. f_equal. f_equal. f_equal.
      unfold tileIds. rewrite map_app, list_to_set_app_L. cbn [map].
      generalize (list_to_set (map tile_id fresh) : gset string). intros A.
      set_solver. }
    split; [exact Hg'|]. split.
    { intros c' Hne. rewrite (Ho' c' Hne). apply Ho1. exact Hne. }
    split; [rewrite Hc'; apply fmap_Tile_snoc|].
    split; [rewrite length_app; cbn; lia|]. split.
    { rewrite reverse_snoc. cbn [tileIds map seq fmap list_fmap].
      f_equal; [exact Hid|].
      change (map tile_id (reverse fresh)) with (tileIds (reverse fresh)).
      rewrite Hids, Hsrc, Hiss. reflexivity. }
    split; [lia|congruence].
Qed.

Lemma compacting_start (col : list Cell) :
  compacting col col (length col) (length col) (-1).
Proof.
  split; [lia|]. split; [reflexivity|]. split; [left; auto|]. split; [reflexivity|].
  rewrite Nat.sub_diag, drop_all. reflexivity.
Qed.

Lemma freshIds_cons fresh c k :
  freshIds fresh c (S k) = tileIds (fresh c) ++ freshIds fresh (S c) k.
Proof. reflexivity. Qed.

Lemma freshIdsInOrder_cons fresh c k :
  freshIdsInOrder fresh c (S k)
  = tileIds (reverse (fresh c)) ++ freshIdsInOrder fresh (S c) k.
Proof. reflexivity. Qed.

Lemma freshIds_ext fresh fresh' c k :
  (forall c', c <= c' -> fresh c' = fresh' c') ->
  freshIds fresh c k = freshIds fresh' c k
  /\ freshIdsInOrder fresh c k = freshIdsInOrder fresh' c k.
Proof.
  revert c. induction k as [|k IH]; intros c Hext; [split; reflexivity|].
  rewrite !freshIds_cons, !freshIdsInOrder_cons.
  destruct (IH (S c)) as [-> ->]; [intros c' Hc'; apply Hext; lia|].
  rewrite (Hext c) by lia. split; reflexivity.
Qed.

Lemma seq_app_fmap {B} (f : nat -> B) (a n m : nat) :
  (f <$> seq a n) ++ (f <$> seq (a + n) m) = f <$> seq a (n + m).
Proof. rewrite <- fmap_app, <- seq_app. reflexivity. Qed.

Lemma gravityColumns_spec (probability : Q) (d : Difficulty) :
  forall k c b ids w,
    c + k = GRID_SIZE -> isGrid b ->
    exists fresh b' w',
      gravityColumns probability d k c b ids w
        = Ok ((b', list_to_set (freshIds fresh c k) ∪ ids), w')
      /\ isGrid b'
      /\ (forall c', c' < c -> column b' c' = column b c')
      /\ (forall c', c <= c' < GRID_SIZE ->
            column b' c' = (Tile <$> fresh c') ++ List.filter nonNull (column b c'))
      /\ freshIdsInOrder fresh c k
           = uuidSource w <$> seq (issued w) (issued w' - issued w)
      /\ issued w <= issued w'
      /\ uuidSource w' = uuidSource w.
Proof.
  induction k as [|k IH]; intros c b ids w Hck Hgrid.
  - exists (fun _ => []), b, w. cbn [gravityColumns]. unfold ret.
    split; [f_equal; f_equal; f_equal; symmetry; apply union_empty_l_L|].
    split; [exact Hgrid|]. split; [auto|]. split; [intros c' Hc'; lia|].
    split; [rewrite Nat.sub_diag; reflexivity|]. split; [lia|reflexivity].
  - assert (c < GRID_SIZE) as Hc by lia.
    assert (length (column b c) = GRID_SIZE) as Hlen
      by (rewrite column_length; apply Hgrid).
    destruct (compactColumn_spec c (column b c) Hc Hlen GRID_SIZE GRID_SIZE (-1) b Hgrid)
      as (e & b1 & Hcompact & Hg1 & Ho1 & He & Hc1).
    { pose proof (compacting_start (column b c)) as Hstart.
      rewrite Hlen in Hstart. exact Hstart. }
    destruct (fillColumn_spec probability d c Hc (Z.to_nat (e + 1)) b1 ids w
                (List.filter nonNull (column b c)) Hg1)
      as (fc & b2 & w1 & Hfill & Hg2 & Ho2 & Hc2 & Hfl & Hfi & Hiss1 & Hsrc1);
      [lia|exact Hc1|].
    destruct (IH (S c) b2 (list_to_set (tileIds fc) ∪ ids) w1) as
      (fresh' & b' & w' & Hrun & Hg' & Hlow & Hhigh & Hord & Hiss & Hsrc);
      [lia|exact Hg2|].
    set (fresh := fun c' => if decide (c' = c) then fc else fresh' c').
    assert (fresh c = fc) as Hfc by (unfold fresh; rewrite decide_True; reflexivity).
    destruct (freshIds_ext fresh fresh' (S c) k) as [Hext Hexto].
    { intros c' Hc'. unfold fresh. rewrite decide_False by lia. reflexivity. }
    exists fresh, b', w'. split.
    { cbn [gravityColumns].
      rewrite (bind_Ok _ _ _ _ _ (lift_Ok _ _ _ Hcompact)).
      rewrite (bind_Ok _ _ _ _ _ Hfill). rewrite Hrun.
      f_equal. f_equal. f_equal.
      rewrite freshIds_cons, Hext, Hfc, list_to_set_app_L.
      generalize (list_to_set (freshIds fresh' (S c) k) : gset string).
      generalize (list_to_set (tileIds fc) : gset string).
      intros A B. rewrite (assoc_L (∪)), (comm_L (∪) B A). reflexivity. }
    split; [exact Hg'|]. split.
    { intros c' Hc'. rewrite (Hlow c') by lia.
      rewrite (Ho2 c') by lia. apply Ho1. lia. }
    split.
    { intros c' Hc'. destruct (decide (c' = c)) as [->|Hne].
      - rewrite (Hlow c) by lia. rewrite Hc2, Hfc. reflexivity.
      - rewrite (Hhigh c') by lia. unfold fresh. rewrite decide_False by exact Hne.
        rewrite (Ho2 c') by exact Hne. rewrite (Ho1 c') by exact Hne. reflexivity. }
    split.
    { rewrite freshIdsInOrder_cons, Hexto, Hfc, Hfi, Hord, Hsrc1, Hiss1.
      rewrite seq_app_fmap. f_equal. f_equal. lia. }
    split; [lia|congruence].
Qed.

Lemma applyGravity_spec (b : Board) (m : GameMode) (d : Difficulty) (w : World) :
  isGrid b ->
  exists fresh r w',
    applyGravity b m d w = Ok (r, w')
    /\ isGrid (nextBoard r)
    /\ (forall c, c < GRID_SIZE ->
          column (nextBoard r) c
          = (Tile <$> fresh c) ++ List.filter nonNull (column b c))
    /\ droppedIds r = list_to_set (freshIds fresh 0 GRID_SIZE)
    /\ freshIdsInOrder fresh 0 GRID_SIZE
         = uuidSource w <$> seq (issued w) (issued w' - issued w).
Proof.
  intros Hgrid.
  destruct (gravityColumns_spec (timeTileProbability (DIFFICULTY_SETTINGS d) m) d
              GRID_SIZE 0 b ∅ w eq_refl Hgrid)
    as (fresh & b' & w' & Hrun & Hg' & _ & Hcols & Hord & _ & _).
  exists fresh, (mkGravityResult b' (list_to_set (freshIds fresh 0 GRID_SIZE) ∪ ∅)), w'.
  split.
  { unfold applyGravity. rewrite map_id.
    rewrite (bind_Ok _ _ _ _ _ Hrun). reflexivity. }
  split; [exact Hg'|]. split.
  { intros c Hc. apply Hcols. lia. }
  split; [cbn [droppedIds]; apply union_empty_r_L|exact Hord].
Qed.

Lemma omap_cellId_nonNull (l : list Cell) :
  omap cellId (List.filter nonNull l) = omap cellId l.
Proof.
  induction l as [|x l IH]; [reflexivity|].
  destruct x as [| |t]; cbn; rewrite ?IH; reflexivity.
Qed.

Lemma grid_cell_in_column (b : Board) (r c : nat) (line : list Cell) (x : Cell) :
  b !! r = Some line -> line !! c = Some x -> column b c !! r = Some x.
Proof.
  intros Hline Hx. rewrite (column_lookup b c r line Hline), Hx. reflexivity.
Qed.

End Gravity.

(** ** The target *)

Section TargetFacts.

Lemma unitInterval_floor (n : N) (k : Z) :
  (0 < k)%Z -> (0 <= Qfloor (unitInterval n * inject_Z k) < k)%Z.
Proof.
  intros Hk. unfold unitInterval, Qmult, Qfloor, inject_Z.
  cbn [Qnum Qden]. rewrite Pos.mul_1_r.
  set (a := Z.of_N (n mod 2 ^ 53)).
  assert (0 <= a < Z.pos (2 ^ 53))%Z as Ha.
  { unfold a. pose proof (N.mod_upper_bound n (2 ^ 53)) as Hlt.
    assert ((2 ^ 53)%N <> 0%N) as Hne by discriminate.
    specialize (Hlt Hne).
    apply N2Z.inj_lt in Hlt. split; [apply N2Z.is_nonneg|exact Hlt]. }
  split.
  - apply Z.div_pos; [nia|lia].
  - apply Z.div_lt_upper_bound; [lia|nia].
Qed.

Lemma randomBelow_run (k : Z) (w : World) :
  randomBelow k w
  = Ok (Qfloor (unitInterval (entropy w (drawn w)) * inject_Z k),
        mkWorld (entropy w) (S (drawn w)) (uuidSource w) (issued w) (localStorage w)).
Proof. reflexivity. Qed.

Lemma readCell_cellAt (b : Board) (r c : Z) :
  (0 <= r < Z.of_nat (length b))%Z -> readCell b r c = Ok (cellAt b r c).
Proof.
  intros Hr. unfold readCell, cellAt.
  destruct (js_nth_lt_is_Some b r Hr) as [line ->]. reflexivity.
Qed.

Lemma isNumberAt_inBounds (b : Board) (p : Coords) :
  isGrid b -> isNumberAt b p -> inBounds (Z.of_nat GRID_SIZE) p = true.
Proof.
  intros [Hrows Hcols] Hnum.
  destruct (inBounds (Z.of_nat GRID_SIZE) p) eqn:Hin; [reflexivity|].
  unfold isNumberAt in Hnum.
  rewrite (cellAt_outside GRID_SIZE b p) in Hnum; [discriminate| |exact Hin].
  split; [lia|]. eapply Forall_impl; [exact Hcols|]. cbn. intros line ->. lia.
Qed.

Lemma inBounds_spec (side : Z) (p : Coords) :
  inBounds side p = true <-> (0 <= row p < side /\ 0 <= col p < side)%Z.
Proof. unfold inBounds. rewrite !andb_true_iff, !Z.leb_le, !Z.ltb_lt. lia. Qed.

(** *** The start search *)

Lemma attemptHits_shift (b : Board) (w : World) (k : nat) :
  attemptHits b
    (mkWorld (entropy w) (S (S (drawn w))) (uuidSource w) (issued w) (localStorage w)) k
  <-> attemptHits b w (S k).
Proof.
  unfold attemptHits, gridDraw. cbn [entropy drawn].
  replace (S (S (drawn w)) + 2 * k) with (drawn w + 2 * S k) by lia.
  replace (S (S (drawn w)) + (2 * k + 1)) with (drawn w + (2 * S k + 1)) by lia.
  reflexivity.
Qed.

Lemma pickStart_step (fuel : nat) (b : Board) (w : World) :
  isGrid b ->
  pickStart (S fuel) b w
  = if isNumberCell (cellAt b (gridDraw w 0) (gridDraw w 1))
    then Ok (mkCoords (gridDraw w 0) (gridDraw w 1),
             mkWorld (entropy w) (S (S (drawn w))) (uuidSource w) (issued w)
               (localStorage w))
    else pickStart fuel b
           (mkWorld (entropy w) (S (S (drawn w))) (uuidSource w) (issued w)
              (localStorage w)).
Proof.
  intros Hgrid. cbn [pickStart].
  rewrite (bind_Ok _ _ _ _ _ (randomBelow_run _ w)).
  rewrite (bind_Ok _ _ _ _ _ (randomBelow_run _ _)).
  cbn [entropy drawn uuidSource issued localStorage].
  unfold gridDraw. rewrite Nat.add_0_r, Nat.add_1_r.
  set (r := Qfloor _). set (c := Qfloor _).
  assert (0 <= r < Z.of_nat GRID_SIZE)%Z as Hr
    by (apply unitInterval_floor; unfold GRID_SIZE; lia).
  assert (0 <= r < Z.of_nat (length b))%Z as Hrow
    by (destruct Hgrid as [-> _]; exact Hr).
  rewrite (bind_Ok _ _ _ _ _ (lift_Ok _ _ _ (readCell_cellAt b r c Hrow))).
  destruct (isNumberCell (cellAt b r c)); reflexivity.
Qed.

Lemma drawnCell_shift (w : World) (k : nat) :
  drawnCell
    (mkWorld (entropy w) (S (S (drawn w))) (uuidSource w) (issued w) (localStorage w)) k
  = drawnCell w (S k).
Proof.
  unfold drawnCell, gridDraw. cbn [entropy drawn].
  replace (S (S (drawn w)) + 2 * k) with (drawn w + 2 * S k) by lia.
  replace (S (S (drawn w)) + (2 * k + 1)) with (drawn w + (2 * S k + 1)) by lia.
  reflexivity.
Qed.

Lemma startTile_unique (b : Board) (w : World) (p q : Coords) :
  startTile b w p -> startTile b w q -> p = q.
Proof.
  intros (k & Hk & Hfirst & ->) (j & Hj & Hfirst' & ->).
  destruct (Nat.lt_trichotomy k j) as [Hlt|[->|Hlt]].
  - destruct (Hfirst' k Hlt Hk).
  - reflexivity.
  - destruct (Hfirst j Hlt Hj).
Qed.

Lemma pickStart_spec (b : Board) :
  isGrid b ->
  forall fuel w,
    (exists k, k < fuel /\ attemptHits b w k) ->
    exists start w1,
      pickStart fuel b w = Ok (start, w1)
      /\ startTile b w start
      /\ isNumberAt b start
      /\ inBounds (Z.of_nat GRID_SIZE) start = true.
Proof.
  intros Hgrid. induction fuel as [|fuel IH]; intros w (k & Hk & Hhit); [lia|].
  rewrite (pickStart_step fuel b w Hgrid).
  destruct (isNumberCell (cellAt b (gridDraw w 0) (gridDraw w 1))) eqn:Hnum.
  - eexists _, _. split; [reflexivity|]. split.
    { exists 0. split; [exact Hnum|]. split; [intros j Hj; lia|reflexivity]. }
    split; [exact Hnum|].
    apply (isNumberAt_inBounds b _ Hgrid). exact Hnum.
  - destruct k as [|k].
    + unfold attemptHits in Hhit. cbn [Nat.mul Nat.add] in Hhit. congruence.
    + destruct (IH (mkWorld (entropy w) (S (S (drawn w))) (uuidSource w) (issued w)
                      (localStorage w)))
        as (start & w1 & Hrun & (k' & Hk' & Hfirst & Hstart) & Hnumber & Hin).
      { exists k. split; [lia|]. apply attemptHits_shift. exact Hhit. }
      exists start, w1. split; [exact Hrun|]. split; [|split; assumption].
      exists (S k'). split; [apply attemptHits_shift; exact Hk'|]. split.
      * intros [|j] Hj.
        -- unfold attemptHits. cbn [Nat.mul Nat.add]. congruence.
        -- intros Habs. apply attemptHits_shift in Habs.
           apply (Hfirst j); [lia|exact Habs].
      * rewrite Hstart. apply drawnCell_shift.
Qed.


(** *** The walk *)

Lemma filterO_pure {A} (p : A -> Outcome bool) (f : A -> bool) (l : list A) :
  (forall x, p x = Ok (f x)) -> filterO p l = Ok (List.filter f l).
Proof.
  intros Hp. induction l as [|x l IH]; [reflexivity|].
  cbn [filterO List.filter]. rewrite Hp, IH. cbn [obind].
  destruct (f x); reflexivity.
Qed.

Lemma mapO_pure {A B} (f : A -> Outcome B) (g : A -> B) (l : list A) :
  Forall (fun x => f x = Ok (g x)) l -> mapO f l = Ok (map g l).
Proof.
  induction 1 as [|x l Hx _ IH]; [reflexivity|].
  cbn [mapO map]. rewrite Hx, IH. reflexivity.
Qed.

Lemma isCandidate_grid (b : Board) (visited : gset (Z * Z)) (q : Coords) :
  isGrid b -> isCandidate b visited q = Ok (candidate b visited q).
Proof.
  intros [Hrows _]. unfold isCandidate, candidate.
  change ((0 <=? row q)%Z && (row q <? Z.of_nat GRID_SIZE)%Z
          && (0 <=? col q)%Z && (col q <? Z.of_nat GRID_SIZE)%Z)
    with (inBounds (Z.of_nat GRID_SIZE) q).
  destruct (inBounds (Z.of_nat GRID_SIZE) q) eqn:Hin; [|reflexivity].
  destruct (negb _); [|reflexivity]. cbn [andb].
  apply inBounds_spec in Hin.
  rewrite readCell_cellAt by (rewrite Hrows; lia). reflexivity.
Qed.

Lemma fourNeighbours_adjacent (p q : Coords) :
  q ∈ fourNeighbours p -> adjacent4 p q /\ q <> p.
Proof.
  unfold fourNeighbours. intros Hq. apply list_elem_of_In in Hq. cbn [In] in Hq.
  destruct Hq as [<-|[<-|[<-|[<-|[]]]]]; unfold adjacent4; cbn [row col];
    (split; [lia|]); intros Heq;
    pose proof (f_equal row Heq) as Hr; pose proof (f_equal col Heq) as Hc;
    cbn [row col] in Hr, Hc; lia.
Qed.

Lemma chained_snoc (path : list Coords) (l next : Coords) :
  chained path -> last path = Some l -> adjacent4 l next -> chained (path ++ [next]).
Proof.
  intros Hch Hlast Hadj i a b Ha Hb.
  rewrite last_lookup in Hlast.
  destruct (decide (S i < length path)) as [Hlt|Hge].
  - rewrite lookup_app_l in Ha by lia. rewrite lookup_app_l in Hb by lia.
    exact (Hch i a b Ha Hb).
  - assert (i < length path) as Hi.
    { apply lookup_lt_Some in Hb. rewrite length_app in Hb. cbn in Hb.
      apply lookup_lt_Some in Ha. rewrite length_app in Ha. cbn in Ha. lia. }
    assert (S i = length path) as Hlen.
    { apply lookup_lt_Some in Hb. rewrite length_app in Hb. cbn in Hb. lia. }
    rewrite lookup_app_l in Ha by lia.
    rewrite lookup_app_r in Hb by lia. rewrite Hlen, Nat.sub_diag in Hb.
    cbn in Hb. injection Hb as <-.
    replace (pred (length path)) with i in Hlast by lia.
    rewrite Ha in Hlast. injection Hlast as ->. exact Hadj.
Qed.

Lemma pathInv_single (b : Board) (start : Coords) :
  isNumberAt b start -> pathInv b [start] {[ (row start, col start) ]}.
Proof.
  intros Hnum. split; [repeat constructor; set_solver|]. split.
  { intros [|i] x y Hx Hy; cbn in *; discriminate. }
  split; [repeat constructor; exact Hnum|].
  intros q. rewrite elem_of_singleton, list_elem_of_singleton.
  destruct q, start; cbn. split; [intros [= -> ->]|intros [= -> ->]]; reflexivity.
Qed.

Lemma pathInv_snoc (b : Board) (path : list Coords) (visited : gset (Z * Z))
    (l next : Coords) :
  isGrid b -> pathInv b path visited -> last path = Some l ->
  next ∈ fourNeighbours l -> candidate b visited next = true ->
  pathInv b (path ++ [next]) ({[ (row next, col next) ]} ∪ visited).
Proof.
  intros Hgrid (Hnd & Hch & Hnum & Hvis) Hlast Hnext Hcand.
  unfold candidate in Hcand. rewrite !andb_true_iff in Hcand.
  destruct Hcand as [[_ Hfresh] Hnumber].
  apply negb_true_iff, bool_decide_eq_false in Hfresh.
  split.
  { apply NoDup_app. split; [exact Hnd|]. split; [|repeat constructor; set_solver].
    intros x Hx Hx'. apply list_elem_of_singleton in Hx' as ->.
    apply Hfresh, Hvis, Hx. }
  split.
  { eapply chained_snoc; [exact Hch|exact Hlast|].
    apply fourNeighbours_adjacent, Hnext. }
  split.
  { apply Forall_app. split; [exact Hnum|]. repeat constructor. exact Hnumber. }
  intros q. rewrite elem_of_union, elem_of_singleton, elem_of_app, list_elem_of_singleton.
  rewrite Hvis. split.
  - intros [H|H]; [right|left; exact H].
    destruct q, next; cbn in H. injection H as -> ->. reflexivity.
  - intros [H|H]; [right; exact H|left]. rewrite H. reflexivity.
Qed.

Lemma js_nth_In {A} (l : list A) (i : Z) (x : A) : js_nth l i = Some x -> x ∈ l.
Proof.
  intros H. apply js_nth_Some_lt in H as [_ H].
  eapply list_elem_of_lookup_2. exact H.
Qed.

Lemma extendPath_spec (b : Board) :
  isGrid b ->
  forall n path visited w l,
    pathInv b path visited -> last path = Some l ->
    exists ext visited' w',
      extendPath b n path visited w = Ok (path ++ ext, w')
      /\ pathInv b (path ++ ext) visited'
      /\ length ext <= n
      /\ (List.filter (candidate b visited) (fourNeighbours l) = [] -> ext = [])
      /\ (0 < n -> List.filter (candidate b visited) (fourNeighbours l) <> [] ->
           0 < length ext).
Proof.
  intros Hgrid. induction n as [|n IH]; intros path visited w l Hinv Hlast.
  - exists [], visited, w. rewrite app_nil_r. cbn [extendPath]. unfold ret.
    split; [reflexivity|]. split; [exact Hinv|]. split; [cbn; lia|].
    split; [reflexivity|lia].
  - cbn [extendPath]. rewrite Hlast.
    rewrite (bind_Ok _ _ _ _ _
               (lift_Ok _ _ _ (filterO_pure _ _ _ (fun q => isCandidate_grid b visited q Hgrid)))).
    destruct (List.filter (candidate b visited) (fourNeighbours l)) as [|q0 qs] eqn:Hfilter.
    + exists [], visited, w. rewrite app_nil_r. cbn [length Nat.ltb Nat.leb]. unfold ret.
      split; [reflexivity|]. split; [exact Hinv|]. split; [cbn; lia|].
      split; [reflexivity|congruence].
    + cbn [length Nat.ltb Nat.leb].
      rewrite (bind_Ok _ _ _ _ _ (randomBelow_run _ w)).
      set (w1 := mkWorld _ _ _ _ _). set (i := Qfloor _).
      assert (0 <= i < Z.of_nat (length (q0 :: qs)))%Z as Hi
        by (apply unitInterval_floor; cbn [length]; lia).
      destruct (js_nth_lt_is_Some (q0 :: qs) i Hi) as [next Hnext].
      cbn [length] in Hnext |- *. rewrite Hnext.
      assert (next ∈ fourNeighbours l /\ candidate b visited next = true) as [Hin Hcand].
      { apply js_nth_In in Hnext. rewrite <- Hfilter in Hnext.
        apply list_elem_of_In, filter_In in Hnext as [Hnext Hc].
        split; [apply list_elem_of_In; exact Hnext|exact Hc]. }
      destruct (IH (path ++ [next]) ({[ (row next, col next) ]} ∪ visited) w1 next)
        as (ext & visited' & w' & Hrun & Hinv' & Hlen & _ & _).
      { eapply pathInv_snoc; eassumption. }
      { apply last_snoc. }
      exists (next :: ext), visited', w'.
      replace (path ++ next :: ext) with ((path ++ [next]) ++ ext)
        by (rewrite <- app_assoc; reflexivity).
      split; [exact Hrun|]. split; [exact Hinv'|]. split; [cbn; lia|].
      split; [congruence|]. intros _ _. cbn. lia.
Qed.

Lemma candidate_first_step (b : Board) (start : Coords) :
  isGrid b ->
  List.filter (candidate b {[ (row start, col start) ]}) (fourNeighbours start) <> []
  <-> hasNumberNeighbour b start.
Proof.
  intros Hgrid. split.
  - intros Hne.
    destruct (List.filter _ _) as [|q qs] eqn:Hfilter; [congruence|].
    assert (In q (q :: qs)) as Hq by (left; reflexivity).
    rewrite <- Hfilter in Hq. apply filter_In in Hq as [Hq Hc].
    exists q. split; [apply list_elem_of_In; exact Hq|].
    unfold candidate in Hc. rewrite !andb_true_iff in Hc. apply Hc.
  - intros (q & Hq & Hnum) Hnil.
    assert (In q (List.filter (candidate b {[ (row start, col start) ]})
                    (fourNeighbours start))) as Hin.
    { apply filter_In. split; [apply list_elem_of_In; exact Hq|].
      unfold candidate. rewrite !andb_true_iff. split; [split|exact Hnum].
      - apply (isNumberAt_inBounds b q Hgrid Hnum).
      - apply negb_true_iff, bool_decide_eq_false. rewrite elem_of_singleton.
        destruct (fourNeighbours_adjacent start q Hq) as [_ Hne].
        intros Heq. apply Hne. destruct q, start; cbn in Heq.
        injection Heq as -> ->. reflexivity. }
    rewrite Hnil in Hin. inversion Hin.
Qed.

(** *** The value *)

Lemma numberValue_filter (l : list Cell) :
  omap (fun x => match x with Tile (NumberTile _ v) => Some v | _ => None end)
    (List.filter isNumberCell l)
  = omap (fun x => match x with Tile (NumberTile _ v) => Some v | _ => None end) l.
Proof.
  induction l as [|x l IH]; [reflexivity|].
  destruct x as [| |[i v|i]]; cbn; rewrite ?IH; reflexivity.
Qed.

Lemma numberValues_length (b : Board) :
  length (List.filter isNumberCell (concat b)) = length (numberValues b).
Proof.
  unfold numberValues. induction (concat b) as [|x l IH]; [reflexivity|].
  destruct x as [| |[i v|i]]; cbn; rewrite ?IH; reflexivity.
Qed.

Lemma reduceTiles_path (b : Board) (m : GameMode) (path : list Coords) :
  Forall (isNumberAt b) path ->
  reduceTiles m
    (List.filter isTruthy (map (fun p => cellAt b (row p) (col p)) path))
  = foldValues m (omap (numberValueAt b) path).
Proof.
  intros Hnum. unfold foldValues.
  rewrite <- (fold_number_cells m b path (modeIdentity m)).
  assert (List.filter isTruthy (map (fun p => cellAt b (row p) (col p)) path)
          = List.filter isNumberCell (map (fun p => cellAt b (row p) (col p)) path)) as ->.
  { induction Hnum as [|p path Hp _ IH]; [reflexivity|].
    cbn [map List.filter]. unfold isNumberAt in Hp. rewrite Hp.
    destruct (cellAt b (row p) (col p)) as [| |t]; try discriminate.
    cbn [isTruthy]. rewrite IH. reflexivity. }
  destruct m; reflexivity.
Qed.

Lemma targetTiles_length (b : Board) (path : list Coords) :
  Forall (isNumberAt b) path ->
  length (List.filter isTruthy (map (fun p => cellAt b (row p) (col p)) path))
  = length path.
Proof.
  induction 1 as [|p path Hp _ IH]; [reflexivity|].
  cbn [map List.filter]. unfold isNumberAt in Hp.
  destruct (cellAt b (row p) (col p)) as [| |t]; try discriminate.
  cbn [isTruthy length]. rewrite IH. reflexivity.
Qed.

Lemma reduceTiles_pair (m : GameMode) (t1 t2 : Cell) (v1 v2 : Z) :
  (exists i, t1 = Tile (NumberTile i v1)) -> (exists i, t2 = Tile (NumberTile i v2)) ->
  reduceTiles m [t1; t2] = foldValues m [v1; v2].
Proof. intros [i1 ->] [i2 ->]. destruct m; reflexivity. Qed.

Lemma isNumberCell_inv (x : Cell) :
  isNumberCell x = true -> exists i v, x = Tile (NumberTile i v).
Proof. destruct x as [| |[i v|i]]; try discriminate. eauto. Qed.

Section WithSort.

Variable sort : list Cell -> Eff (list Cell).
Hypothesis sort_rearranges : rearranges sort.

Lemma fallback_spec (b : Board) (m : GameMode) (w : World) :
  2 <= length (numberValues b) ->
  exists v w',
    bind (sort (List.filter isNumberCell (concat b)))
      (fun sorted =>
         let randomTiles := take 2 sorted in
         if (length randomTiles <? 2)%nat then ret 10%Z
         else ret (reduceTiles m randomTiles)) w
    = Ok (v, w')
    /\ pairTarget b m v.
Proof using sort_rearranges.
  intros Hcount.
  destruct (sort_rearranges (List.filter isNumberCell (concat b)) w)
    as (sorted & w' & Hsort & Hperm).
  rewrite (bind_Ok _ _ _ _ _ Hsort).
  pose proof (Permutation_length Hperm) as Hlen.
  rewrite numberValues_length in Hlen.
  destruct sorted as [|t1 [|t2 others]]; cbn [length] in Hlen; try lia.
  cbn [take firstn length Nat.ltb Nat.leb]. unfold ret.
  assert (isNumberCell t1 = true /\ isNumberCell t2 = true) as [H1 H2].
  { split.
    - assert (In t1 (List.filter isNumberCell (concat b))) as Hin
        by (eapply Permutation_in; [exact Hperm|left; reflexivity]).
      apply filter_In in Hin. apply Hin.
    - assert (In t2 (List.filter isNumberCell (concat b))) as Hin
        by (eapply Permutation_in; [exact Hperm|right; left; reflexivity]).
      apply filter_In in Hin. apply Hin. }
  apply isNumberCell_inv in H1 as (i1 & v1 & ->).
  apply isNumberCell_inv in H2 as (i2 & v2 & ->).
  eexists _, _. split; [reflexivity|].
  exists v1, v2,
    (omap (fun x => match x with Tile (NumberTile _ v) => Some v | _ => None end) others).
  split.
  - unfold numberValues. rewrite <- (numberValue_filter (concat b)), <- Hperm.
    reflexivity.
  - apply reduceTiles_pair; eauto.
Qed.

Lemma findPathForTarget_spec (b : Board) (m : GameMode) (fuel : nat) (w : World) :
  isGrid b -> 2 <= length (numberValues b) ->
  (exists k, k < fuel /\ attemptHits b w k) ->
  exists v w' start,
    findPathForTarget sort fuel b m w = Ok (v, w')
    /\ startTile b w start
    /\ isNumberAt b start
    /\ (hasNumberNeighbour b start ->
        exists path,
          validPath b path /\ head path = Some start
          /\ v = foldValues m (omap (numberValueAt b) path))
    /\ (~ hasNumberNeighbour b start -> pairTarget b m v).
Proof using sort_rearranges.
  intros Hgrid Hcount Hhit.
  destruct (pickStart_spec b Hgrid fuel w Hhit)
    as (start & w1 & Hstart & Hfirst & Hnum & Hin).
  unfold findPathForTarget.
  assert ((length (List.filter isNumberCell (concat b)) <? 2)%nat = false) as ->
    by (apply Nat.ltb_ge; rewrite numberValues_length; exact Hcount).
  rewrite (bind_Ok _ _ _ _ _ Hstart).
  rewrite (bind_Ok _ _ _ _ _ (randomBelow_run 2 w1)).
  set (w2 := mkWorld _ _ _ _ _). set (extra := Qfloor _).
  assert (0 <= extra < 2)%Z as Hextra by (apply unitInterval_floor; lia).
  destruct (extendPath_spec b Hgrid (Z.to_nat (extra + 2 - 1)) [start]
              {[ (row start, col start) ]} w2 start (pathInv_single b start Hnum) eq_refl)
    as (ext & visited' & w3 & Hwalk & Hinv & Hlen & Hnone & Hsome).
  rewrite (bind_Ok _ _ _ _ _ Hwalk).
  destruct Hinv as (Hnd & Hch & Hnums & _).
  assert (mapO (fun p => readCell b (row p) (col p)) ([start] ++ ext)
          = Ok (map (fun p => cellAt b (row p) (col p)) ([start] ++ ext))) as Hcells.
  { apply mapO_pure. eapply Forall_impl; [exact Hnums|]. intros p Hp. cbn beta.
    apply readCell_cellAt. apply (isNumberAt_inBounds b p Hgrid), inBounds_spec in Hp.
    destruct Hgrid as [-> _]. lia. }
  rewrite (bind_Ok _ _ _ _ _ (lift_Ok _ _ _ Hcells)).
  rewrite (targetTiles_length b _ Hnums).
  destruct ext as [|q ext].
  - cbn [app length Nat.ltb Nat.leb].
    destruct (fallback_spec b m w3 Hcount) as (v & w' & Hrun & Hpair).
    exists v, w', start. split; [exact Hrun|]. split; [exact Hfirst|].
    split; [exact Hnum|]. split.
    + intros Hnb. apply (candidate_first_step b start Hgrid) in Hnb.
      specialize (Hsome ltac:(lia) Hnb). cbn in Hsome. lia.
    + intros _. exact Hpair.
  - cbn [app length Nat.ltb Nat.leb]. unfold ret.
    eexists _, _, start. split; [reflexivity|]. split; [exact Hfirst|].
    split; [exact Hnum|]. split.
    + intros _. exists (start :: q :: ext). split; [|split; [reflexivity|]].
      * split; [|split; [exact Hnd|split; [exact Hch|exact Hnums]]].
        cbn [length] in Hlen |- *. lia.
      * apply (reduceTiles_path b m (start :: q :: ext) Hnums).
    + intros Hnone'. exfalso.
      assert (q :: ext = []) as Habs; [|discriminate].
      apply Hnone.
      destruct (List.filter _ _) eqn:Hfilter; [reflexivity|].
      exfalso. apply Hnone'. apply (candidate_first_step b start Hgrid).
      rewrite Hfilter. discriminate.
Qed.

End WithSort.

End TargetFacts.

(** ** Properties of the selection value *)



(** C10. On a board that lies within a square grid of side [side],
    coordinates outside the grid (negative, or at least [side], in row or
    column) are discarded like empty cells: [calculateSelectionValue], a total
    function, returns what it returns for the list without them. *)
Theorem C10_out_of_bounds_discarded
    (side : nat) (coords : list Coords) (b : Board) (m : GameMode) :
  boardWithin side b ->
  calculateSelectionValue coords b m
  = calculateSelectionValue (List.filter (inBounds (Z.of_nat side)) coords) b m.
Proof.
  intros Hb. unfold calculateSelectionValue.
  rewrite <- (filter_number_inBounds side b coords Hb). reflexivity.
Qed.

Lemma C10_out_of_bounds_witness :
  calculateSelectionValue
    [mkCoords 0 0; mkCoords (-1) 2; mkCoords 0 1; mkCoords 5 0; mkCoords 3 7]
    exampleBoard Sum
  = calculateSelectionValue [mkCoords 0 0; mkCoords 0 1] exampleBoard Sum.
Proof.
  apply (C10_out_of_bounds_discarded 5
           [mkCoords 0 0; mkCoords (-1) 2; mkCoords 0 1; mkCoords 5 0; mkCoords 3 7]
           exampleBoard Sum).
  split; [cbn; lia|]. repeat constructor.
Defined.

(** ** Properties of the reducer *)

Section ReducerClaims.

(** The values the module reads when it is loaded, see [initialState]. *)
Variable b0 : Z.
Variable k0 : string.
Variable v0 : bool.

Local Abbreviation reduce := (gameReducer b0 k0 v0).
Local Abbreviation run := (dispatchAll b0 k0 v0).
Local Abbreviation trace := (dispatchTrace b0 k0 v0).


(** C7. In a state whose status is Playing, [Tick] yields
    [timeLeft' = max 0 (timeLeft - 1)]; hence after any positive number of
    ticks [timeLeft] is [max 0 (timeLeft - n)], never negative, and once it
    is 0 further ticks leave it at 0. *)
Theorem C7_tick_clock (s : GameState) (w : World) :
  status s = Playing ->
  (exists s', reduce s TICK w = Ok (s', w)
     /\ timeLeft s' = Z.max 0 (timeLeft s - 1) /\ (0 <= timeLeft s')%Z)
  /\ (forall n, exists s', run s (replicate (S n) TICK) w = Ok (s', w)
        /\ status s' = Playing
        /\ timeLeft s' = Z.max 0 (timeLeft s - Z.of_nat (S n))
        /\ (0 <= timeLeft s')%Z)
  /\ (timeLeft s = 0%Z ->
      forall n, exists s', run s (replicate n TICK) w = Ok (s', w) /\ timeLeft s' = 0%Z).
Proof.
  intros Hplaying. split; [|split].
  - eexists. split; [apply tick_step|]. cbn [timeLeft set_timeLeft]. lia.
  - intros n. destruct (ticks_run b0 k0 v0 (S n) s w) as (s' & Hrun & Hst & Ht).
    exists s'. split; [exact Hrun|]. split; [congruence|]. split; [exact Ht|lia].
  - intros Hzero n. destruct (ticks_run b0 k0 v0 n s w) as (s' & Hrun & _ & Ht).
    exists s'. split; [exact Hrun|]. destruct n; lia.
Qed.

(** C8. Dispatching [ResetAnimations] a second time changes nothing: the
    state after two dispatches is the state after one. *)
Theorem C8_reset_animations_idempotent (s : GameState) (w : World) :
  exists s1, reduce s RESET_ANIMATIONS w = Ok (s1, w)
    /\ reduce s1 RESET_ANIMATIONS w = Ok (s1, w)
    /\ run s [RESET_ANIMATIONS; RESET_ANIMATIONS] w = run s [RESET_ANIMATIONS] w.
Proof.
  eexists. split; [reflexivity|]. split; reflexivity.
Qed.

(** C6. Along any sequence of [MatchSuccess] actions whose points are not
    negative, as the points of a match are (the controller dispatches
    [Math.ceil] of a positive quantity), the score never decreases; and after
    each action the [bestScore] is the maximum of the [bestScore] before the
    sequence and of every score produced so far. *)
Theorem C6_score_and_best_score
    (s : GameState) (payloads : list (Z * list Coords)) (w : World) :
  exists states w', trace s (matchSuccesses payloads) w = Ok (states, w')
    /\ length states = length payloads
    /\ (forall k sk, states !! k = Some sk ->
          bestScore sk = maxOver (bestScore s) (map score (take (S k) states)))
    /\ (Forall (fun p => (0 <= p.1)%Z) payloads ->
          nonDecreasing (score s :: map score states)).
Proof. apply matchSuccess_trace. Qed.

Lemma isAdjacent_chebyshev a c :
  ((Z.abs (row a - row c) <=? 1) && (Z.abs (col a - col c) <=? 1))%Z = true
  <-> (chebyshev a c <= 1)%Z.
Proof.
  unfold chebyshev. rewrite andb_true_iff, !Z.leb_le. lia.
Qed.

Lemma pointerMove_single s c x y p :
  isSelecting s = true -> selectedCoords s = [p] ->
  pointerMove s (Some c) x y
  = Ok (if sameCoords p c then movePointer s x y
        else if ((Z.abs (row p - row c) <=? 1) && (Z.abs (col p - col c) <=? 1))%Z
             then set_selectedCoords [p; c]
                    (set_valueIndicator
                       (mkValueIndicator true
                          (calculateSelectionValue [p; c] (board s) (mode (config s))) x y) s)
             else movePointer s x y).
Proof.
  intros Hsel Hp. unfold pointerMove. rewrite Hsel, Hp.
  cbn [negb length Nat.eqb Nat.ltb Nat.leb obind existsb].
  destruct (sameCoords p c); cbn [orb]; [reflexivity|].
  change (js_nth [p] (Z.of_nat 1 - 1)) with (Some p). cbv beta iota.
  destruct (_ && _); reflexivity.
Qed.

Lemma pointerMove_longer s c x y l p q :
  isSelecting s = true -> selectedCoords s = l ++ [p; q] ->
  pointerMove s (Some c) x y
  = Ok (if sameCoords p c then
          set_selectedCoords (l ++ [p])
            (set_valueIndicator
               (mkValueIndicator true
                  (calculateSelectionValue (l ++ [p]) (board s) (mode (config s))) x y) s)
        else if existsb (fun e => sameCoords e c) (l ++ [p; q]) then movePointer s x y
        else if ((Z.abs (row q - row c) <=? 1) && (Z.abs (col q - col c) <=? 1))%Z
             then set_selectedCoords (l ++ [p; q; c])
                    (set_valueIndicator
                       (mkValueIndicator true
                          (calculateSelectionValue (l ++ [p; q; c]) (board s) (mode (config s)))
                          x y) s)
             else movePointer s x y).
Proof.
  intros Hsel Hl. unfold pointerMove. rewrite Hsel, Hl. cbn [negb].
  assert (length (l ++ [p; q]) = S (S (length l))) as Hlen
    by (rewrite length_app; cbn; lia).
  assert (js_nth (l ++ [p; q]) (Z.of_nat (length (l ++ [p; q])) - 1) = Some q) as Hlast.
  { replace (l ++ [p; q]) with ((l ++ [p]) ++ [q])
      by (rewrite <- app_assoc; reflexivity).
    apply js_nth_app_last. }
  rewrite js_nth_app_secondToLast, Hlast, Hlen.
  cbn [Nat.eqb Nat.ltb Nat.leb obind].
  destruct (sameCoords p c).
  - replace (S (S (length l)) - 1) with (length (l ++ [p]))
      by (rewrite length_app; cbn; lia).
    replace (l ++ [p; q]) with ((l ++ [p]) ++ [q])
      by (rewrite <- app_assoc; reflexivity).
    rewrite take_app_length. reflexivity.
  - destruct (existsb _ _); [reflexivity|].
    rewrite <- app_assoc. cbn [app]. destruct (_ && _); reflexivity.
Qed.

Lemma movePointer_fields (s : GameState) (x y : Q) :
  movePointer s x y
  = set_valueIndicator
      (mkValueIndicator (visible (valueIndicator s)) (value (valueIndicator s)) x y) s
  /\ selectedCoords (movePointer s x y) = selectedCoords s
  /\ pointerX (valueIndicator (movePointer s x y)) = x
  /\ pointerY (valueIndicator (movePointer s x y)) = y
  /\ visible (valueIndicator (movePointer s x y)) = visible (valueIndicator s)
  /\ value (valueIndicator (movePointer s x y)) = value (valueIndicator s)
  /\ isSelecting (movePointer s x y) = isSelecting s
  /\ status (movePointer s x y) = status s /\ board (movePointer s x y) = board s.
Proof. destruct s. cbn. repeat split; reflexivity. Qed.

Local Ltac sel_done :=
  cbn [selectedCoords movePointer set_valueIndicator set_selectedCoords];
  first [reflexivity | congruence].

(** C4. In a state with an active drag selection, a [PointerMove] onto a
    coordinate [c] pops the last entry when [c] is the second-to-last entry;
    otherwise leaves the selection as it is when [c] is already selected;
    otherwise appends [c] when it is within Chebyshev distance 1 of the last
    entry; otherwise changes nothing but the raw pointer position, which
    becomes the position the action carries.  So after selecting [[A; B]],
    moving onto [A] leaves [[A]]. *)
Theorem C4_drag_selection
    (s : GameState) (c : Coords) (x y : Q) (w : World) :
  isSelecting s = true -> selectedCoords s <> [] ->
  exists s', reduce s (POINTER_MOVE (Some c) x y) w = Ok (s', w)
    /\ (secondToLast (selectedCoords s) = Some c ->
          selectedCoords s' = removelast (selectedCoords s))
    /\ (secondToLast (selectedCoords s) <> Some c -> c ∈ selectedCoords s ->
          selectedCoords s' = selectedCoords s)
    /\ (secondToLast (selectedCoords s) <> Some c -> c ∉ selectedCoords s ->
          forall lastCoord, last (selectedCoords s) = Some lastCoord ->
            ((chebyshev lastCoord c <= 1)%Z ->
               selectedCoords s' = selectedCoords s ++ [c])
            /\ ((1 < chebyshev lastCoord c)%Z ->
                 s' = set_valueIndicator
                        (mkValueIndicator (visible (valueIndicator s))
                           (value (valueIndicator s)) x y) s
                 /\ selectedCoords s' = selectedCoords s
                 /\ pointerX (valueIndicator s') = x
                 /\ pointerY (valueIndicator s') = y
                 /\ visible (valueIndicator s') = visible (valueIndicator s)
                 /\ value (valueIndicator s') = value (valueIndicator s)
                 /\ isSelecting s' = isSelecting s
                 /\ status s' = status s /\ board s' = board s))
    /\ (forall a b, selectedCoords s = [a; b] -> c = a -> selectedCoords s' = [a]).
Proof.
  intros Hsel Hne. cbn [gameReducer]. unfold lift.
  destruct (selection_shape _ Hne) as [[p Hp]|(l & p & q & Hl)].
  - rewrite (pointerMove_single s c x y p Hsel Hp). cbn [obind]. eexists.
    split; [reflexivity|]. rewrite Hp. cbn [secondToLast rev app].
    split; [discriminate|]. split.
    { intros _ Hin. apply list_elem_of_singleton in Hin as ->.
      rewrite (proj2 (sameCoords_true p p) eq_refl). sel_done. }
    split; [|discriminate].
    intros _ Hnotin lastCoord [= <-].
    assert (sameCoords p c = false) as ->.
    { apply sameCoords_false. intros ->. apply Hnotin. constructor. }
    split.
    + intros Hd. rewrite (proj2 (isAdjacent_chebyshev p c) Hd). sel_done.
    + intros Hd. destruct (_ && _) eqn:E; [apply isAdjacent_chebyshev in E; lia|].
      pose proof (movePointer_fields s x y) as Hf. rewrite Hp in Hf. exact Hf.
  - rewrite (pointerMove_longer s c x y l p q Hsel Hl). cbn [obind]. eexists.
    split; [reflexivity|]. rewrite Hl, secondToLast_app.
    split.
    { intros [= ->]. rewrite (proj2 (sameCoords_true c c) eq_refl).
      cbn [selectedCoords set_selectedCoords].
      replace (l ++ [c; q]) with ((l ++ [c]) ++ [q]) by (rewrite <- app_assoc; reflexivity).
      rewrite removelast_last. sel_done. }
    split.
    { intros Hneq Hin.
      assert (sameCoords p c = false) as -> by (apply sameCoords_false; congruence).
      rewrite (proj2 (existsb_sameCoords _ c) Hin). sel_done. }
    split.
    { intros Hneq Hnotin lastCoord Hlast.
      assert (lastCoord = q) as ->.
      { replace (l ++ [p; q]) with ((l ++ [p]) ++ [q]) in Hlast
          by (rewrite <- app_assoc; reflexivity).
        rewrite last_snoc in Hlast. congruence. }
      assert (sameCoords p c = false) as -> by (apply sameCoords_false; congruence).
      destruct (existsb _ _) eqn:E; [apply existsb_sameCoords in E; contradiction|].
      split.
      - intros Hd. rewrite (proj2 (isAdjacent_chebyshev q c) Hd).
        cbn [selectedCoords set_selectedCoords]. rewrite <- app_assoc. reflexivity.
      - intros Hd. destruct (_ && _) eqn:E'; [apply isAdjacent_chebyshev in E'; lia|].
        pose proof (movePointer_fields s x y) as Hf. rewrite Hl in Hf. exact Hf. }
    intros a b Hab ->.
    assert (l = [] /\ p = a /\ q = b) as (-> & -> & ->).
    { destruct l as [|e [|e' l]]; cbn in Hab.
      - injection Hab as -> ->. auto.
      - discriminate.
      - destruct l; discriminate. }
    rewrite (proj2 (sameCoords_true a a) eq_refl). reflexivity.
Qed.

End ReducerClaims.

(** *** The reducer on concrete states *)


Lemma C7_tick_clock_witness :
  (exists s', dispatchAll 7 "combo-0" true (exampleState Playing 1 Tap)
                (replicate 3 TICK) exampleWorld = Ok (s', exampleWorld)
     /\ status s' = Playing
     /\ timeLeft s' = Z.max 0 (1 - 3)
     /\ (0 <= timeLeft s')%Z).
Proof.
  apply (C7_tick_clock 7 "combo-0" true (exampleState Playing 1 Tap) exampleWorld).
  reflexivity.
Defined.

Lemma C6_score_witness :
  exists states w',
    dispatchTrace 7 "combo-0" true (exampleState Playing 30 Tap)
      (matchSuccesses
         [(8%Z, [mkCoords 0 0; mkCoords 0 1]); (0%Z, []); (12%Z, [mkCoords 1 1])])
      exampleWorld = Ok (states, w')
    /\ nonDecreasing (score (exampleState Playing 30 Tap) :: map score states).
Proof.
  destruct (C6_score_and_best_score 7 "combo-0" true (exampleState Playing 30 Tap)
              [(8%Z, [mkCoords 0 0; mkCoords 0 1]); (0%Z, []); (12%Z, [mkCoords 1 1])]
              exampleWorld)
    as (states & w' & Hrun & _ & _ & Hmono).
  exists states, w'. split; [exact Hrun|].
  apply Hmono. repeat constructor; cbn; lia.
Defined.

Lemma C4_drag_selection_witness :
  exists s',
    gameReducer 7 "combo-0" true (exampleDrag [mkCoords 0 0; mkCoords 0 1])
      (POINTER_MOVE (Some (mkCoords 0 0)) 120 88) exampleWorld = Ok (s', exampleWorld)
    /\ selectedCoords s' = [mkCoords 0 0].
Proof.
  destruct (C4_drag_selection 7 "combo-0" true
              (exampleDrag [mkCoords 0 0; mkCoords 0 1]) (mkCoords 0 0) 120 88 exampleWorld)
    as (s' & Hrun & _ & _ & _ & Hback).
  - reflexivity.
  - discriminate.
  - exists s'. split; [exact Hrun|]. apply (Hback (mkCoords 0 0) (mkCoords 0 1)); reflexivity.
Defined.

(** ** Properties of gravity *)

(** C3. On a grid with any pattern of empty cells, [applyGravity] treats
    every column on its own: the column of the result is a block of newly
    created tiles on top of the column's former non-empty cells, which keep
    their top-to-bottom order (so the identifiers of the former tiles are
    preserved, in order, at the bottom); the new tiles are as many as the
    column had empty cells, they carry the identifiers issued during the call,
    and the set of their identifiers is the returned [droppedIds]. *)
Theorem C3_gravity_compacts_columns
    (b : Board) (m : GameMode) (d : Difficulty) (w : World) :
  isGrid b ->
  exists (fresh : nat -> list TileType) r w',
    applyGravity b m d w = Ok (r, w')
    /\ isGrid (nextBoard r)
    /\ (forall c, c < GRID_SIZE ->
          column (nextBoard r) c
            = (Tile <$> fresh c) ++ List.filter nonNull (column b c)
          /\ length (fresh c) = length (List.filter isNull (column b c))
          /\ omap cellId (drop (length (fresh c)) (column (nextBoard r) c))
             = omap cellId (column b c))
    /\ droppedIds r = list_to_set (freshIds fresh 0 GRID_SIZE)
    /\ freshIdsInOrder fresh 0 GRID_SIZE
         = uuidSource w <$> seq (issued w) (issued w' - issued w).
Proof.
  intros Hgrid.
  destruct (applyGravity_spec b m d w Hgrid)
    as (fresh & r & w' & Hrun & Hg' & Hcols & Hids & Hord).
  exists fresh, r, w'. split; [exact Hrun|]. split; [exact Hg'|].
  split; [|split; assumption].
  intros c Hc. specialize (Hcols c Hc). split; [exact Hcols|]. split.
  - assert (length (column (nextBoard r) c) = length (column b c)) as Hlen.
    { rewrite !column_length. destruct Hgrid as [-> _], Hg' as [-> _]. reflexivity. }
    rewrite Hcols, length_app, length_fmap in Hlen.
    pose proof (filter_length isNull (column b c)) as Hsplit.
    unfold nonNull in Hlen. lia.
  - rewrite Hcols. rewrite drop_app_length'; [|rewrite length_fmap; reflexivity].
    apply omap_cellId_nonNull.
Qed.

Lemma C3_gravity_witness :
  exists (fresh : nat -> list TileType) r w',
    applyGravity exampleCleared Sum Banana exampleWorld = Ok (r, w')
    /\ column (nextBoard r) 1
       = (Tile <$> fresh 1) ++ List.filter nonNull (column exampleCleared 1)
    /\ length (fresh 1) = 3
    /\ droppedIds r = list_to_set (freshIds fresh 0 GRID_SIZE).
Proof.
  destruct (C3_gravity_compacts_columns exampleCleared Sum Banana exampleWorld)
    as (fresh & r & w' & Hrun & _ & Hcols & Hids & _).
  - split; [reflexivity|]. repeat constructor.
  - exists fresh, r, w'. split; [exact Hrun|].
    destruct (Hcols 1) as (Hcol & Hlen & _); [unfold GRID_SIZE; lia|].
    split; [exact Hcol|]. split; [exact Hlen|exact Hids].
Defined.

(** What the call computes on the example: column 1 receives three new
    tiles above its two former tiles, column 4 one. *)
Example applyGravity_exampleCleared :
  exists r w',
    applyGravity exampleCleared Sum Banana exampleWorld = Ok (r, w')
    /\ column (nextBoard r) 1
       = [Tile (TimeTile "tile-2"); Tile (TimeTile "tile-1"); Tile (TimeTile "tile-0");
          exampleTile 2 6; exampleTile 2 16]
    /\ column (nextBoard r) 4
       = [Tile (NumberTile "tile-3" 3); exampleTile 1 4; exampleTile 5 9;
          exampleTile 3 19; exampleTile 2 24]
    /\ column (nextBoard r) 0 = column exampleCleared 0
    /\ droppedIds r = list_to_set ["tile-0"; "tile-1"; "tile-2"; "tile-3"]%string.
Proof.
  eexists _, _. split; [vm_compute; reflexivity|].
  split; [reflexivity|]. split; [reflexivity|]. split; [reflexivity|].
  vm_compute. reflexivity.
Qed.

Lemma Forall_lookup_2D (P : Cell -> Prop) (b : Board) :
  (forall r c line x, b !! r = Some line -> line !! c = Some x -> P x) ->
  Forall (Forall P) b.
Proof.
  intros H. apply Forall_lookup. intros r line Hline.
  apply Forall_lookup. intros c x Hx. exact (H r c line x Hline Hx).
Qed.

(** C9. On a grid whose cells are tiles or empty, the board returned by
    [applyGravity] is a grid without a single empty cell: every cell is
    occupied by a tile. *)
Theorem C9_gravity_fills_board
    (b : Board) (m : GameMode) (d : Difficulty) (w : World) :
  isGrid b -> typedBoard b ->
  exists r w',
    applyGravity b m d w = Ok (r, w')
    /\ isGrid (nextBoard r)
    /\ fullBoard (nextBoard r)
    /\ Forall (Forall (fun x => isNull x = false)) (nextBoard r).
Proof.
  intros Hgrid Htyped.
  destruct (applyGravity_spec b m d w Hgrid)
    as (fresh & r & w' & Hrun & Hg' & Hcols & _ & _).
  exists r, w'. split; [exact Hrun|]. split; [exact Hg'|].
  assert (fullBoard (nextBoard r)) as Hfull.
  { apply Forall_lookup_2D. intros i c line x Hline Hx.
    assert (c < GRID_SIZE) as Hc.
    { destruct Hg' as [_ Hlines]. rewrite Forall_forall in Hlines.
      rewrite <- (Hlines line); [|eapply list_elem_of_lookup_2; exact Hline].
      eapply lookup_lt_Some. exact Hx. }
    pose proof (grid_cell_in_column _ _ _ _ _ Hline Hx) as Hin.
    rewrite (Hcols c Hc) in Hin.
    apply list_elem_of_lookup_2 in Hin. apply elem_of_app in Hin as [Hnew|Hold].
    - apply list_elem_of_fmap in Hnew as (t & -> & _). reflexivity.
    - apply list_elem_of_In, filter_In in Hold as [Hold Hnn].
      apply list_elem_of_In in Hold. unfold column in Hold.
      apply list_elem_of_fmap in Hold as (old & -> & Hold).
      assert (c < length old) as Hlt.
      { destruct Hgrid as [_ Hlines]. rewrite Forall_forall in Hlines.
        rewrite (Hlines old Hold). exact Hc. }
      destruct (lookup_lt_is_Some_2 old c Hlt) as [y Hy].
      rewrite Hy in Hnn |- *. cbn [default] in Hnn |- *.
      assert (y <> Undefined) as Hdef.
      { unfold typedBoard in Htyped. rewrite Forall_forall in Htyped.
        specialize (Htyped old Hold). rewrite Forall_forall in Htyped.
        apply Htyped. eapply list_elem_of_lookup_2. exact Hy. }
      destruct y; [congruence|discriminate|reflexivity]. }
  split; [exact Hfull|].
  unfold fullBoard in Hfull.
  eapply Forall_impl; [exact Hfull|]. intros line Hline.
  eapply Forall_impl; [exact Hline|]. intros x Hx. destruct x; cbn in *; congruence.
Qed.

Lemma C9_gravity_fills_witness :
  exists r w',
    applyGravity exampleCleared Multiply Coconut exampleWorld = Ok (r, w')
    /\ isGrid (nextBoard r)
    /\ fullBoard (nextBoard r)
    /\ Forall (Forall (fun x => isNull x = false)) (nextBoard r).
Proof.
  apply (C9_gravity_fills_board exampleCleared Multiply Coconut exampleWorld).
  - split; [reflexivity|]. repeat constructor.
  - repeat constructor; discriminate.
Defined.

(** ** Properties of the target *)

(** C1, as the code has it.  On a grid with at least two number tiles, once
    the start search has drawn a number tile, [findPathForTarget] returns a
    value fixed by the start tile, the first cell drawn by the start search
    that holds a number tile: when the start tile has a number tile on one of
    its four sides, the sum (sum mode) or product (multiply mode) along a
    contiguous path of two or three distinct, four-adjacent number tiles of
    the board that begins at the start tile; when it has none, the sum or
    product of two number tiles at different positions of the board, which
    need not be adjacent. *)
Theorem C1_target_from_board
    (sort : list Cell -> Eff (list Cell)) (b : Board) (m : GameMode)
    (fuel : nat) (w : World) :
  rearranges sort ->
  isGrid b -> 2 <= length (numberValues b) ->
  (exists k, k < fuel /\ attemptHits b w k) ->
  exists v w' start,
    findPathForTarget sort fuel b m w = Ok (v, w')
    /\ startTile b w start
    /\ (forall other, startTile b w other -> other = start)
    /\ isNumberAt b start
    /\ (hasNumberNeighbour b start ->
        reachableTarget b m v
        /\ exists path,
             validPath b path /\ head path = Some start
             /\ v = foldValues m (omap (numberValueAt b) path))
    /\ (~ hasNumberNeighbour b start -> pairTarget b m v).
Proof.
  intros Hsort Hgrid Hcount Hhit.
  destruct (findPathForTarget_spec sort Hsort b m fuel w Hgrid Hcount Hhit)
    as (v & w' & start & Hrun & Hfirst & Hnum & Hpath & Hpair).
  exists v, w', start. split; [exact Hrun|]. split; [exact Hfirst|].
  split; [intros other Hother; exact (startTile_unique b w _ _ Hother Hfirst)|].
  split; [exact Hnum|].
  split; [|exact Hpair].
  intros Hnb. destruct (Hpath Hnb) as (path & Hvalid & Hhead & Hv).
  split; [exists path; split; assumption|].
  exists path. split; [exact Hvalid|]. split; assumption.
Qed.

Lemma insertRandomly_perm (x : Cell) (sorted : list Cell) :
  forall w, exists l w', insertRandomly x sorted w = Ok (l, w') /\ Permutation l (x :: sorted).
Proof.
  induction sorted as [|y rest IH]; intros w.
  - exists [x], w. split; reflexivity.
  - cbn [insertRandomly]. unfold bind at 1. unfold Math_random at 1.
    destruct (Qlt_le_dec _ _).
    + destruct (IH (mkWorld (entropy w) (S (drawn w)) (uuidSource w) (issued w)
                      (localStorage w))) as (l & w' & Hrun & Hperm).
      rewrite (bind_Ok _ _ _ _ _ Hrun). unfold ret.
      eexists _, _. split; [reflexivity|].
      rewrite Hperm. apply perm_swap.
    + unfold ret. eexists _, _. split; reflexivity.
Qed.

Lemma exampleSort_rearranges : rearranges exampleSort.
Proof.
  intros l. induction l as [|x rest IH]; intros w.
  - exists [], w. split; reflexivity.
  - cbn [exampleSort]. destruct (IH w) as (sorted & w1 & Hrun & Hperm).
    rewrite (bind_Ok _ _ _ _ _ Hrun).
    destruct (insertRandomly_perm x sorted w1) as (l & w' & Hins & Hperm').
    exists l, w'. split; [exact Hins|]. rewrite Hperm', Hperm. reflexivity.
Qed.

Lemma C1_target_witness :
  exists v w' start,
    findPathForTarget exampleSort 10 exampleBoard Sum exampleWorld = Ok (v, w')
    /\ startTile exampleBoard exampleWorld start
    /\ (forall other, startTile exampleBoard exampleWorld other -> other = start)
    /\ isNumberAt exampleBoard start
    /\ (hasNumberNeighbour exampleBoard start ->
        reachableTarget exampleBoard Sum v
        /\ exists path,
             validPath exampleBoard path /\ head path = Some start
             /\ v = foldValues Sum (omap (numberValueAt exampleBoard) path))
    /\ (~ hasNumberNeighbour exampleBoard start -> pairTarget exampleBoard Sum v).
Proof.
  apply (C1_target_from_board exampleSort exampleBoard Sum 10 exampleWorld).
  - exact exampleSort_rearranges.
  - split; [reflexivity|]. repeat constructor.
  - cbn. lia.
  - exists 0. split; [lia|]. vm_compute. reflexivity.
Defined.

(** The two number tiles of [sparseBoard] sit in opposite corners. *)
Lemma sparseBoard_numbers (p : Coords) :
  isNumberAt sparseBoard p -> p = mkCoords 0 0 \/ p = mkCoords 4 4.
Proof.
  intros Hnum.
  assert (isGrid sparseBoard) as Hgrid by (split; [reflexivity|repeat constructor]).
  pose proof (isNumberAt_inBounds sparseBoard p Hgrid Hnum) as Hin.
  apply inBounds_spec in Hin. destruct p as [r c]. cbn [row col] in Hin.
  unfold isNumberAt in Hnum. cbn [row col] in Hnum.
  assert (r = 0 \/ r = 1 \/ r = 2 \/ r = 3 \/ r = 4)%Z as Hr
    by (unfold GRID_SIZE in Hin; lia).
  assert (c = 0 \/ c = 1 \/ c = 2 \/ c = 3 \/ c = 4)%Z as Hc
    by (unfold GRID_SIZE in Hin; lia).
  destruct Hr as [->|[->|[->|[->| ->]]]], Hc as [->|[->|[->|[->| ->]]]];
    vm_compute in Hnum; try discriminate; auto.
Qed.

Lemma sparseBoard_no_path (m : GameMode) (v : Z) : ~ reachableTarget sparseBoard m v.
Proof.
  intros (path & (Hlen & _ & Hch & Hnum) & _).
  destruct path as [|p1 [|p2 rest]]; cbn [length] in Hlen; try lia.
  pose proof (Hch 0 p1 p2 eq_refl eq_refl) as Hadj.
  inversion Hnum as [|? ? H1 Hrest]; subst.
  inversion Hrest as [|? ? H2 _]; subst.
  apply sparseBoard_numbers in H1, H2. unfold adjacent4 in Hadj.
  destruct H1 as [-> | ->], H2 as [-> | ->]; cbn [row col] in Hadj; lia.
Qed.

(** C1, as stated, fails: on a grid whose only two number tiles are not
    adjacent the function returns their sum, 3 + 4, and no contiguous path of
    number tiles exists on that board at all. *)
Lemma C1_counterexample :
  isGrid sparseBoard
  /\ length (numberValues sparseBoard) = 2
  /\ (exists w', findPathForTarget exampleSort 10 sparseBoard Sum exampleWorld = Ok (7%Z, w'))
  /\ ~ reachableTarget sparseBoard Sum 7.
Proof.
  split; [split; [reflexivity|repeat constructor]|].
  split; [reflexivity|].
  split; [eexists; vm_compute; reflexivity|].
  apply sparseBoard_no_path.
Qed.

(** ** The code on concrete inputs *)

(** The selection 3, 5 of the first row is worth 8 in sum mode and 15 in
    multiply mode; a bonus tile and a coordinate off the board add nothing. *)
Example calculateSelectionValue_examples :
  calculateSelectionValue [mkCoords 0 0; mkCoords 0 1] exampleBoard Sum = 8%Z
  /\ calculateSelectionValue [mkCoords 0 0; mkCoords 0 1] exampleBoard Multiply = 15%Z
  /\ calculateSelectionValue [mkCoords 0 0; mkCoords 2 1; mkCoords 9 9; mkCoords 0 1]
       exampleBoard Sum = 8%Z
  /\ calculateSelectionValue [] exampleBoard Sum = 0%Z
  /\ calculateSelectionValue [mkCoords 2 1] exampleBoard Multiply = 1%Z.
Proof. repeat split. Qed.

(** From the corner tile 3 the walk steps down onto the tile 1. *)
Example findPathForTarget_exampleBoard :
  (exists w', findPathForTarget exampleSort 10 exampleBoard Sum exampleWorld = Ok (4%Z, w'))
  /\ (exists w', findPathForTarget exampleSort 10 exampleBoard Multiply exampleWorld
                 = Ok (3%Z, w')).
Proof. split; eexists; vm_compute; reflexivity. Qed.

(** Fewer than two number tiles: the default target. *)
Example findPathForTarget_empty_board :
  findPathForTarget exampleSort 10 [] Sum exampleWorld = Ok (10%Z, exampleWorld).
Proof. reflexivity. Qed.

(** A drag from (0,0) over (0,1), back onto (0,0), then onto the distant
    cell (3,3): the selection grows, shrinks, and stays. *)
Example drag_scenario :
  exists s' w',
    dispatchAll 7 "combo-0" true (exampleState Playing 30 Drag)
      [ POINTER_DOWN (Some (mkCoords 0 0));
        POINTER_MOVE (Some (mkCoords 0 1)) 60 20;
        POINTER_MOVE (Some (mkCoords 0 0)) 20 20;
        POINTER_MOVE (Some (mkCoords 3 3)) 200 180 ] exampleWorld = Ok (s', w')
    /\ selectedCoords s' = [mkCoords 0 0]
    /\ value (valueIndicator s') = 3%Z.
Proof. eexists _, _. split; [vm_compute; reflexivity|]. split; reflexivity. Qed.

(** One second left: a tick empties the clock, the next leaves it empty. *)
Example last_second :
  exists s',
    dispatchAll 7 "combo-0" true (exampleState Playing 1 Tap) [TICK; TICK] exampleWorld
    = Ok (s', exampleWorld)
    /\ timeLeft s' = 0%Z.
Proof. eexists. split; [vm_compute; reflexivity|reflexivity]. Qed.

(** ** Further properties of the board engine *)

Section MoreBoard.

Lemma tileRange_nonempty (d : Difficulty) :
  (0 < max (tileRange (DIFFICULTY_SETTINGS d)) - min (tileRange (DIFFICULTY_SETTINGS d)) + 1)%Z.
Proof. destruct d; cbn; lia. Qed.

Lemma createNumberTile_spec (d : Difficulty) (w : World) :
  exists v,
    createNumberTile d w
    = Ok (NumberTile (uuidSource w (issued w)) v,
          mkWorld (entropy w) (S (drawn w)) (uuidSource w) (S (issued w)) (localStorage w))
    /\ inTileRange d v.
Proof.
  unfold createNumberTile.
  rewrite (bind_Ok _ _ _ _ _ (eq_refl : randomUUID w = Ok (_, _))).
  rewrite (bind_Ok _ _ _ _ _ (randomBelow_run _ _)).
  cbn [entropy drawn uuidSource issued localStorage]. unfold ret.
  eexists. split; [reflexivity|].
  pose proof (unitInterval_floor (entropy w (drawn w)) _ (tileRange_nonempty d)) as H.
  unfold inTileRange. lia.
Qed.

(** X1. [createNumberTile] returns a number tile whose value lies in the
    tile range of the difficulty, bounds included; its identifier is the next
    one issued, and the call makes one draw and touches nothing else. *)
Theorem X1_createNumberTile_in_range (d : Difficulty) (w : World) :
  exists i v w',
    createNumberTile d w = Ok (NumberTile i v, w')
    /\ (min (tileRange (DIFFICULTY_SETTINGS d)) <= v
        <= max (tileRange (DIFFICULTY_SETTINGS d)))%Z
    /\ (1 <= v)%Z
    /\ i = uuidSource w (issued w)
    /\ issued w' = S (issued w)
    /\ drawn w' = S (drawn w)
    /\ localStorage w' = localStorage w.
Proof.
  destruct (createNumberTile_spec d w) as (v & Hrun & Hv).
  eexists _, v, _. split; [exact Hrun|]. split; [exact Hv|].
  split; [unfold inTileRange in Hv; destruct d; cbn in Hv; lia|].
  repeat split.
Qed.


Lemma arrayFrom_issues {A} (make : Eff A) (P : A -> Prop) (ids : A -> list string)
    (k n : nat) :
  issues make P ids k ->
  issues (arrayFrom n make) (fun l => length l = n /\ Forall P l)
    (fun l => concat (ids <$> l)) (n * k).
Proof.
  intros Hmake. induction n as [|n IH]; intros w.
  - exists [], w. cbn [arrayFrom]. unfold ret. split; [reflexivity|].
    split; [split; [reflexivity|constructor]|]. split; [reflexivity|].
    split; [lia|]. split; reflexivity.
  - destruct (Hmake w) as (x & w1 & Hx & HP & Hids & Hiss & Hsrc & Hls).
    destruct (IH w1) as (l & w' & Hl & [Hlen Hall] & Hidl & Hissl & Hsrcl & Hlsl).
    exists (x :: l), w'. cbn [arrayFrom].
    rewrite (bind_Ok _ _ _ _ _ Hx), (bind_Ok _ _ _ _ _ Hl). unfold ret.
    split; [reflexivity|].
    split; [split; [cbn; lia|constructor; assumption]|].
    split.
    { cbn [fmap list_fmap concat]. rewrite Hids, Hidl, Hsrc, Hiss.
      rewrite seq_app_fmap. reflexivity. }
    split; [lia|]. split; congruence.
Qed.

Lemma numberCell_issues (d : Difficulty) :
  issues (bind (createNumberTile d) (fun t => ret (Tile t)))
    (fun x => isNumberCell x = true /\ validCell d x)
    (fun x => from_option (fun i => [i]) [] (cellId x)) 1.
Proof.
  intros w. destruct (createNumberTile_spec d w) as (v & Hrun & Hv).
  eexists _, _. rewrite (bind_Ok _ _ _ _ _ Hrun). unfold ret.
  split; [reflexivity|]. split; [split; [reflexivity|exact Hv]|].
  split; [reflexivity|]. cbn. split; [lia|]. split; reflexivity.
Qed.

Lemma concat_cellIds (line : list Cell) :
  concat ((fun x => from_option (fun i => [i]) [] (cellId x)) <$> line) = omap cellId line.
Proof.
  induction line as [|x line IH]; [reflexivity|].
  cbn [fmap list_fmap concat omap list_omap]. rewrite IH.
  destruct (cellId x); reflexivity.
Qed.

Lemma omap_concat {A B} (f : A -> option B) (ls : list (list A)) :
  omap f (concat ls) = concat ((fun l : list A => omap f l) <$> ls).
Proof.
  induction ls as [|l ls IH]; [reflexivity|].
  cbn [concat fmap list_fmap]. rewrite omap_app, IH. reflexivity.
Qed.

Lemma createInitialBoard_spec (d : Difficulty) (w : World) :
  exists b w',
    createInitialBoard d w = Ok (mkInitialBoard b (list_to_set (boardIds b)), w')
    /\ isGrid b /\ numberBoard b /\ validBoard d b
    /\ boardIds b = uuidSource w <$> seq (issued w) (GRID_SIZE * GRID_SIZE)
    /\ issued w' = issued w + GRID_SIZE * GRID_SIZE
    /\ uuidSource w' = uuidSource w
    /\ localStorage w' = localStorage w.
Proof.
  pose proof (arrayFrom_issues _ _ _ _ GRID_SIZE
                (arrayFrom_issues _ _ _ 1 GRID_SIZE (numberCell_issues d))) as Hboard.
  destruct (Hboard w) as (b & w' & Hrun & [Hlen Hrows] & Hids & Hiss & Hsrc & Hls).
  rewrite Nat.mul_1_r in Hids, Hiss.
  exists b, w'. unfold createInitialBoard.
  rewrite (bind_Ok _ _ _ _ _ Hrun). unfold ret, idSet.
  split; [reflexivity|].
  split.
  { split; [exact Hlen|]. eapply Forall_impl; [exact Hrows|].
    cbn beta. intros line [Hl _]. exact Hl. }
  split.
  { eapply Forall_impl; [exact Hrows|]. cbn beta. intros line [_ Hl].
    eapply Forall_impl; [exact Hl|]. cbn beta. intros x [Hx _]. exact Hx. }
  split.
  { eapply Forall_impl; [exact Hrows|]. cbn beta. intros line [_ Hl].
    eapply Forall_impl; [exact Hl|]. cbn beta. intros x [_ Hx]. exact Hx. }
  split.
  { unfold boardIds. rewrite omap_concat, <- Hids. f_equal.
    apply list_fmap_ext. intros _ line _. symmetry. apply concat_cellIds. }
  split; [exact Hiss|]. split; assumption.
Qed.

(** X2. [createInitialBoard] returns a board of [GRID_SIZE] rows of
    [GRID_SIZE] cells, every cell a number tile with a value in the tile range
    of the difficulty; the identifiers of its tiles, row after row, are the
    [GRID_SIZE * GRID_SIZE] identifiers issued during the call, and [allIds] is
    the set of them. *)
Theorem X2_createInitialBoard_grid (d : Difficulty) (w : World) :
  exists r w',
    createInitialBoard d w = Ok (r, w')
    /\ isGrid (ib_board r)
    /\ numberBoard (ib_board r)
    /\ validBoard d (ib_board r)
    /\ fullBoard (ib_board r)
    /\ boardIds (ib_board r) = uuidSource w <$> seq (issued w) (GRID_SIZE * GRID_SIZE)
    /\ allIds r = list_to_set (boardIds (ib_board r))
    /\ issued w' = issued w + GRID_SIZE * GRID_SIZE.
Proof.
  destruct (createInitialBoard_spec d w)
    as (b & w' & Hrun & Hgrid & Hnum & Hvalid & Hids & Hiss & _ & _).
  eexists _, w'. split; [exact Hrun|]. cbn [ib_board allIds].
  split; [exact Hgrid|]. split; [exact Hnum|]. split; [exact Hvalid|].
  split.
  { eapply Forall_impl; [exact Hnum|]. cbn beta. intros line Hl.
    eapply Forall_impl; [exact Hl|]. cbn beta. intros x Hx.
    destruct x as [| |[i v|i]]; try discriminate Hx; reflexivity. }
  split; [exact Hids|]. split; [reflexivity|exact Hiss].
Qed.

(** *** Gravity where nothing is empty, and where rows are missing *)

Lemma grid_cell (b : Board) (r c : nat) :
  isGrid b -> r < GRID_SIZE -> c < GRID_SIZE ->
  exists line x, b !! r = Some line /\ line !! c = Some x /\ column b c !! r = Some x.
Proof.
  intros Hgrid Hr Hc. destruct (isGrid_lookup b r Hgrid Hr) as (line & Hline & Hlen).
  destruct (lookup_lt_is_Some_2 line c) as [x Hx]; [lia|].
  exists line, x. split; [exact Hline|]. split; [exact Hx|].
  eapply grid_cell_in_column; eassumption.
Qed.

Lemma Forall2D_lookup (P : Cell -> Prop) (b : Board) (r c : nat) line x :
  Forall (Forall P) b -> b !! r = Some line -> line !! c = Some x -> P x.
Proof.
  intros Hall Hline Hx. rewrite Forall_forall in Hall.
  specialize (Hall line (list_elem_of_lookup_2 _ _ _ Hline)).
  rewrite Forall_forall in Hall. apply Hall. eapply list_elem_of_lookup_2. exact Hx.
Qed.

Lemma compactColumn_nothing_empty (b : Board) (c : nat) :
  isGrid b -> c < GRID_SIZE -> Forall (Forall (fun x => isNull x = false)) b ->
  forall n, n <= GRID_SIZE -> compactColumn c n (-1) b = Ok ((-1)%Z, b).
Proof.
  intros Hgrid Hc Hfull. induction n as [|r IH]; intros Hn; [reflexivity|].
  destruct (grid_cell b r c Hgrid) as (line & x & Hline & Hx & Hcol); [lia|exact Hc|].
  cbn [compactColumn].
  rewrite (readCell_column b r c x); [|destruct Hgrid; lia|exact Hcol].
  cbn [obind]. rewrite (Forall2D_lookup _ b r c line x Hfull Hline Hx).
  cbn [andb negb]. apply IH. lia.
Qed.

Lemma gravityColumns_nothing_empty probability d (b : Board) :
  isGrid b -> Forall (Forall (fun x => isNull x = false)) b ->
  forall k c ids w, c + k = GRID_SIZE ->
    gravityColumns probability d k c b ids w = Ok ((b, ids), w).
Proof.
  intros Hgrid Hfull. induction k as [|k IH]; intros c ids w Hck; [reflexivity|].
  cbn [gravityColumns].
  rewrite (bind_Ok _ _ _ _ _
             (lift_Ok _ _ w (compactColumn_nothing_empty b c Hgrid ltac:(lia) Hfull
                               GRID_SIZE (le_n _)))).
  change (Z.to_nat (-1 + 1)) with 0. cbn [fillColumn].
  rewrite (bind_Ok _ _ _ _ _ (eq_refl : ret (b, ids) w = Ok (_, _))).
  apply IH. lia.
Qed.

Lemma applyGravity_full_result (b : Board) (m : GameMode) (d : Difficulty) (w : World) :
  isGrid b -> typedBoard b ->
  exists r w',
    applyGravity b m d w = Ok (r, w')
    /\ isGrid (nextBoard r)
    /\ Forall (Forall (fun x => isNull x = false)) (nextBoard r)
    /\ typedBoard (nextBoard r).
Proof.
  intros Hgrid Htyped.
  destruct (applyGravity_spec b m d w Hgrid)
    as (fresh & r & w' & Hrun & Hg' & Hcols & _ & _).
  exists r, w'. split; [exact Hrun|]. split; [exact Hg'|].
  assert (Forall (Forall (fun x => isTruthy x = true)) (nextBoard r)) as Hfull.
  { apply Forall_lookup_2D. intros i c line x Hline Hx.
    assert (c < GRID_SIZE) as Hc.
    { destruct Hg' as [_ Hlines]. rewrite Forall_forall in Hlines.
      rewrite <- (Hlines line); [|eapply list_elem_of_lookup_2; exact Hline].
      eapply lookup_lt_Some. exact Hx. }
    pose proof (grid_cell_in_column _ _ _ _ _ Hline Hx) as Hin.
    rewrite (Hcols c Hc) in Hin.
    apply list_elem_of_lookup_2 in Hin. apply elem_of_app in Hin as [Hnew|Hold].
    - apply list_elem_of_fmap in Hnew as (t & -> & _). reflexivity.
    - apply list_elem_of_In, filter_In in Hold as [Hold Hnn].
      apply list_elem_of_In in Hold. unfold column in Hold.
      apply list_elem_of_fmap in Hold as (old & -> & Hold).
      assert (c < length old) as Hlt.
      { destruct Hgrid as [_ Hlines]. rewrite Forall_forall in Hlines.
        rewrite (Hlines old Hold). exact Hc. }
      destruct (lookup_lt_is_Some_2 old c Hlt) as [y Hy].
      rewrite Hy in Hnn |- *. cbn [default] in Hnn |- *.
      assert (y <> Undefined) as Hdef.
      { unfold typedBoard in Htyped. rewrite Forall_forall in Htyped.
        specialize (Htyped old Hold). rewrite Forall_forall in Htyped.
        apply Htyped. eapply list_elem_of_lookup_2. exact Hy. }
      destruct y; [congruence|discriminate|reflexivity]. }
  split.
  - eapply Forall_impl; [exact Hfull|]. intros line Hline.
    eapply Forall_impl; [exact Hline|]. intros x Hx. destruct x; cbn in Hx |- *; congruence.
  - eapply Forall_impl; [exact Hfull|]. intros line Hline.
    eapply Forall_impl; [exact Hline|]. intros x Hx. destruct x; cbn in Hx; congruence.
Qed.

(** X3. On a grid without an empty cell [applyGravity] does nothing: it
    returns the same board and an empty [droppedIds], and makes no draw and
    issues no identifier.  Hence gravity applied to the result of gravity
    changes nothing. *)
Theorem X3_gravity_nothing_to_do
    (b : Board) (m : GameMode) (d : Difficulty) (w : World) :
  isGrid b ->
  (Forall (Forall (fun x => isNull x = false)) b ->
   applyGravity b m d w = Ok (mkGravityResult b ∅, w))
  /\ (typedBoard b ->
      exists r w',
        applyGravity b m d w = Ok (r, w')
        /\ forall m' d',
             applyGravity (nextBoard r) m' d' w' = Ok (mkGravityResult (nextBoard r) ∅, w')).
Proof.
  intros Hgrid.
  assert (forall b' m' d' w', isGrid b' -> Forall (Forall (fun x => isNull x = false)) b' ->
            applyGravity b' m' d' w' = Ok (mkGravityResult b' ∅, w')) as Hsame.
  { intros b' m' d' w' Hg Hfull. unfold applyGravity. rewrite map_id.
    rewrite (bind_Ok _ _ _ _ _
               (gravityColumns_nothing_empty _ d' b' Hg Hfull GRID_SIZE 0 ∅ w' eq_refl)).
    reflexivity. }
  split; [intros Hfull; apply Hsame; assumption|].
  intros Htyped.
  destruct (applyGravity_full_result b m d w Hgrid Htyped) as (r & w' & Hrun & Hg & Hfull & _).
  exists r, w'. split; [exact Hrun|]. intros m' d'. apply Hsame; assumption.
Qed.

Lemma X3_gravity_nothing_witness :
  applyGravity exampleBoard Sum Banana exampleWorld
  = Ok (mkGravityResult exampleBoard ∅, exampleWorld).
Proof.
  apply (X3_gravity_nothing_to_do exampleBoard Sum Banana exampleWorld).
  - split; [reflexivity|]. repeat constructor.
  - repeat constructor.
Defined.

Lemma compactColumn_missing_row (c r : nat) (e : Z) (b : Board) :
  length b <= r -> compactColumn c (S r) e b = TypeError.
Proof.
  intros Hlen. cbn [compactColumn]. unfold readCell.
  rewrite js_nth_of_nat, (lookup_ge_None_2 b r Hlen). reflexivity.
Qed.

(** X4. On a board with fewer than [GRID_SIZE] rows [applyGravity] throws a
    [TypeError]: its first read is of the bottom row of the grid, which does
    not exist.  This is what it does on the board of the initial state, [[]]. *)
Theorem X4_gravity_short_board
    (b : Board) (m : GameMode) (d : Difficulty) (w : World) :
  length b < GRID_SIZE -> applyGravity b m d w = TypeError.
Proof.
  intros Hlen. unfold applyGravity. rewrite map_id.
  unfold GRID_SIZE at 1. cbn [gravityColumns].
  unfold bind at 1. unfold bind at 1. unfold lift.
  change GRID_SIZE with (S 4) at 1.
  rewrite compactColumn_missing_row; [reflexivity|]. unfold GRID_SIZE in Hlen. lia.
Qed.

Lemma X4_gravity_short_board_witness :
  applyGravity [] Sum Banana exampleWorld = TypeError.
Proof.
  apply (X4_gravity_short_board [] Sum Banana exampleWorld). unfold GRID_SIZE. cbn. lia.
Defined.

(** *** What the cells of the result are *)

Section CellInvariant.

Variable P : Cell -> Prop.
Hypothesis P_Null : P Null.
Hypothesis P_Undefined : P Undefined.

Lemma readCell_Forall (b : Board) (r c : Z) (x : Cell) :
  Forall (Forall P) b -> readCell b r c = Ok x -> P x.
Proof using P_Undefined.
  intros Hall. unfold readCell.
  destruct (js_nth b r) as [line|] eqn:Hline; [|discriminate].
  intros [= <-]. apply js_nth_Some_lt in Hline as [_ Hline].
  destruct (js_nth line c) as [y|] eqn:Hy; [|exact P_Undefined].
  apply js_nth_Some_lt in Hy as [_ Hy].
  exact (Forall2D_lookup P b _ _ line y Hall Hline Hy).
Qed.

Lemma js_set_Forall (line : list Cell) (c : nat) (x : Cell) :
  Forall P line -> P x -> Forall P (js_set line c x).
Proof using P_Undefined.
  intros Hline Hx. unfold js_set. destruct (decide (c < length line)).
  - apply Forall_insert; assumption.
  - apply Forall_app. split; [exact Hline|]. apply Forall_app. split.
    + apply Forall_replicate. exact P_Undefined.
    + repeat constructor. exact Hx.
Qed.

Lemma writeCell_Forall (b b' : Board) (r : Z) (c : nat) (x : Cell) :
  Forall (Forall P) b -> P x -> writeCell b r c x = Ok b' -> Forall (Forall P) b'.
Proof using P_Undefined.
  intros Hall Hx. unfold writeCell.
  destruct (js_nth b r) as [line|] eqn:Hline; [|discriminate].
  intros [= <-]. apply js_nth_Some_lt in Hline as [_ Hline].
  apply Forall_insert; [exact Hall|]. apply js_set_Forall; [|exact Hx].
  rewrite Forall_forall in Hall. apply Hall. eapply list_elem_of_lookup_2. exact Hline.
Qed.

Lemma compactColumn_Forall (c : nat) :
  forall n e b e' b',
    Forall (Forall P) b -> compactColumn c n e b = Ok (e', b') -> Forall (Forall P) b'.
Proof using P_Null P_Undefined.
  induction n as [|r IH]; intros e b e' b' Hall; cbn [compactColumn].
  - intros [= _ <-]. exact Hall.
  - destruct (readCell b (Z.of_nat r) (Z.of_nat c)) as [x| |] eqn:Hread; try discriminate.
    cbn [obind]. pose proof (readCell_Forall _ _ _ _ Hall Hread) as Hx.
    destruct (isNull x && (e =? -1)%Z); [apply IH; exact Hall|].
    destruct (negb (isNull x) && negb (e =? -1)%Z); [|apply IH; exact Hall].
    destruct (writeCell b e c x) as [b1| |] eqn:Hw1; try discriminate. cbn [obind].
    destruct (writeCell b1 (Z.of_nat r) c Null) as [b2| |] eqn:Hw2; try discriminate.
    cbn [obind]. apply IH.
    eapply writeCell_Forall; [|exact P_Null|exact Hw2].
    eapply writeCell_Forall; [exact Hall|exact Hx|exact Hw1].
Qed.

Variable d : Difficulty.
Hypothesis P_new : forall t, validCell d (Tile t) -> P (Tile t).

Lemma fillColumn_Forall (probability : Q) (c : nat) :
  forall n b ids w b' ids' w',
    Forall (Forall P) b ->
    fillColumn probability d c n b ids w = Ok ((b', ids'), w') ->
    Forall (Forall P) b'.
Proof using P_Undefined P_new.
  induction n as [|r IH]; intros b ids w b' ids' w' Hall; cbn [fillColumn].
  - intros [= <- _ _]. exact Hall.
  - rewrite (bind_Ok _ _ _ _ _ (eq_refl : Math_random w = Ok (_, _))).
    destruct (Qlt_le_dec _ _).
    + rewrite (bind_Ok _ _ _ _ _ (eq_refl : createTimeTile _ = Ok (_, _))).
      unfold bind at 1. unfold lift.
      destruct (writeCell b (Z.of_nat r) c _) as [b1| |] eqn:Hw; try discriminate.
      cbn [obind]. apply IH.
      eapply writeCell_Forall; [exact Hall| |exact Hw]. apply P_new. exact I.
    + lazymatch goal with
      | |- context [bind (createNumberTile d) _ ?w1] =>
          destruct (createNumberTile_spec d w1) as (v & Hrun & Hv)
      end.
      rewrite (bind_Ok _ _ _ _ _ Hrun).
      unfold bind at 1. unfold lift.
      destruct (writeCell b (Z.of_nat r) c _) as [b1| |] eqn:Hw; try discriminate.
      cbn [obind]. apply IH.
      eapply writeCell_Forall; [exact Hall| |exact Hw]. apply P_new. exact Hv.
Qed.

Lemma gravityColumns_Forall (probability : Q) :
  forall k c b ids w b' ids' w',
    Forall (Forall P) b ->
    gravityColumns probability d k c b ids w = Ok ((b', ids'), w') ->
    Forall (Forall P) b'.
Proof using P_Null P_Undefined P_new.
  induction k as [|k IH]; intros c b ids w b' ids' w' Hall; cbn [gravityColumns].
  - intros [= <- _ _]. exact Hall.
  - unfold bind at 1. unfold lift.
    destruct (compactColumn c GRID_SIZE (-1) b) as [[e b1]| |] eqn:Hcompact;
      try discriminate.
    cbn [obind]. unfold bind at 1.
    destruct (fillColumn probability d c (Z.to_nat (e + 1)) b1 ids w)
      as [[[b2 ids2] w2]| |] eqn:Hfill; try discriminate.
    apply IH. eapply fillColumn_Forall; [|exact Hfill].
    eapply compactColumn_Forall; [exact Hall|exact Hcompact].
Qed.

Lemma applyGravity_Forall (b : Board) (m : GameMode) (w : World) r w' :
  Forall (Forall P) b -> applyGravity b m d w = Ok (r, w') ->
  Forall (Forall P) (nextBoard r).
Proof using P_Null P_Undefined P_new.
  intros Hall. unfold applyGravity. rewrite map_id. unfold bind.
  destruct (gravityColumns _ d GRID_SIZE 0 b ∅ w) as [[[b' ids'] w1]| |] eqn:Hrun;
    try discriminate.
  intros [= <- _]. cbn [nextBoard fst].
  eapply gravityColumns_Forall; [exact Hall|exact Hrun].
Qed.

End CellInvariant.

(** X5. [applyGravity] keeps the tile values in range: on a grid whose
    number tiles carry values of the difficulty's tile range, the number tiles
    of the returned board do too, the new ones included; in particular every
    number tile of the result has a value of at least 1. *)
Theorem X5_gravity_keeps_values_in_range
    (b : Board) (m : GameMode) (d : Difficulty) (w : World) :
  isGrid b -> validBoard d b ->
  exists r w',
    applyGravity b m d w = Ok (r, w')
    /\ validBoard d (nextBoard r)
    /\ Forall (Forall (fun x => forall i v, x = Tile (NumberTile i v) -> (1 <= v)%Z))
         (nextBoard r).
Proof.
  intros Hgrid Hvalid.
  destruct (applyGravity_spec b m d w Hgrid) as (fresh & r & w' & Hrun & _).
  exists r, w'. split; [exact Hrun|].
  assert (validBoard d (nextBoard r)) as Hres.
  { eapply (applyGravity_Forall (validCell d) I I d (fun t H => H)); eassumption. }
  split; [exact Hres|].
  eapply Forall_impl; [exact Hres|]. cbn beta. intros line Hline.
  eapply Forall_impl; [exact Hline|]. cbn beta. intros x Hx i v ->.
  unfold validCell, inTileRange in Hx. destruct d; cbn in Hx; lia.
Qed.

Lemma X5_gravity_values_witness :
  exists r w',
    applyGravity exampleCleared Sum Apple exampleWorld = Ok (r, w')
    /\ validBoard Apple (nextBoard r)
    /\ Forall (Forall (fun x => forall i v, x = Tile (NumberTile i v) -> (1 <= v)%Z))
         (nextBoard r).
Proof.
  apply (X5_gravity_keeps_values_in_range exampleCleared Sum Apple exampleWorld).
  - split; [reflexivity|]. repeat constructor.
  - apply (bool_decide_unpack _). vm_compute. exact I.
Defined.

End MoreBoard.
(** ** Further properties of the target *)

Section MoreTarget.

Lemma cellAt_Forall (P : Cell -> Prop) (b : Board) (r c : Z) :
  P Undefined -> Forall (Forall P) b -> P (cellAt b r c).
Proof.
  intros HU Hall. unfold cellAt.
  destruct (js_nth b r) as [line|] eqn:Hline; [|exact HU].
  apply js_nth_Some_lt in Hline as [_ Hline].
  destruct (js_nth line c) as [y|] eqn:Hy; [|exact HU].
  apply js_nth_Some_lt in Hy as [_ Hy].
  exact (Forall2D_lookup P b _ _ line y Hall Hline Hy).
Qed.

Lemma numberValueAt_valid (d : Difficulty) (b : Board) (p : Coords) (v : Z) :
  validBoard d b -> numberValueAt b p = Some v -> inTileRange d v.
Proof.
  intros Hvalid. unfold numberValueAt.
  pose proof (cellAt_Forall (validCell d) b (row p) (col p) I Hvalid) as Hcell.
  destruct (cellAt b (row p) (col p)) as [| |[i u|i]]; try discriminate.
  intros [= <-]. exact Hcell.
Qed.

Lemma pathValues_valid (d : Difficulty) (b : Board) (path : list Coords) :
  validBoard d b -> Forall (isNumberAt b) path ->
  Forall (inTileRange d) (omap (numberValueAt b) path)
  /\ length (omap (numberValueAt b) path) = length path.
Proof.
  intros Hvalid. induction 1 as [|p path Hp _ [IHv IHl]]; [split; [constructor|reflexivity]|].
  cbn [omap list_omap].
  destruct (numberValueAt b p) as [v|] eqn:Hv.
  - split; [constructor; [eapply numberValueAt_valid; eassumption|exact IHv]|].
    cbn [length]. rewrite IHl. reflexivity.
  - exfalso. unfold isNumberAt in Hp. unfold numberValueAt in Hv.
    destruct (cellAt b (row p) (col p)) as [| |[i u|i]]; discriminate.
Qed.

Lemma numberValues_valid (d : Difficulty) (b : Board) :
  validBoard d b -> Forall (inTileRange d) (numberValues b).
Proof.
  unfold validBoard, numberValues. induction 1 as [|line b Hline _ IH]; [constructor|].
  cbn [concat]. rewrite omap_app. apply Forall_app. split; [|exact IH].
  clear IH. induction Hline as [|x line Hx _ IH]; [constructor|].
  destruct x as [| |[i v|i]]; cbn; try exact IH. constructor; assumption.
Qed.

Lemma tileRange_positive (d : Difficulty) (v : Z) : inTileRange d v -> (1 <= v)%Z.
Proof. unfold inTileRange. destruct d; cbn; lia. Qed.

Lemma foldValues_bounds (m : GameMode) (lo hi : Z) (vs : list Z) :
  (1 <= lo)%Z -> Forall (fun v => (lo <= v <= hi)%Z) vs ->
  length vs = 2 \/ length vs = 3 ->
  match m with
  | Sum => (2 * lo <= foldValues m vs <= 3 * hi)%Z
  | Multiply => (lo * lo <= foldValues m vs <= hi * hi * hi)%Z
  end.
Proof.
  intros Hlo Hall Hlen.
  destruct vs as [|a [|b [|c [|e vs]]]]; cbn [length] in Hlen; try lia.
  - inversion Hall as [|? ? Ha Hall']; subst. inversion Hall' as [|? ? Hb _]; subst.
    destruct m; cbn; nia.
  - inversion Hall as [|? ? Ha Hall']; subst. inversion Hall' as [|? ? Hb Hall'']; subst.
    inversion Hall'' as [|? ? Hc _]; subst.
    destruct m; cbn.
    + lia.
    + assert (lo * lo <= a * b)%Z by nia. assert (a * b <= hi * hi)%Z by nia.
      split; nia.
Qed.

Lemma tileRange_lower (d : Difficulty) : (1 <= min (tileRange (DIFFICULTY_SETTINGS d)))%Z.
Proof. destruct d; cbn; lia. Qed.

Lemma target_bounds
    (sort : list Cell -> Eff (list Cell)) (b : Board) (m : GameMode) (d : Difficulty)
    (fuel : nat) (w : World) :
  rearranges sort -> isGrid b -> validBoard d b ->
  (length (numberValues b) < 2 ->
   findPathForTarget sort fuel b m w = Ok (10%Z, w))
  /\ (2 <= length (numberValues b) ->
      (exists k, k < fuel /\ attemptHits b w k) ->
      exists v w',
        findPathForTarget sort fuel b m w = Ok (v, w')
        /\ (1 <= v)%Z
        /\ match m with
           | Sum => (2 * min (tileRange (DIFFICULTY_SETTINGS d)) <= v
                     <= 3 * max (tileRange (DIFFICULTY_SETTINGS d)))%Z
           | Multiply =>
             (min (tileRange (DIFFICULTY_SETTINGS d)) * min (tileRange (DIFFICULTY_SETTINGS d))
              <= v
              <= max (tileRange (DIFFICULTY_SETTINGS d)) * max (tileRange (DIFFICULTY_SETTINGS d))
                 * max (tileRange (DIFFICULTY_SETTINGS d)))%Z
           end).
Proof.
  intros Hsort Hgrid Hvalid. split.
  - intros Hfew. unfold findPathForTarget.
    assert ((length (List.filter isNumberCell (concat b)) <? 2)%nat = true) as ->
      by (apply Nat.ltb_lt; rewrite numberValues_length; exact Hfew).
    reflexivity.
  - intros Hcount Hhit.
    destruct (findPathForTarget_spec sort Hsort b m fuel w Hgrid Hcount Hhit)
      as (v & w' & start & Hrun & _ & Hnum & Hpath & Hpair).
    exists v, w'. split; [exact Hrun|].
    pose proof (tileRange_lower d) as Hlo.
    assert (exists vs, v = foldValues m vs
                       /\ Forall (inTileRange d) vs
                       /\ (length vs = 2 \/ length vs = 3)) as (vs & -> & Hvs & Hlen).
    { assert (hasNumberNeighbour b start \/ ~ hasNumberNeighbour b start) as [Hnb|Hnb].
      { pose proof (candidate_first_step b start Hgrid) as Hiff.
        destruct (List.filter _ _) as [|q qs]; [right|left].
        - intros Hnb. apply Hiff in Hnb. congruence.
        - apply Hiff. discriminate. }
      - destruct (Hpath Hnb) as (path & (Hlen & _ & _ & Hnums) & _ & ->).
        destruct (pathValues_valid d b path Hvalid Hnums) as [Hall Hl].
        eexists. split; [reflexivity|]. split; [exact Hall|]. rewrite Hl. exact Hlen.
      - destruct (Hpair Hnb) as (v1 & v2 & others & Hperm & ->).
        pose proof (numberValues_valid d b Hvalid) as Hall.
        rewrite <- Hperm in Hall.
        inversion Hall as [|? ? H1 Hall']; subst. inversion Hall' as [|? ? H2 _]; subst.
        exists [v1; v2]. split; [reflexivity|].
        split; [apply Forall_cons; split; [exact H1|apply Forall_singleton; exact H2]|].
        left. reflexivity. }
    pose proof (foldValues_bounds m _ _ vs Hlo Hvs Hlen) as Hb.
    split; [|exact Hb]. destruct m; nia.
Qed.

Lemma target_positive
    (sort : list Cell -> Eff (list Cell)) (b : Board) (m : GameMode) (d : Difficulty)
    (fuel : nat) (w : World) :
  rearranges sort -> isGrid b -> validBoard d b ->
  (2 <= length (numberValues b) -> exists k, k < fuel /\ attemptHits b w k) ->
  exists v w', findPathForTarget sort fuel b m w = Ok (v, w') /\ (1 <= v)%Z.
Proof.
  intros Hsort Hgrid Hvalid Hhit.
  destruct (target_bounds sort b m d fuel w Hsort Hgrid Hvalid) as [Hfew Hmany].
  destruct (Nat.lt_ge_cases (length (numberValues b)) 2) as [Hlt|Hge].
  - exists 10%Z, w. split; [exact (Hfew Hlt)|lia].
  - destruct (Hmany Hge (Hhit Hge)) as (v & w' & Hrun & Hpos & _).
    exists v, w'. split; assumption.
Qed.

(** X6. The target is never 0.  With fewer than two number tiles on the
    board [findPathForTarget] returns the default 10 and makes no draw.
    Otherwise, on a grid whose number tiles carry values [lo .. hi] of the
    difficulty's tile range, the target it returns is between [2 * lo] and
    [3 * hi] in sum mode and between [lo * lo] and [hi * hi * hi] in multiply
    mode, hence at least 1.  (The controller reads a target of 0 as "no
    target yet".) *)
Theorem X6_target_bounds
    (sort : list Cell -> Eff (list Cell)) (b : Board) (m : GameMode) (d : Difficulty)
    (fuel : nat) (w : World) :
  rearranges sort -> isGrid b -> validBoard d b ->
  (length (numberValues b) < 2 ->
   findPathForTarget sort fuel b m w = Ok (10%Z, w))
  /\ (2 <= length (numberValues b) ->
      (exists k, k < fuel /\ attemptHits b w k) ->
      exists v w',
        findPathForTarget sort fuel b m w = Ok (v, w')
        /\ (1 <= v)%Z
        /\ match m with
           | Sum => (2 * min (tileRange (DIFFICULTY_SETTINGS d)) <= v
                     <= 3 * max (tileRange (DIFFICULTY_SETTINGS d)))%Z
           | Multiply =>
             (min (tileRange (DIFFICULTY_SETTINGS d)) * min (tileRange (DIFFICULTY_SETTINGS d))
              <= v
              <= max (tileRange (DIFFICULTY_SETTINGS d)) * max (tileRange (DIFFICULTY_SETTINGS d))
                 * max (tileRange (DIFFICULTY_SETTINGS d)))%Z
           end).
Proof. exact (target_bounds sort b m d fuel w). Qed.



Lemma X6_target_bounds_witness :
  exists v w',
    findPathForTarget exampleSort 10 exampleBoard Sum exampleWorld = Ok (v, w')
    /\ (1 <= v)%Z
    /\ (2 * 1 <= v <= 3 * 9)%Z.
Proof.
  destruct (X6_target_bounds exampleSort exampleBoard Sum Apple 10 exampleWorld)
    as [_ Hbounds].
  - exact exampleSort_rearranges.
  - split; [reflexivity|]. repeat constructor.
  - apply (bool_decide_unpack _). vm_compute. exact I.
  - apply Hbounds.
    + cbn. lia.
    + exists 0. split; [lia|]. vm_compute. reflexivity.
Defined.

(** X7. The start search reads [board[startRow][startCol]] for a row drawn
    below [GRID_SIZE] whatever the board: when the board has at least two
    number tiles but the first row drawn lies beyond its last row,
    [findPathForTarget] throws a [TypeError]. *)
Theorem X7_target_missing_row
    (sort : list Cell -> Eff (list Cell)) (b : Board) (m : GameMode)
    (fuel : nat) (w : World) :
  2 <= length (numberValues b) ->
  (Z.of_nat (length b) <= gridDraw w 0)%Z ->
  findPathForTarget sort (S fuel) b m w = TypeError.
Proof.
  intros Hcount Hrow. unfold findPathForTarget.
  assert ((length (List.filter isNumberCell (concat b)) <? 2)%nat = false) as ->
    by (apply Nat.ltb_ge; rewrite numberValues_length; exact Hcount).
  unfold bind at 1. cbn [pickStart].
  rewrite (bind_Ok _ _ _ _ _ (randomBelow_run _ w)).
  rewrite (bind_Ok _ _ _ _ _ (randomBelow_run _ _)).
  unfold gridDraw in Hrow. rewrite Nat.add_0_r in Hrow.
  cbn [entropy drawn]. unfold bind at 1. unfold lift, readCell.
  rewrite (js_nth_None_ge b _ Hrow). reflexivity.
Qed.

Lemma X7_target_missing_row_witness :
  findPathForTarget exampleSort 10 [[exampleTile 1 0; exampleTile 2 1]] Sum halfWorld
  = TypeError.
Proof.
  apply (X7_target_missing_row exampleSort [[exampleTile 1 0; exampleTile 2 1]] Sum 9
           halfWorld).
  - cbn. lia.
  - vm_compute. discriminate.
Defined.

(** *** The order of a selection *)

Lemma fold_modeOp (m : GameMode) (vs : list Z) (acc : Z) :
  fold_left (modeOp m) vs acc = modeOp m acc (foldValues m vs).
Proof.
  unfold foldValues. revert acc. induction vs as [|v vs IH]; intros acc.
  - destruct m; cbn; lia.
  - cbn [fold_left]. rewrite (IH (modeOp m acc v)), (IH (modeOp m (modeIdentity m) v)).
    destruct m; cbn; lia.
Qed.

Lemma foldValues_app (m : GameMode) (l1 l2 : list Z) :
  foldValues m (l1 ++ l2) = modeOp m (foldValues m l1) (foldValues m l2).
Proof.
  unfold foldValues at 1. rewrite fold_left_app, fold_modeOp. reflexivity.
Qed.

Lemma foldValues_Permutation (m : GameMode) (l1 l2 : list Z) :
  Permutation l1 l2 -> foldValues m l1 = foldValues m l2.
Proof.
  induction 1 as [|x l l' _ IH|x y l|l l' l'' _ IH1 _ IH2].
  - reflexivity.
  - change (x :: l) with ([x] ++ l). change (x :: l') with ([x] ++ l').
    rewrite !foldValues_app, IH. reflexivity.
  - change (y :: x :: l) with ([y; x] ++ l). change (x :: y :: l) with ([x; y] ++ l).
    rewrite !foldValues_app. f_equal. destruct m; cbn; lia.
  - congruence.
Qed.

Lemma foldValues_cons (m : GameMode) (v : Z) (vs : list Z) :
  foldValues m (v :: vs) = modeOp m v (foldValues m vs).
Proof.
  change (v :: vs) with ([v] ++ vs). rewrite foldValues_app. f_equal.
  destruct m; cbn; lia.
Qed.

Lemma magnitudes_lower (m : GameMode) (vs : list Z) :
  (modeIdentity m <= foldValues m (magnitude m <$> vs))%Z.
Proof.
  induction vs as [|v vs IH]; [destruct m; cbn; lia|].
  cbn [fmap list_fmap]. change (list_fmap _ _ ?f vs) with (f <$> vs).
  rewrite foldValues_cons. destruct m; cbn in *; nia.
Qed.

Lemma magnitudes_submseteq (m : GameMode) (part vs : list Z) :
  part ⊆+ vs ->
  (foldValues m (magnitude m <$> part) <= foldValues m (magnitude m <$> vs))%Z.
Proof.
  induction 1 as [|x l1 l2 _ IH|x y l|x l1 l2 _ IH|l1 l2 l3 _ IH1 _ IH2].
  - lia.
  - cbn [fmap list_fmap]. change (list_fmap _ _ ?f ?l) with (f <$> l).
    rewrite !foldValues_cons.
    pose proof (magnitudes_lower m l1). destruct m; cbn in *; nia.
  - cbn [fmap list_fmap]. change (list_fmap _ _ ?f ?l) with (f <$> l).
    rewrite !foldValues_cons. destruct m; cbn; lia.
  - cbn [fmap list_fmap]. change (list_fmap _ _ ?f ?l) with (f <$> l).
    rewrite foldValues_cons.
    pose proof (magnitudes_lower m l1). pose proof (magnitudes_lower m l2).
    destruct m; cbn in *; nia.
  - lia.
Qed.

Lemma foldValues_magnitude (m : GameMode) (vs : list Z) :
  (Z.abs (foldValues m vs) <= foldValues m (magnitude m <$> vs))%Z.
Proof.
  induction vs as [|v vs IH]; [destruct m; cbn; lia|].
  cbn [fmap list_fmap]. change (list_fmap _ _ ?f vs) with (f <$> vs).
  rewrite !foldValues_cons.
  pose proof (magnitudes_lower m vs). destruct m; cbn in *; [lia|].
  rewrite Z.abs_mul. nia.
Qed.

(** X24. Within the safe integers the value of a selection does not depend
    on the order in which the cells were selected, and the value of two
    selections put together is the sum (sum mode) or the product (multiply
    mode) of their values.  The range is that of [safeValues]: the number
    values of the selection can be summed, or multiplied, in any order
    without leaving the safe integers, so that every value the fold of the
    source passes through, whatever the order, is a safe integer and the
    arithmetic of doubles is exact. *)
Theorem X24_selection_value_order
    (coords coords' : list Coords) (b : Board) (m : GameMode) :
  (safeValues m (omap (numberValueAt b) coords) ->
   Permutation coords coords' ->
   calculateSelectionValue coords b m = calculateSelectionValue coords' b m)
  /\ (safeValues m (omap (numberValueAt b) (coords ++ coords')) ->
      calculateSelectionValue (coords ++ coords') b m
      = modeOp m (calculateSelectionValue coords b m)
          (calculateSelectionValue coords' b m))
  /\ (safeValues m (omap (numberValueAt b) coords) ->
      forall part, part ⊆+ omap (numberValueAt b) coords ->
        safeInteger (foldValues m part)).
Proof.
  rewrite !calculateSelectionValue_fold. split; [|split].
  - intros _ Hperm. apply foldValues_Permutation.
    apply omap_Permutation. exact Hperm.
  - intros _. rewrite omap_app. apply foldValues_app.
  - intros Hsafe part Hpart. unfold safeInteger. unfold safeValues in Hsafe.
    pose proof (foldValues_magnitude m part).
    pose proof (magnitudes_submseteq m _ _ Hpart). lia.
Qed.

(** Three cells of [exampleBoard] in two orders, and split in two. *)
Example selection_value_order_example :
  calculateSelectionValue [mkCoords 0 0; mkCoords 0 1; mkCoords 1 1] exampleBoard Multiply
  = calculateSelectionValue [mkCoords 1 1; mkCoords 0 0; mkCoords 0 1] exampleBoard Multiply
  /\ calculateSelectionValue [mkCoords 0 0; mkCoords 0 1; mkCoords 1 1] exampleBoard Multiply
     = 30%Z
  /\ safeValues Multiply
       (omap (numberValueAt exampleBoard) [mkCoords 0 0; mkCoords 0 1; mkCoords 1 1]).
Proof.
  split; [reflexivity|]. split; [reflexivity|].
  unfold safeValues, MAX_SAFE_INTEGER. vm_compute. discriminate.
Qed.

End MoreTarget.
(** ** The stream of random numbers *)

Lemma keepsEntropy_ret {A} (a : A) : keepsEntropy (ret a).
Proof. intros w x w' H. injection H as _ <-. reflexivity. Qed.

Lemma keepsEntropy_bind {A B} (e : Eff A) (k : A -> Eff B) :
  keepsEntropy e -> (forall a, keepsEntropy (k a)) -> keepsEntropy (bind e k).
Proof.
  intros He Hk w b w' H. unfold bind in H.
  destruct (e w) as [[a w1]| |] eqn:E; try discriminate.
  rewrite (Hk a _ _ _ H). exact (He _ _ _ E).
Qed.

Lemma keepsEntropy_lift {A} (o : Outcome A) : keepsEntropy (lift o).
Proof.
  intros w a w' H. unfold lift in H. destruct o; cbn in H; try discriminate.
  injection H as _ <-. reflexivity.
Qed.

Lemma keepsEntropy_TypeError {A} : keepsEntropy (fun _ => @TypeError (A * World)).
Proof. intros w a w' H. discriminate. Qed.

Lemma keepsEntropy_OutOfFuel {A} : keepsEntropy (fun _ => @OutOfFuel (A * World)).
Proof. intros w a w' H. discriminate. Qed.

Lemma keepsEntropy_Math_random : keepsEntropy Math_random.
Proof. intros w a w' H. injection H as _ <-. reflexivity. Qed.

Lemma keepsEntropy_randomUUID : keepsEntropy randomUUID.
Proof. intros w a w' H. injection H as _ <-. reflexivity. Qed.

(** Takes a computation apart along its binds and its case distinctions. *)
Ltac keeps :=
  repeat first
    [ assumption
    | apply keepsEntropy_ret
    | apply keepsEntropy_lift
    | apply keepsEntropy_TypeError
    | apply keepsEntropy_OutOfFuel
    | apply keepsEntropy_Math_random
    | apply keepsEntropy_randomUUID
    | apply keepsEntropy_bind; [|intros ?]
    | match goal with
      | |- keepsEntropy (if ?c then _ else _) => destruct c
      | |- keepsEntropy (match ?x with _ => _ end) => destruct x
      end ].

Lemma keepsEntropy_randomBelow (n : Z) : keepsEntropy (randomBelow n).
Proof. unfold randomBelow. keeps. Qed.

Lemma keepsEntropy_createNumberTile (d : Difficulty) : keepsEntropy (createNumberTile d).
Proof. unfold createNumberTile. keeps. Qed.

Lemma keepsEntropy_createTimeTile : keepsEntropy createTimeTile.
Proof. unfold createTimeTile. keeps. Qed.

Lemma keepsEntropy_fillColumn (probability : Q) (d : Difficulty) (c n : nat) :
  forall newBoard droppedTileIds,
    keepsEntropy (fillColumn probability d c n newBoard droppedTileIds).
Proof.
  induction n as [|n IH]; intros newBoard droppedTileIds; cbn [fillColumn]; keeps;
    auto using keepsEntropy_createTimeTile, keepsEntropy_createNumberTile.
Qed.

Lemma keepsEntropy_gravityColumns (probability : Q) (d : Difficulty) (k : nat) :
  forall c newBoard droppedTileIds,
    keepsEntropy (gravityColumns probability d k c newBoard droppedTileIds).
Proof.
  induction k as [|k IH]; intros c newBoard droppedTileIds; cbn [gravityColumns]; keeps;
    auto using keepsEntropy_fillColumn.
Qed.

Lemma keepsEntropy_applyGravity (b : Board) (m : GameMode) (d : Difficulty) :
  keepsEntropy (applyGravity b m d).
Proof.
  unfold applyGravity.
  apply keepsEntropy_bind; [apply keepsEntropy_gravityColumns|intros done; apply keepsEntropy_ret].
Qed.

Lemma keepsEntropy_pickStart (b : Board) (fuel : nat) : keepsEntropy (pickStart fuel b).
Proof.
  induction fuel as [|fuel IH]; cbn [pickStart]; keeps;
    auto using keepsEntropy_randomBelow.
Qed.

Lemma keepsEntropy_extendPath (b : Board) (n : nat) :
  forall path visited, keepsEntropy (extendPath b n path visited).
Proof.
  induction n as [|n IH]; intros path visited; cbn [extendPath]; keeps;
    auto using keepsEntropy_randomBelow.
Qed.

Lemma keepsEntropy_findPathForTarget
    (sort : list Cell -> Eff (list Cell)) (fuel : nat) (b : Board) (m : GameMode) :
  (forall l, keepsEntropy (sort l)) -> keepsEntropy (findPathForTarget sort fuel b m).
Proof.
  intros Hsort. unfold findPathForTarget. keeps;
    auto using keepsEntropy_pickStart, keepsEntropy_randomBelow, keepsEntropy_extendPath.
Qed.

Lemma keepsEntropy_insertRandomly (x : Cell) (sorted : list Cell) :
  keepsEntropy (insertRandomly x sorted).
Proof. induction sorted as [|y rest IH]; cbn [insertRandomly]; keeps. Qed.

Lemma exampleSort_steady (l : list Cell) : keepsEntropy (exampleSort l).
Proof.
  induction l as [|x rest IH]; cbn [exampleSort]; keeps;
    auto using keepsEntropy_insertRandomly.
Qed.

(** *** Draws that visit the whole grid *)

Lemma gridDraw_entropy (w w' : World) (j : nat) :
  entropy w' = entropy w -> gridDraw w' j = gridDraw (drawsFrom w (drawn w')) j.
Proof. intros H. unfold gridDraw, drawsFrom. cbn [entropy drawn]. rewrite H. reflexivity. Qed.

Lemma thoroughDraws_entropy (fuel : nat) (w w' : World) :
  entropy w' = entropy w -> thoroughDraws fuel w -> thoroughDraws fuel w'.
Proof.
  intros H Hw from p Hp. destruct (Hw from p Hp) as (k & Hk & Hcell).
  exists k. split; [exact Hk|]. rewrite <- Hcell.
  unfold drawnCell, gridDraw, drawsFrom. cbn [entropy drawn]. rewrite H. reflexivity.
Qed.

Lemma number_cell_exists (b : Board) :
  isGrid b -> 1 <= length (numberValues b) ->
  exists p, inBounds (Z.of_nat GRID_SIZE) p = true /\ isNumberAt b p.
Proof.
  intros [Hrows Hcols] Hcount. unfold numberValues in Hcount.
  destruct (omap _ (concat b)) as [|v vs] eqn:Hvalues; [cbn in Hcount; lia|].
  assert (v ∈ v :: vs) as Hv by constructor. rewrite <- Hvalues in Hv.
  apply list_elem_of_omap in Hv as (x & Hx & Hnumber).
  apply list_elem_of_In, in_concat in Hx as (line & Hline & Hx).
  apply list_elem_of_In, list_elem_of_lookup_1 in Hline as [r Hr].
  apply list_elem_of_In, list_elem_of_lookup_1 in Hx as [c Hc].
  pose proof (lookup_lt_Some _ _ _ Hr) as Hrlt.
  pose proof (lookup_lt_Some _ _ _ Hc) as Hclt.
  rewrite Forall_forall in Hcols.
  rewrite (Hcols line (list_elem_of_lookup_2 _ _ _ Hr)) in Hclt.
  exists (mkCoords (Z.of_nat r) (Z.of_nat c)). split.
  - apply inBounds_spec. cbn [row col]. lia.
  - unfold isNumberAt, cellAt. cbn [row col].
    rewrite !js_nth_of_nat, Hr. cbn. rewrite js_nth_of_nat, Hc. cbn.
    destruct x as [| |[i u|i]]; try discriminate. reflexivity.
Qed.

(** On draws that visit the whole grid the start search finds a number tile
    wherever there is one. *)
Lemma thorough_hits (fuel : nat) (w w' : World) (b : Board) :
  thoroughDraws fuel w -> entropy w' = entropy w ->
  isGrid b -> 1 <= length (numberValues b) ->
  exists k, k < fuel /\ attemptHits b w' k.
Proof.
  intros Hw Hentropy Hgrid Hcount.
  destruct (number_cell_exists b Hgrid Hcount) as (p & Hin & Hnumber).
  destruct (Hw (drawn w') p Hin) as (k & Hk & Hcell).
  exists k. split; [exact Hk|]. unfold attemptHits.
  rewrite !(gridDraw_entropy w w' _ Hentropy).
  unfold drawnCell in Hcell. rewrite <- Hcell in Hnumber. exact Hnumber.
Qed.

Lemma thoroughWorld_period (from j : nat) :
  gridDraw (drawsFrom thoroughWorld from) j
  = gridDraw (drawsFrom thoroughWorld (from mod 25)) j.
Proof.
  unfold gridDraw, drawsFrom, thoroughWorld. cbn [entropy drawn].
  rewrite (Nat.Div0.add_mod_idemp_l from j 25). reflexivity.
Qed.

Lemma thoroughWorld_covers : forallb (coversFrom thoroughWorld 25) (seq 0 25) = true.
Proof. vm_compute. reflexivity. Qed.

Lemma thoroughWorld_thorough : thoroughDraws 25 thoroughWorld.
Proof.
  intros from p Hp. apply inBounds_spec in Hp. destruct Hp as [Hrow Hcol].
  unfold GRID_SIZE in Hrow, Hcol.
  pose proof thoroughWorld_covers as Hall. rewrite forallb_forall in Hall.
  assert (In (from mod 25) (seq 0 25)) as Hfrom.
  { apply in_seq. pose proof (Nat.mod_upper_bound from 25). lia. }
  assert (In (Z.to_nat (row p)) (seq 0 GRID_SIZE)) as Hr
    by (apply in_seq; unfold GRID_SIZE; lia).
  assert (In (Z.to_nat (col p)) (seq 0 GRID_SIZE)) as Hc
    by (apply in_seq; unfold GRID_SIZE; lia).
  specialize (Hall _ Hfrom). unfold coversFrom in Hall.
  rewrite forallb_forall in Hall. specialize (Hall _ Hr).
  rewrite forallb_forall in Hall. specialize (Hall _ Hc).
  apply existsb_exists in Hall as (k & Hk & Hsame).
  apply in_seq in Hk. apply sameCoords_true in Hsame.
  exists k. split; [lia|].
  rewrite !Z2Nat.id in Hsame by lia.
  unfold drawnCell in Hsame |- *.
  rewrite (thoroughWorld_period from (2 * k)), (thoroughWorld_period from (2 * k + 1)).
  destruct p as [r c]. cbn [row col] in Hsame. exact Hsame.
Qed.

(** ** Further properties of the reducer *)

(** The fields of a state, computed through the setters. *)
Ltac fields :=
  cbn [gameScreen status config board selectedCoords isSelecting targetNumber timeLeft
       score bestScore comboCount comboTimerKey clearingCoords droppingTileIds
       fallingOffTimeTileIds incorrectSelection isTargetMatched scoreJustUpdated
       particles numberParticles announcements showValueIndicator valueIndicator
       set_gameScreen set_status set_config set_board set_selectedCoords set_isSelecting
       set_targetNumber set_timeLeft set_score set_bestScore set_comboCount
       set_comboTimerKey set_clearingCoords set_droppingTileIds
       set_fallingOffTimeTileIds set_incorrectSelection set_isTargetMatched
       set_scoreJustUpdated set_particles set_numberParticles set_announcements
       set_showValueIndicator set_valueIndicator initialState
       entropy drawn uuidSource issued localStorage].

Section MoreReducer.

Variable b0 : Z.
Variable k0 : string.
Variable v0 : bool.

Local Abbreviation reduce := (gameReducer b0 k0 v0).
Local Abbreviation run := (dispatchAll b0 k0 v0).
Local Abbreviation start := (initialState b0 k0 v0).

Lemma run_cons s a rest w s1 w1 :
  reduce s a w = Ok (s1, w1) -> run s (a :: rest) w = run s1 rest w1.
Proof. intros H. cbn [dispatchAll]. unfold bind. rewrite H. reflexivity. Qed.

(** A property of state and world that every action preserves holds after
    every sequence of actions. *)
Lemma run_invariant (Inv : GameState -> World -> Prop) :
  (forall s a w s' w', Inv s w -> reduce s a w = Ok (s', w') -> Inv s' w') ->
  forall actions s w, Inv s w ->
    exists s' w', run s actions w = Ok (s', w') /\ Inv s' w'.
Proof.
  intros Hstep actions. induction actions as [|a rest IH]; intros s w Hinv.
  - exists s, w. split; [reflexivity|exact Hinv].
  - destruct (gameReducer_total b0 k0 v0 s a w) as (s1 & w1 & H1).
    destruct (IH s1 w1 (Hstep _ _ _ _ _ Hinv H1)) as (s' & w' & Hrun & Hinv').
    exists s', w'. split; [|exact Hinv']. rewrite (run_cons _ _ _ _ _ _ H1). exact Hrun.
Qed.

Lemma freshGame_inv s cfg w s' w' :
  freshGame b0 k0 v0 s cfg w = Ok (s', w') ->
  exists ib,
    createInitialBoard (difficulty cfg) w = Ok (ib, w')
    /\ s' = set_gameScreen GameScreenGame
           (set_status Playing
           (set_config cfg
           (set_board (ib_board ib)
           (set_timeLeft (initialTime (DIFFICULTY_SETTINGS (difficulty cfg)))
           (set_droppingTileIds (allIds ib)
           (set_bestScore (bestScore s)
           (set_showValueIndicator (showValueIndicator s) start))))))).
Proof.
  unfold freshGame, bind.
  destruct (createInitialBoard (difficulty cfg) w) as [[ib w1]| |]; try discriminate.
  unfold ret. intros [= <- <-]. exists ib. split; reflexivity.
Qed.

(** What a [PointerMove] does to the selection: nothing, or it drops the
    last entry, or it appends a new entry next to the last one. *)
Lemma pointerMove_selection s c x y :
  exists s', pointerMove s c x y = Ok s'
    /\ config s' = config s
    /\ isSelecting s' = isSelecting s
    /\ (selectedCoords s' = selectedCoords s
        \/ (exists q, selectedCoords s = selectedCoords s' ++ [q])
        \/ (exists p e, selectedCoords s' = selectedCoords s ++ [p]
              /\ (p ∉ selectedCoords s)
              /\ last (selectedCoords s) = Some e
              /\ (chebyshev e p <= 1)%Z)).
Proof.
  destruct c as [c|]; [|eexists; split; [reflexivity|]; cbn; auto].
  destruct (isSelecting s) eqn:Hsel;
    [|unfold pointerMove; rewrite Hsel; eexists; split; [reflexivity|]; cbn; auto].
  destruct (selectedCoords s) as [|e0 l0] eqn:Hl.
  { unfold pointerMove. rewrite Hsel, Hl. eexists. split; [reflexivity|]. cbn; auto. }
  destruct (selection_shape (e0 :: l0)) as [[p Hp]|(l & p & q & Hp)]; [discriminate| |];
    rewrite Hp in *; clear Hp.
  - rewrite (pointerMove_single s c x y p Hsel Hl). eexists. split; [reflexivity|].
    destruct (sameCoords p c) eqn:Hpc; [cbn; rewrite ?Hl; auto|].
    destruct (_ && _) eqn:Hadj; [|cbn; rewrite ?Hl; auto].
    cbn. split; [reflexivity|]. split; [exact Hsel|]. right; right. exists c, p.
    rewrite ?Hl. split; [reflexivity|]. split.
    + apply sameCoords_false in Hpc. rewrite list_elem_of_singleton. congruence.
    + split; [reflexivity|]. apply isAdjacent_chebyshev. exact Hadj.
  - rewrite (pointerMove_longer s c x y l p q Hsel Hl). eexists. split; [reflexivity|].
    destruct (sameCoords p c) eqn:Hpc.
    { cbn. split; [reflexivity|]. split; [exact Hsel|]. right; left. exists q.
      rewrite ?Hl, <- app_assoc. reflexivity. }
    destruct (existsb _ _) eqn:Hin; [cbn; rewrite ?Hl; auto|].
    destruct (_ && _) eqn:Hadj; [|cbn; rewrite ?Hl; auto].
    cbn. split; [reflexivity|]. split; [exact Hsel|]. right; right. exists c, q.
    rewrite ?Hl. split; [rewrite <- app_assoc; reflexivity|]. split.
    + intros Hc. apply existsb_sameCoords in Hc. congruence.
    + split.
      * replace (l ++ [p; q]) with ((l ++ [p]) ++ [q])
          by (rewrite <- app_assoc; reflexivity).
        apply last_snoc.
      * apply isAdjacent_chebyshev. exact Hadj.
Qed.

Lemma kingChained_nil : kingChained [].
Proof. intros i a b H. rewrite lookup_nil in H. discriminate. Qed.

Lemma kingChained_single p : kingChained [p].
Proof. intros i a b _ H. destruct i; discriminate. Qed.

Lemma kingChained_prefix l q : kingChained (l ++ [q]) -> kingChained l.
Proof.
  intros H i a b Ha Hb. apply (H i a b).
  - apply lookup_app_l_Some. exact Ha.
  - apply lookup_app_l_Some. exact Hb.
Qed.

Lemma kingChained_snoc l e p :
  kingChained l -> last l = Some e -> (chebyshev e p <= 1)%Z -> kingChained (l ++ [p]).
Proof.
  intros H He Hd i a b Ha Hb.
  assert (S i < length (l ++ [p])) as Hlt by (apply lookup_lt_is_Some; eauto).
  rewrite length_app in Hlt. cbn in Hlt.
  destruct (decide (S i < length l)) as [Hin|Hout].
  - rewrite lookup_app_l in Ha, Hb by lia. exact (H i a b Ha Hb).
  - assert (S i = length l) as Hi by lia.
    rewrite lookup_app_l in Ha by lia.
    rewrite lookup_app_r in Hb by lia.
    rewrite Hi, Nat.sub_diag in Hb. injection Hb as <-.
    rewrite last_lookup in He.
    replace (pred (length l)) with i in He by lia.
    assert (a = e) as -> by congruence. exact Hd.
Qed.

Lemma selectionInv_frame s s' :
  selectedCoords s' = selectedCoords s -> config s' = config s ->
  isSelecting s' = isSelecting s \/ isSelecting s' = false ->
  selectionInv s -> selectionInv s'.
Proof.
  intros Hsel Hcfg Hflag (Hnd & Hch & Hdrag). unfold selectionInv.
  rewrite Hsel, Hcfg. split; [exact Hnd|]. split; [exact Hch|].
  destruct Hflag as [-> | ->]; [exact Hdrag|discriminate].
Qed.

Lemma selectionInv_cleared s s' :
  selectedCoords s' = [] -> config s' = config s ->
  isSelecting s' = isSelecting s \/ isSelecting s' = false ->
  selectionInv s -> selectionInv s'.
Proof.
  intros Hsel Hcfg Hflag (Hnd & Hch & Hdrag). unfold selectionInv.
  rewrite Hsel, Hcfg. split; [apply NoDup_nil_2|]. split; [intros _; apply kingChained_nil|].
  destruct Hflag as [-> | ->]; [exact Hdrag|discriminate].
Qed.

Lemma selectionInv_fresh s cfg w s' w' :
  freshGame b0 k0 v0 s cfg w = Ok (s', w') -> selectionInv s'.
Proof.
  intros H. destruct (freshGame_inv _ _ _ _ _ H) as (ib & _ & ->).
  split; [apply NoDup_nil_2|]. split; [intros _; apply kingChained_nil|].
  cbn. discriminate.
Qed.

Lemma tap_filter_notin (p : Coords) (l : list Coords) :
  List.filter (fun c => negb (row c =? row p)%Z || negb (col c =? col p)%Z) l
  = List.filter (fun c => negb (sameCoords c p)) l.
Proof.
  apply filter_ext. intros c. unfold sameCoords. rewrite negb_andb. reflexivity.
Qed.

Lemma selectionInv_pointerDown s payload :
  selectionInv s -> selectionInv (pointerDown s payload).
Proof.
  intros Hinv. destruct payload as [p|]; [|exact Hinv]. unfold pointerDown.
  destruct (bool_decide (status s = Playing)); cbn [negb]; [|exact Hinv].
  destruct (bool_decide (selectionMode (config s) = Tap)) eqn:Htap.
  - apply bool_decide_eq_true in Htap. destruct Hinv as (Hnd & _ & Hdrag).
    split; [|split].
    + cbn. destruct (existsb _ _) eqn:Hin.
      * apply NoDup_ListNoDup, List.NoDup_filter, NoDup_ListNoDup. exact Hnd.
      * apply NoDup_app. split; [exact Hnd|]. split; [|apply NoDup_singleton].
        intros x Hx Hxp. apply list_elem_of_singleton in Hxp. subst x.
        apply existsb_sameCoords in Hx. congruence.
    + cbn. rewrite Htap. discriminate.
    + cbn. exact Hdrag.
  - apply bool_decide_eq_false in Htap.
    split; [|split]; cbn.
    + apply NoDup_singleton.
    + intros _. apply kingChained_single.
    + intros _. destruct (selectionMode (config s)); [reflexivity|contradiction].
Qed.

Lemma selectionInv_pointerMove s c x y s' :
  pointerMove s c x y = Ok s' -> selectionInv s -> selectionInv s'.
Proof.
  intros H (Hnd & Hch & Hdrag).
  destruct (pointerMove_selection s c x y) as (s1 & H1 & Hcfg & Hflag & Hsel).
  assert (s1 = s') as -> by congruence. unfold selectionInv.
  rewrite Hcfg, Hflag. split; [|split; [|exact Hdrag]].
  - destruct Hsel as [-> | [(q & Hq) | (p & e & -> & Hp & _)]]; [exact Hnd| |].
    + rewrite Hq in Hnd. apply NoDup_app in Hnd. tauto.
    + apply NoDup_app. split; [exact Hnd|]. split; [|apply NoDup_singleton].
      intros z Hz Hzp. apply list_elem_of_singleton in Hzp. congruence.
  - intros Hmode. specialize (Hch Hmode).
    destruct Hsel as [-> | [(q & Hq) | (p & e & -> & _ & He & Hd)]]; [exact Hch| |].
    + rewrite Hq in Hch. exact (kingChained_prefix _ _ Hch).
    + exact (kingChained_snoc _ _ _ Hch He Hd).
Qed.

Lemma reduce_MATCH_SUCCESS s points cs w :
  reduce s (MATCH_SUCCESS points cs) w
  = Ok (set_score (score s + points)
         (set_bestScore (Z.max (bestScore s) (score s + points))
         (set_scoreJustUpdated true
         (set_isTargetMatched true
         (set_comboCount (comboCount s + 1)
         (set_comboTimerKey (uuidSource w (issued w))
         (set_status Clearing
         (set_selectedCoords []
         (set_clearingCoords cs s)))))))),
        mkWorld (entropy w) (drawn w) (uuidSource w) (S (issued w))
          (<["bestScore" := pretty (Z.max (bestScore s) (score s + points))]>
             (localStorage w))).
Proof. cbn [gameReducer]. unfold bind, setItem, randomUUID, ret. reflexivity. Qed.

Lemma reduce_MATCH_FAILURE s w :
  reduce s MATCH_FAILURE w
  = Ok (set_incorrectSelection (Some (uuidSource w (issued w))) (set_selectedCoords [] s),
        mkWorld (entropy w) (drawn w) (uuidSource w) (S (issued w)) (localStorage w)).
Proof. reflexivity. Qed.

Lemma reduce_ADD_ANNOUNCEMENT s text style w :
  reduce s (ADD_ANNOUNCEMENT text style) w
  = Ok (set_announcements
          (announcements s
           ++ [mkAnnouncement text (styleOrDefault style) (uuidSource w (issued w))]) s,
        mkWorld (entropy w) (drawn w) (uuidSource w) (S (issued w)) (localStorage w)).
Proof. reflexivity. Qed.

Lemma reduce_START_GAME s cfg w :
  reduce s (START_GAME cfg) w = freshGame b0 k0 v0 s cfg w.
Proof. cbn [gameReducer]. reflexivity. Qed.

Lemma reduce_RESTART_GAME s w :
  reduce s RESTART_GAME w = freshGame b0 k0 v0 s (config s) w.
Proof. cbn [gameReducer]. reflexivity. Qed.

Lemma reduce_POINTER_MOVE s c x y w :
  reduce s (POINTER_MOVE c x y) w = lift (pointerMove s c x y) w.
Proof. cbn [gameReducer]. reflexivity. Qed.

Lemma lift_inv {A} (o : Outcome A) w a w' :
  lift o w = Ok (a, w') -> o = Ok a /\ w' = w.
Proof. unfold lift. destruct o; cbn; [|discriminate..]. intros [= <- <-]. auto. Qed.

(** One step of the reducer, read off the hypothesis [H]: the new state and
    world replace [s'] and [w']; the two actions that build a board and
    [POINTER_MOVE] are left to the caller, as [freshGame] and [pointerMove]. *)
Ltac reducer_step H :=
  lazymatch type of H with
  | gameReducer _ _ _ _ (START_GAME _) _ = _ => rewrite reduce_START_GAME in H
  | gameReducer _ _ _ _ RESTART_GAME _ = _ => rewrite reduce_RESTART_GAME in H
  | gameReducer _ _ _ _ (POINTER_MOVE _ _ _) _ = _ =>
      rewrite reduce_POINTER_MOVE in H; apply lift_inv in H; destruct H as [H ->]
  | gameReducer _ _ _ _ (MATCH_SUCCESS _ _) _ = _ =>
      rewrite reduce_MATCH_SUCCESS in H; injection H as <- <-
  | gameReducer _ _ _ _ MATCH_FAILURE _ = _ =>
      rewrite reduce_MATCH_FAILURE in H; injection H as <- <-
  | gameReducer _ _ _ _ (ADD_ANNOUNCEMENT _ _) _ = _ =>
      rewrite reduce_ADD_ANNOUNCEMENT in H; injection H as <- <-
  | _ => cbn [gameReducer] in H; unfold ret in H; injection H as <- <-
  end.

Lemma selectionInv_step s a w s' w' :
  selectionInv s -> reduce s a w = Ok (s', w') -> selectionInv s'.
Proof.
  intros Hinv H. destruct a; reducer_step H;
    try (first
      [ apply (selectionInv_frame s); [reflexivity|reflexivity|auto|exact Hinv]
      | apply (selectionInv_cleared s); [reflexivity|reflexivity|auto|exact Hinv]
      | apply selectionInv_pointerDown; exact Hinv ]).
  1, 2: exact (selectionInv_fresh _ _ _ _ _ H).
  exact (selectionInv_pointerMove _ _ _ _ _ H Hinv).
Qed.

(** X8. Whatever actions are dispatched from the initial state, the
    reducer returns a state whose selection lists no cell twice; in drag mode
    consecutive entries of the selection are at most one row and one column
    apart; and [isSelecting] is set in drag mode only, so that in tap mode a
    [POINTER_MOVE] never edits the selection. *)
Theorem X8_selection_well_formed (actions : list GameAction) (w : World) :
  exists s w',
    run start actions w = Ok (s, w')
    /\ NoDup (selectedCoords s)
    /\ (selectionMode (config s) = Drag -> kingChained (selectedCoords s))
    /\ (isSelecting s = true -> selectionMode (config s) = Drag).
Proof.
  apply (run_invariant (fun s _ => selectionInv s)).
  - intros s a w0 s' w' Hinv H. exact (selectionInv_step _ _ _ _ _ Hinv H).
  - split; [apply NoDup_nil_2|]. split; [intros _; apply kingChained_nil|].
    cbn. discriminate.
Qed.

(** *** What a step leaves alone *)

Lemma pointerMove_frame s c x y s' :
  pointerMove s c x y = Ok s' ->
  s' = set_selectedCoords (selectedCoords s') (set_valueIndicator (valueIndicator s') s).
Proof.
  unfold pointerMove. destruct c as [c|]; [|intros [= <-]; reflexivity].
  destruct (isSelecting s); cbn [negb]; [|intros [= <-]; reflexivity].
  destruct (length (selectedCoords s) =? 0)%nat; [intros [= <-]; reflexivity|].
  destruct (1 <? length (selectedCoords s))%nat.
  - destruct (js_nth _ _) as [p|]; cbn [obind]; [|discriminate].
    destruct (sameCoords p c); [intros [= <-]; reflexivity|].
    destruct (existsb _ _); [intros [= <-]; reflexivity|].
    destruct (js_nth _ _) as [q|]; [|discriminate].
    destruct (_ && _); intros [= <-]; reflexivity.
  - cbn [obind]. destruct (existsb _ _); [intros [= <-]; reflexivity|].
    destruct (js_nth _ _) as [q|]; [|discriminate].
    destruct (_ && _); intros [= <-]; reflexivity.
Qed.

Lemma freshGame_storage s cfg w s' w' :
  freshGame b0 k0 v0 s cfg w = Ok (s', w') -> localStorage w' = localStorage w.
Proof.
  intros H. destruct (freshGame_inv _ _ _ _ _ H) as (ib & Hib & _).
  destruct (createInitialBoard_spec (difficulty cfg) w) as (b & w1 & Hrun & Hrest).
  assert (w1 = w') as <- by congruence. apply Hrest.
Qed.

(** The branches of [pointerDown]. *)
Ltac pointerDown_cases :=
  lazymatch goal with
  | |- context [pointerDown _ ?p] => unfold pointerDown; destruct p; fields
  end.

(** As [reducer_step], with the state of a new game and the state after a
    [POINTER_MOVE] written out over the old one. *)
Ltac reducer_inv H :=
  reducer_step H;
  try lazymatch type of H with
      | freshGame _ _ _ _ _ _ = _ =>
          let ib := fresh "ib" in
          let Hib := fresh "Hib" in
          pose proof (freshGame_storage _ _ _ _ _ H) as Hls;
          destruct (freshGame_inv _ _ _ _ _ H) as (ib & Hib & ->)
      | pointerMove _ _ _ _ = _ => rewrite (pointerMove_frame _ _ _ _ _ H)
      end.

(** *** Score and best score *)

Lemma scoreInv_step s a w s' w' :
  reduce s a w = Ok (s', w') ->
  (0 <= bestScore s)%Z -> (score s <= bestScore s)%Z ->
  (score s' <= bestScore s')%Z /\ (bestScore s <= bestScore s')%Z.
Proof.
  intros H H0 Hle. destruct a; reducer_inv H; fields;
    try pointerDown_cases;
    repeat match goal with
           | |- context [if ?b then _ else _] => destruct b; fields
           end;
    lia.
Qed.

(** X9. From a state whose best score is non-negative and not below the
    score, every sequence of actions, new games and negative points included,
    ends in a state whose best score is not below its score and not below the
    best score at the beginning. *)
Theorem X9_best_score_bounds (actions : list GameAction) (s : GameState) (w : World) :
  (0 <= bestScore s)%Z -> (score s <= bestScore s)%Z ->
  exists s' w',
    run s actions w = Ok (s', w')
    /\ (score s' <= bestScore s')%Z
    /\ (bestScore s <= bestScore s')%Z.
Proof.
  intros H0 Hle.
  destruct (run_invariant
              (fun s' _ => (score s' <= bestScore s')%Z /\ (bestScore s <= bestScore s')%Z))
    with (actions := actions) (s := s) (w := w) as (s' & w' & Hrun & Hinv).
  - intros s1 a w1 s2 w2 [Hs Hb] Hstep.
    destruct (scoreInv_step _ _ _ _ _ Hstep) as [Hs2 Hb2]; lia.
  - lia.
  - exists s', w'. split; [exact Hrun|exact Hinv].
Qed.

(** *** The stored best score *)

Lemma storage_step s a w s' w' :
  reduce s a w = Ok (s', w') ->
  (forall k, k <> "bestScore" -> localStorage w' !! k = localStorage w !! k)
  /\ (isMatchSuccess a = false ->
        localStorage w' = localStorage w /\ bestScore s' = bestScore s)
  /\ (isMatchSuccess a = true ->
        localStorage w' !! "bestScore" = Some (pretty (bestScore s'))).
Proof.
  intros H.
  destruct a; reducer_inv H; fields;
    try (split; [intros k _; rewrite ?Hls; reflexivity|];
         split; [intros _; split; [solve [assumption|reflexivity]|]|discriminate];
         try pointerDown_cases;
         repeat match goal with
                | |- context [if ?b then _ else _] => destruct b; fields
                end;
         reflexivity).
  split; [intros k Hk; apply lookup_insert_ne; congruence|].
  split; [discriminate|]. intros _. apply lookup_insert_eq.
Qed.

(** X10. The reducer touches [localStorage] under the key [bestScore] only
    and through [MATCH_SUCCESS] only, and no other action changes the best
    score: after a sequence without a [MATCH_SUCCESS] both are what they were;
    after a sequence with one, the entry stored under [bestScore] is the best
    score of the final state, printed in decimal. *)
Theorem X10_best_score_is_stored (actions : list GameAction) (s : GameState) (w : World) :
  exists s' w',
    run s actions w = Ok (s', w')
    /\ (forall k, k <> "bestScore" -> localStorage w' !! k = localStorage w !! k)
    /\ (existsb isMatchSuccess actions = false ->
          localStorage w' = localStorage w /\ bestScore s' = bestScore s)
    /\ (existsb isMatchSuccess actions = true ->
          localStorage w' !! "bestScore" = Some (pretty (bestScore s'))).
Proof.
  revert s w. induction actions as [|a rest IH]; intros s w.
  - exists s, w. split; [reflexivity|]. split; [reflexivity|].
    split; [auto|discriminate].
  - destruct (gameReducer_total b0 k0 v0 s a w) as (s1 & w1 & H1).
    destruct (IH s1 w1) as (s' & w' & Hrun & Hother & Hnone & Hsome).
    destruct (storage_step _ _ _ _ _ H1) as (Hother1 & Hnone1 & Hsome1).
    exists s', w'. rewrite (run_cons _ _ _ _ _ _ H1). split; [exact Hrun|].
    split; [intros k Hk; rewrite (Hother k Hk); exact (Hother1 k Hk)|].
    cbn [existsb]. split.
    + intros Hno. apply orb_false_iff in Hno as [Ha Hrest].
      destruct (Hnone Hrest) as [-> ->]. exact (Hnone1 Ha).
    + intros Hyes. destruct (existsb isMatchSuccess rest) eqn:Hrest; [exact (Hsome eq_refl)|].
      rewrite orb_false_r in Hyes.
      destruct (Hnone eq_refl) as [-> ->]. exact (Hsome1 Hyes).
Qed.

(** *** Score and combo counters *)

Lemma counters_step s a w s' w' :
  reduce s a w = Ok (s', w') -> startsGame a = false ->
  comboCount s' = (comboCount s + (if isMatchSuccess a then 1 else 0))%Z
  /\ score s' = (score s + pointsOf a)%Z
  /\ config s' = config s.
Proof.
  intros H Hstart. destruct a; try discriminate Hstart; reducer_inv H;
    cbn [isMatchSuccess pointsOf]; fields;
    try pointerDown_cases;
    repeat match goal with
           | |- context [if ?b then _ else _] => destruct b; fields
           end;
    repeat split; first [reflexivity | lia].
Qed.

(** X11. Between two new games only [MATCH_SUCCESS] moves the counters.
    After a sequence of actions without [START_GAME] and [RESTART_GAME] the
    configuration is the same and, as long as the sums stay within the safe
    integers, where the additions of the source are exact, the combo count
    has grown by the number of [MATCH_SUCCESS] actions of the sequence,
    whatever happened in between (a [MATCH_FAILURE], ticks of the clock), and
    the score by the sum of their points. *)
Theorem X11_counters (actions : list GameAction) (s : GameState) (w : World) :
  existsb startsGame actions = false ->
  (Z.abs (score s) + sumZ ((fun a => Z.abs (pointsOf a)) <$> actions)
   <= MAX_SAFE_INTEGER)%Z ->
  (Z.abs (comboCount s) + Z.of_nat (length (List.filter isMatchSuccess actions))
   <= MAX_SAFE_INTEGER)%Z ->
  exists s' w',
    run s actions w = Ok (s', w')
    /\ comboCount s'
       = (comboCount s + Z.of_nat (length (List.filter isMatchSuccess actions)))%Z
    /\ score s' = (score s + sumZ (pointsOf <$> actions))%Z
    /\ safeInteger (comboCount s') /\ safeInteger (score s')
    /\ config s' = config s.
Proof.
  intros Hno Hscore Hcombo.
  assert (exists s' w',
             run s actions w = Ok (s', w')
             /\ comboCount s'
                = (comboCount s + Z.of_nat (length (List.filter isMatchSuccess actions)))%Z
             /\ score s' = (score s + sumZ (pointsOf <$> actions))%Z
             /\ config s' = config s) as (s' & w' & Hrun & Hc & Hs & Hcfg).
  { clear Hscore Hcombo. revert s w Hno.
    induction actions as [|a rest IH]; intros s w Hno.
    - exists s, w. split; [reflexivity|]. cbn. repeat split; lia.
    - cbn [existsb] in Hno. apply orb_false_iff in Hno as [Ha Hno].
      destruct (gameReducer_total b0 k0 v0 s a w) as (s1 & w1 & H1).
      destruct (IH s1 w1 Hno) as (s' & w' & Hrun & Hc & Hs & Hcfg).
      exists s', w'. rewrite (run_cons _ _ _ _ _ _ H1). split; [exact Hrun|].
      destruct (counters_step _ _ _ _ _ H1 Ha) as (Hc1 & Hs1 & Hcfg1).
      rewrite Hc, Hs, Hcfg, Hc1, Hs1, Hcfg1.
      cbn [List.filter fmap list_fmap sumZ fold_right].
      split; [|split; [unfold sumZ; lia|reflexivity]].
      destruct (isMatchSuccess a); cbn [length]; lia. }
  exists s', w'. split; [exact Hrun|]. split; [exact Hc|]. split; [exact Hs|].
  split; [|split; [|exact Hcfg]]; unfold safeInteger.
  - rewrite Hc. lia.
  - rewrite Hs.
    assert (Z.abs (sumZ (pointsOf <$> actions))
            <= sumZ ((fun a => Z.abs (pointsOf a)) <$> actions))%Z as Habs.
    { clear. induction actions as [|a rest IH]; [cbn; lia|].
      cbn [fmap list_fmap sumZ fold_right]. unfold sumZ in IH. cbn in IH |- *. lia. }
    lia.
Qed.

(** *** Tapping *)

Lemma filter_other_notin (p : Coords) (l : list Coords) :
  p ∉ l -> List.filter (fun c => negb (sameCoords c p)) l = l.
Proof.
  induction l as [|x l IH]; [reflexivity|]. intros Hp.
  apply not_elem_of_cons in Hp as [Hx Hl]. cbn.
  assert (sameCoords x p = false) as -> by (apply sameCoords_false; congruence).
  cbn. rewrite (IH Hl). reflexivity.
Qed.

Lemma elem_of_filter_other (p q : Coords) (l : list Coords) :
  q ∈ List.filter (fun c => negb (sameCoords c p)) l <-> q ∈ l /\ q <> p.
Proof.
  rewrite !list_elem_of_In, filter_In, negb_true_iff, sameCoords_false. reflexivity.
Qed.

Lemma set_selectedCoords_same s : set_selectedCoords (selectedCoords s) s = s.
Proof. destruct s; reflexivity. Qed.

(** X12. In tap mode, while the game is playing, a [POINTER_DOWN] on a
    cell toggles the membership of that cell in the selection and of no other
    cell; tapping a cell that was not selected twice gives back the state
    before the two taps. *)
Theorem X12_tap_toggles (s : GameState) (p : Coords) (w : World) :
  status s = Playing -> selectionMode (config s) = Tap ->
  exists s1,
    reduce s (POINTER_DOWN (Some p)) w = Ok (s1, w)
    /\ (p ∈ selectedCoords s1 <-> p ∉ selectedCoords s)
    /\ (forall q, q <> p -> (q ∈ selectedCoords s1 <-> q ∈ selectedCoords s))
    /\ (p ∉ selectedCoords s -> reduce s1 (POINTER_DOWN (Some p)) w = Ok (s, w)).
Proof.
  intros Hplay Htap. eexists. split; [reflexivity|]. unfold pointerDown.
  rewrite (bool_decide_eq_true_2 _ Hplay), (bool_decide_eq_true_2 _ Htap). cbn [negb].
  rewrite tap_filter_notin.
  destruct (existsb _ _) eqn:Hin; fields.
  - apply existsb_sameCoords in Hin. split; [|split].
    + rewrite elem_of_filter_other. tauto.
    + intros q Hq. rewrite elem_of_filter_other. tauto.
    + intros Hout. contradiction.
  - assert (p ∉ selectedCoords s) as Hout.
    { intros Hp. apply existsb_sameCoords in Hp. congruence. }
    split; [|split].
    + rewrite elem_of_app, list_elem_of_singleton. tauto.
    + intros q Hq. rewrite elem_of_app, list_elem_of_singleton. tauto.
    + intros _. cbn [gameReducer]. unfold ret, pointerDown. fields.
      rewrite (bool_decide_eq_true_2 _ Hplay), (bool_decide_eq_true_2 _ Htap). cbn [negb].
      assert (existsb (fun c => sameCoords c p) (selectedCoords s ++ [p]) = true) as ->.
      { apply existsb_sameCoords. rewrite elem_of_app, list_elem_of_singleton. tauto. }
      rewrite tap_filter_notin, List.filter_app, (filter_other_notin _ _ Hout).
      cbn [List.filter]. rewrite (proj2 (sameCoords_true p p) eq_refl). cbn [negb].
      rewrite app_nil_r. do 2 f_equal. destruct s; reflexivity.
Qed.

(** *** A new game *)

(** X14. [START_GAME] always succeeds and reads only the best score and
    the indicator preference of the old state: from any other state with the
    same two values it returns the same state.  The new game is playing with
    target 0, score 0, no combo, an empty selection and the initial time of the
    difficulty, on a full grid of number tiles of the difficulty's range, all
    of them marked as dropping.  [RESTART_GAME] is [START_GAME] with the
    current configuration. *)
Theorem X14_new_game (s : GameState) (cfg : StartGameConfig) (w : World) :
  exists s' w',
    reduce s (START_GAME cfg) w = Ok (s', w')
    /\ (forall t, bestScore t = bestScore s -> showValueIndicator t = showValueIndicator s ->
          reduce t (START_GAME cfg) w = Ok (s', w'))
    /\ reduce s RESTART_GAME w = reduce s (START_GAME (config s)) w
    /\ status s' = Playing /\ config s' = cfg
    /\ targetNumber s' = 0%Z /\ score s' = 0%Z /\ comboCount s' = 0%Z
    /\ selectedCoords s' = [] /\ isSelecting s' = false
    /\ timeLeft s' = initialTime (DIFFICULTY_SETTINGS (difficulty cfg))
    /\ bestScore s' = bestScore s
    /\ isGrid (board s') /\ numberBoard (board s') /\ validBoard (difficulty cfg) (board s')
    /\ droppingTileIds s' = list_to_set (boardIds (board s')).
Proof.
  destruct (createInitialBoard_spec (difficulty cfg) w)
    as (b & w' & Hrun & Hgrid & Hnum & Hvalid & _).
  assert (forall t, reduce t (START_GAME cfg) w
            = Ok (set_gameScreen GameScreenGame
                   (set_status Playing
                   (set_config cfg
                   (set_board b
                   (set_timeLeft (initialTime (DIFFICULTY_SETTINGS (difficulty cfg)))
                   (set_droppingTileIds (list_to_set (boardIds b))
                   (set_bestScore (bestScore t)
                   (set_showValueIndicator (showValueIndicator t) start))))))), w'))
    as Hnew.
  { intros t. rewrite reduce_START_GAME. unfold freshGame.
    rewrite (bind_Ok _ _ _ _ _ Hrun). reflexivity. }
  eexists _, w'. split; [apply Hnew|].
  split; [intros t Hb Hv; rewrite (Hnew t), Hb, Hv; reflexivity|].
  split; [rewrite reduce_START_GAME, reduce_RESTART_GAME; reflexivity|].
  fields. repeat (split; [first [reflexivity|assumption]|]). reflexivity.
Qed.

(** *** The clock *)

Lemma clock_step s a w s' w' :
  reduce s a w = Ok (s', w') ->
  (0 <= timeLeft s)%Z -> (0 <= bonusTimeOf a)%Z -> (0 <= timeLeft s')%Z.
Proof.
  intros H H0 Hbonus. destruct a; reducer_inv H; cbn [bonusTimeOf] in Hbonus; fields;
    try pointerDown_cases;
    repeat match goal with
           | |- context [if ?b then _ else _] => destruct b; fields
           end;
    try lia.
  all: match goal with
       | |- context [difficulty ?c] => destruct (difficulty c); cbn; lia
       end.
Qed.

(** X15. The clock never runs below zero: from a state with a non-negative
    [timeLeft], every sequence of actions whose [START_BONUS_FALL] actions add
    a non-negative time ends in a state with a non-negative [timeLeft]. *)
Theorem X15_clock_never_negative
    (actions : list GameAction) (s : GameState) (w : World) :
  (0 <= timeLeft s)%Z ->
  Forall (fun a => (0 <= bonusTimeOf a)%Z) actions ->
  exists s' w', run s actions w = Ok (s', w') /\ (0 <= timeLeft s')%Z.
Proof.
  intros H0 Hall. revert s w H0.
  induction Hall as [|a rest Ha _ IH]; intros s w H0.
  - exists s, w. split; [reflexivity|exact H0].
  - destruct (gameReducer_total b0 k0 v0 s a w) as (s1 & w1 & H1).
    destruct (IH s1 w1 (clock_step _ _ _ _ _ H1 H0 Ha)) as (s' & w' & Hrun & Hle).
    exists s', w'. rewrite (run_cons _ _ _ _ _ _ H1). split; assumption.
Qed.

(** *** Particles *)

Lemma noParticles_step s a w s' w' :
  reduce s a w = Ok (s', w') ->
  particles s = [] /\ numberParticles s = [] ->
  particles s' = [] /\ numberParticles s' = [].
Proof.
  intros H [Hp Hn]. destruct a; reducer_inv H; fields;
    try pointerDown_cases;
    repeat match goal with
           | |- context [if ?b then _ else _] => destruct b; fields
           end;
    rewrite ?Hp, ?Hn; split; reflexivity.
Qed.

(** X25. The reducer has no action that adds a particle: in every state
    reached from the initial state, [particles] and [numberParticles] are
    empty, and [REMOVE_PARTICLE] and [REMOVE_NUMBER_PARTICLE] change nothing. *)
Theorem X25_no_particles (actions : list GameAction) (w : World) :
  exists s w',
    run start actions w = Ok (s, w')
    /\ particles s = [] /\ numberParticles s = []
    /\ forall i,
         reduce s (REMOVE_PARTICLE i) w' = Ok (s, w')
         /\ reduce s (REMOVE_NUMBER_PARTICLE i) w' = Ok (s, w').
Proof.
  destruct (run_invariant (fun s _ => particles s = [] /\ numberParticles s = []))
    with (actions := actions) (s := start) (w := w) as (s & w' & Hrun & Hp & Hn).
  - intros s a w0 s' w' Hinv H. exact (noParticles_step _ _ _ _ _ H Hinv).
  - split; reflexivity.
  - exists s, w'. split; [exact Hrun|]. split; [exact Hp|]. split; [exact Hn|].
    intros i. cbn [gameReducer]. unfold ret. rewrite Hp, Hn. cbn [List.filter].
    split; do 2 f_equal; destruct s; cbn in Hp, Hn; subst; reflexivity.
Qed.

End MoreReducer.

Lemma X9_best_score_witness :
  exists s' w',
    dispatchAll 7 "combo-0" true (set_bestScore 12 (exampleState Playing 30 Tap))
      [MATCH_SUCCESS (-4) []; RESTART_GAME; MATCH_SUCCESS 3 []] exampleWorld = Ok (s', w')
    /\ (score s' <= bestScore s')%Z
    /\ (bestScore (set_bestScore 12 (exampleState Playing 30 Tap)) <= bestScore s')%Z.
Proof.
  apply (X9_best_score_bounds 7 "combo-0" true _
           (set_bestScore 12 (exampleState Playing 30 Tap)) exampleWorld).
  - change (0 <= 12)%Z. lia.
  - change (10 <= 12)%Z. lia.
Defined.

Lemma X11_counters_witness :
  exists s' w',
    dispatchAll 7 "combo-0" true (exampleState Playing 30 Tap)
      [MATCH_SUCCESS 8 [mkCoords 0 0; mkCoords 0 1]; TICK; MATCH_FAILURE;
       MATCH_SUCCESS 5 [mkCoords 1 0; mkCoords 2 0]] exampleWorld = Ok (s', w')
    /\ comboCount s' = (0 + 2)%Z
    /\ score s' = (10 + 13)%Z
    /\ safeInteger (comboCount s') /\ safeInteger (score s')
    /\ config s' = mkConfig Sum Banana Tap.
Proof.
  apply (X11_counters 7 "combo-0" true
           [MATCH_SUCCESS 8 [mkCoords 0 0; mkCoords 0 1]; TICK; MATCH_FAILURE;
            MATCH_SUCCESS 5 [mkCoords 1 0; mkCoords 2 0]]
           (exampleState Playing 30 Tap) exampleWorld).
  - reflexivity.
  - change (10 + 13 <= 2 ^ 53 - 1)%Z. lia.
  - change (0 + 2 <= 2 ^ 53 - 1)%Z. lia.
Defined.

Lemma X12_tap_toggles_witness :
  exists s1,
    gameReducer 7 "combo-0" true (exampleState Playing 30 Tap)
      (POINTER_DOWN (Some (mkCoords 1 2))) exampleWorld
    = Ok (s1, exampleWorld)
    /\ (mkCoords 1 2 ∈ selectedCoords s1
        <-> mkCoords 1 2 ∉ selectedCoords (exampleState Playing 30 Tap))
    /\ (forall q, q <> mkCoords 1 2 ->
          (q ∈ selectedCoords s1 <-> q ∈ selectedCoords (exampleState Playing 30 Tap)))
    /\ (mkCoords 1 2 ∉ selectedCoords (exampleState Playing 30 Tap) ->
          gameReducer 7 "combo-0" true s1 (POINTER_DOWN (Some (mkCoords 1 2))) exampleWorld
          = Ok (exampleState Playing 30 Tap, exampleWorld)).
Proof.
  apply (X12_tap_toggles 7 "combo-0" true (exampleState Playing 30 Tap) (mkCoords 1 2)
           exampleWorld);
    reflexivity.
Defined.

Lemma X15_clock_witness :
  exists s' w',
    dispatchAll 7 "combo-0" true (exampleState Playing 1 Tap)
      [TICK; TICK; START_BONUS_FALL ∅ 10; TICK] exampleWorld
    = Ok (s', w')
    /\ (0 <= timeLeft s')%Z.
Proof.
  apply (X15_clock_never_negative 7 "combo-0" true _ (exampleState Playing 1 Tap)
           exampleWorld).
  - change (0 <= 1)%Z. lia.
  - repeat constructor; cbn; lia.
Defined.

(** ** Properties of the controller *)

Example comboPoints_examples :
  comboPoints 10 0 = 10%Z /\ comboPoints 9 3 = 12%Z
  /\ comboPoints 5 14 = 13%Z /\ comboPoints 10 7 = 17%Z.
Proof. vm_compute. repeat split. Qed.

Section MoreController.

Variable b0 : Z.
Variable k0 : string.
Variable v0 : bool.
Variable soundMap : SoundHook -> option string.

Local Abbreviation reduce := (gameReducer b0 k0 v0).
Local Abbreviation run := (dispatchAll b0 k0 v0).

Lemma run_one s a w : run s [a] w = reduce s a w.
Proof.
  cbn [dispatchAll]. unfold bind.
  destruct (reduce s a w) as [[s1 w1]| |]; reflexivity.
Qed.

(** *** Announcements *)

Lemma filter_other_announcements (i : string) (l : list Announcement) :
  Forall (fun a => announcement_id a <> i) l ->
  List.filter (fun a => negb (bool_decide (announcement_id a = i))) l = l.
Proof.
  induction 1 as [|a l Ha _ IH]; [reflexivity|]. cbn.
  rewrite (bool_decide_eq_false_2 _ Ha). cbn. rewrite IH. reflexivity.
Qed.

(** X13. An announcement is added under the next identifier issued; the
    clean-up effect then asks for the removal of exactly that announcement,
    and when no older announcement carries the same identifier the removal
    gives back the state before the announcement. *)
Theorem X13_announcement_round_trip
    (s : GameState) (text : string) (style : option string) (w : World) :
  Forall (fun a => announcement_id a <> uuidSource w (issued w)) (announcements s) ->
  exists s1 w1,
    reduce s (ADD_ANNOUNCEMENT text style) w = Ok (s1, w1)
    /\ announcementCleanupEffect s1
       = [Dispatch (REMOVE_ANNOUNCEMENT (uuidSource w (issued w)))]
    /\ run s1 (dispatched (announcementCleanupEffect s1)) w1 = Ok (s, w1).
Proof.
  intros Hfresh. eexists _, _. split; [apply reduce_ADD_ANNOUNCEMENT|].
  assert (announcementCleanupEffect
            (set_announcements
               (announcements s
                ++ [mkAnnouncement text (styleOrDefault style) (uuidSource w (issued w))]) s)
          = [Dispatch (REMOVE_ANNOUNCEMENT (uuidSource w (issued w)))]) as Heffect.
  { unfold announcementCleanupEffect. fields.
    rewrite js_nth_app_last.
    destruct (Nat.ltb_spec 0
                (length (announcements s
                         ++ [mkAnnouncement text (styleOrDefault style)
                               (uuidSource w (issued w))]))) as [_|Hlen];
      [reflexivity|].
    rewrite length_app in Hlen. cbn in Hlen. lia. }
  split; [exact Heffect|]. rewrite Heffect. cbn [dispatched omap list_omap].
  rewrite run_one. cbn [gameReducer]. unfold ret. fields.
  rewrite List.filter_app, (filter_other_announcements _ _ Hfresh). cbn [List.filter].
  fields. rewrite (bool_decide_eq_true_2 _ eq_refl). cbn [negb]. rewrite app_nil_r.
  do 2 f_equal. destruct s; reflexivity.
Qed.

(** *** The clock and the end of the game *)

Lemma second_playing s w :
  status s = Playing -> (0 < timeLeft s)%Z ->
  second b0 k0 v0 s w
  = Ok (if (timeLeft s =? 1)%Z then set_status GameOver (set_timeLeft 0 s)
        else set_timeLeft (timeLeft s - 1) s, w).
Proof.
  intros Hplay Hpos. unfold second, timerEffect.
  rewrite (bool_decide_eq_true_2 _ Hplay). cbn [negb dispatched omap list_omap].
  rewrite (bind_Ok _ _ _ _ _ (eq_trans (run_one _ _ _) (tick_step b0 k0 v0 s w))).
  unfold gameOverEffect. fields. rewrite (bool_decide_eq_true_2 _ Hplay). cbn [andb].
  destruct (Z.leb_spec (Z.max 0 (timeLeft s - 1)) 0) as [Hle|Hgt].
  - assert (timeLeft s = 1%Z) as H1 by lia.
    rewrite (proj2 (Z.eqb_eq _ _) H1). cbn [dispatched omap list_omap].
    rewrite run_one. cbn [gameReducer]. unfold ret.
    replace (Z.max 0 (timeLeft s - 1)) with 0%Z by lia. reflexivity.
  - assert (timeLeft s <> 1%Z) as H1 by lia.
    rewrite (proj2 (Z.eqb_neq _ _) H1). cbn [dispatched omap list_omap dispatchAll].
    unfold ret. do 3 f_equal. lia.
Qed.

Lemma second_stopped s w :
  status s <> Playing -> second b0 k0 v0 s w = Ok (s, w).
Proof.
  intros Hstop. unfold second, timerEffect, gameOverEffect.
  rewrite (bool_decide_eq_false_2 _ Hstop). cbn [negb dispatched omap list_omap dispatchAll].
  unfold bind, ret. rewrite (bool_decide_eq_false_2 _ Hstop). reflexivity.
Qed.

Lemma seconds_stopped n s w :
  status s <> Playing -> seconds b0 k0 v0 n s w = Ok (s, w).
Proof.
  intros Hstop. induction n as [|n IH]; [reflexivity|].
  cbn [seconds]. rewrite (bind_Ok _ _ _ _ _ (second_stopped s w Hstop)). exact IH.
Qed.

(** X16. A playing game with [t > 0] seconds left that receives no input
    is still playing after fewer than [t] seconds, with the clock down by the
    seconds elapsed, and is over from second [t] on, with the clock at zero:
    the game ends with the tick that brings the clock to zero, and the clock
    stops there.  Score and board are untouched. *)
Theorem X16_countdown_to_game_over (n : nat) (s : GameState) (w : World) :
  status s = Playing -> (0 < timeLeft s)%Z ->
  exists s',
    seconds b0 k0 v0 n s w = Ok (s', w)
    /\ ((Z.of_nat n < timeLeft s)%Z ->
          status s' = Playing /\ timeLeft s' = (timeLeft s - Z.of_nat n)%Z)
    /\ ((timeLeft s <= Z.of_nat n)%Z -> status s' = GameOver /\ timeLeft s' = 0%Z)
    /\ score s' = score s /\ board s' = board s.
Proof.
  revert s. induction n as [|n IH]; intros s Hplay Hpos.
  - exists s. split; [reflexivity|]. split; [intros _; split; [exact Hplay|lia]|].
    split; [lia|]. split; reflexivity.
  - cbn [seconds]. rewrite (bind_Ok _ _ _ _ _ (second_playing s w Hplay Hpos)).
    destruct (Z.eqb_spec (timeLeft s) 1) as [H1|H1].
    + rewrite seconds_stopped by (fields; discriminate).
      eexists. split; [reflexivity|]. fields.
      split; [lia|]. split; [intros _; split; reflexivity|]. split; reflexivity.
    + destruct (IH (set_timeLeft (timeLeft s - 1) s)) as (s' & Hrun & Hbefore & Hafter & Hs & Hb).
      { exact Hplay. }
      { fields. lia. }
      exists s'. split; [exact Hrun|]. cbn [timeLeft set_timeLeft] in Hbefore, Hafter.
      split; [intros Hlt; destruct Hbefore as [-> ->]; [lia|split; [reflexivity|lia]]|].
      split; [intros Hge; apply Hafter; lia|]. split; assumption.
Qed.

(** *** The verdict on a selection *)

Lemma sum_number_cells (b : Board) (coords : list Coords) :
  fold_left (fun sum tile => (sum + cell_number tile)%Z)
    (List.filter isNumberCell (map (fun c => cellAt b (row c) (col c)) coords)) 0%Z
  = calculateSelectionValue coords b Sum.
Proof.
  unfold calculateSelectionValue.
  destruct (List.filter isNumberCell _) as [|x l]; reflexivity.
Qed.

Lemma mapO_readCell (b : Board) (coords : list Coords) :
  rowsExist b coords ->
  mapO (fun c => readCell b (row c) (col c)) coords
  = Ok (map (fun c => cellAt b (row c) (col c)) coords).
Proof.
  intros Hrows. apply mapO_pure. eapply Forall_impl; [exact Hrows|].
  cbn beta. intros c Hc. apply readCell_cellAt. exact Hc.
Qed.

Lemma existsb_number (b : Board) (coords : list Coords) :
  Exists (fun c => isNumberCell (cellAt b (row c) (col c)) = true) coords ->
  existsb (fun c => isNumberCell (cellAt b (row c) (col c))) coords = true
  /\ (length coords =? 0)%nat = false.
Proof.
  intros Hex. split.
  - apply existsb_exists. apply Exists_exists in Hex as (c & Hin & Hc).
    exists c. split; [apply list_elem_of_In; exact Hin|exact Hc].
  - destruct Hex; reflexivity.
Qed.

Lemma dispatched_success (s : GameState) (points : Z) :
  dispatched (successEmissions soundMap s points)
  = comboAnnouncement (comboCount s) ++ [MATCH_SUCCESS points (selectedCoords s)].
Proof.
  unfold successEmissions, comboAnnouncement.
  destruct (Z.ltb_spec 0 (comboCount s)) as [Hpos|Hneg]; cbn [andb]; [|reflexivity].
  rewrite Z.rem_mod_nonneg by lia.
  destruct (_ =? 0)%Z; reflexivity.
Qed.

Lemma checkMatch_decided (s : GameState) :
  rowsExist (board s) (selectedCoords s) ->
  Exists (fun c => isNumberCell (cellAt (board s) (row c) (col c)) = true)
    (selectedCoords s) ->
  checkMatch soundMap s
  = Ok (if (calculateSelectionValue (selectedCoords s) (board s) (mode (config s))
            =? targetNumber s)%Z
        then successEmissions soundMap s
               (comboPoints (calculateSelectionValue (selectedCoords s) (board s) Sum)
                  (comboCount s))
        else if bool_decide (selectionMode (config s) = Tap)
                && (targetNumber s
                    <? calculateSelectionValue (selectedCoords s) (board s)
                         (mode (config s)))%Z
        then [PlaySound SfxError; Dispatch MATCH_FAILURE]
        else if bool_decide (selectionMode (config s) = Drag) && negb (isSelecting s)
        then [PlaySound SfxError; Dispatch MATCH_FAILURE]
        else []).
Proof.
  intros Hrows Hnum. destruct (existsb_number _ _ Hnum) as [Hex Hlen].
  unfold checkMatch. cbv zeta. rewrite Hlen, Hex. cbn [negb].
  destruct (_ =? targetNumber s)%Z.
  - rewrite (mapO_readCell _ _ Hrows). cbn [obind]. rewrite sum_number_cells. reflexivity.
  - cbn [negb]. rewrite andb_true_r.
    destruct (_ && _); [reflexivity|]. destruct (_ && _); reflexivity.
Qed.

Lemma matchEffect_deciding (s : GameState) :
  status s = Playing -> deciding s ->
  matchEffect soundMap s = checkMatch soundMap s.
Proof.
  intros Hplay Hdec. unfold matchEffect.
  rewrite (bool_decide_eq_true_2 _ Hplay). cbn [negb].
  destruct (selectionMode (config s)) eqn:Hmode.
  - destruct Hdec as [Htap|Hsel]; [congruence|]. rewrite Hsel.
    rewrite bool_decide_eq_false_2 by discriminate.
    rewrite bool_decide_eq_true_2 by reflexivity. cbn [negb andb obind].
    destruct (checkMatch soundMap s); reflexivity.
  - rewrite bool_decide_eq_true_2 by reflexivity.
    rewrite bool_decide_eq_false_2 by discriminate. cbn [andb].
    destruct (checkMatch soundMap s) as [es| |]; cbn [obind]; [|reflexivity..].
    rewrite app_nil_r. reflexivity.
Qed.

(** X17. When the match effect judges a selection that holds a number
    tile and whose coordinates name rows of the board, it dispatches: on a
    value equal to the target, a [MATCH_SUCCESS] that clears the selection,
    preceded by the combo announcement on every third match in a row, with
    points computed from the sum of the selected numbers in both game modes;
    on a value above the target, one [MATCH_FAILURE]; on a value below the
    target, nothing in tap mode and one [MATCH_FAILURE] in drag mode. *)
Theorem X17_match_verdict (s : GameState) :
  status s = Playing -> deciding s ->
  rowsExist (board s) (selectedCoords s) ->
  Exists (fun c => isNumberCell (cellAt (board s) (row c) (col c)) = true)
    (selectedCoords s) ->
  exists es,
    matchEffect soundMap s = Ok es
    /\ (calculateSelectionValue (selectedCoords s) (board s) (mode (config s))
        = targetNumber s ->
          dispatched es
          = comboAnnouncement (comboCount s)
            ++ [MATCH_SUCCESS
                  (comboPoints (calculateSelectionValue (selectedCoords s) (board s) Sum)
                     (comboCount s))
                  (selectedCoords s)])
    /\ ((targetNumber s
         < calculateSelectionValue (selectedCoords s) (board s) (mode (config s)))%Z ->
          dispatched es = [MATCH_FAILURE])
    /\ ((calculateSelectionValue (selectedCoords s) (board s) (mode (config s))
         < targetNumber s)%Z ->
          dispatched es
          = if bool_decide (selectionMode (config s) = Tap) then [] else [MATCH_FAILURE]).
Proof.
  intros Hplay Hdec Hrows Hnum. eexists.
  rewrite (matchEffect_deciding s Hplay Hdec), (checkMatch_decided s Hrows Hnum).
  split; [reflexivity|].
  destruct (Z.eqb_spec
              (calculateSelectionValue (selectedCoords s) (board s) (mode (config s)))
              (targetNumber s)) as [Heq|Hneq].
  { split; [intros _; apply dispatched_success|]. split; lia. }
  split; [contradiction|].
  destruct (Z.ltb_spec (targetNumber s)
              (calculateSelectionValue (selectedCoords s) (board s) (mode (config s))))
    as [Hgt|Hle].
  - split; [|lia]. intros _.
    destruct (selectionMode (config s)) eqn:Hmode.
    + destruct Hdec as [Htap|Hsel]; [congruence|]. rewrite Hsel. reflexivity.
    + reflexivity.
  - split; [lia|]. intros _. rewrite andb_false_r.
    destruct (selectionMode (config s)) eqn:Hmode.
    + destruct Hdec as [Htap|Hsel]; [congruence|]. rewrite Hsel. reflexivity.
    + reflexivity.
Qed.

(** *** A selection that leaves the board *)

Lemma mapO_TypeError {A B} (f : A -> Outcome B) (l : list A) :
  Forall (fun x => f x <> OutOfFuel) l ->
  Exists (fun x => f x = TypeError) l ->
  mapO f l = TypeError.
Proof.
  intros Hall Hex. induction Hex as [x l Hx|x l _ IH].
  - cbn [mapO]. rewrite Hx. reflexivity.
  - apply Forall_cons in Hall as [Hx Hl]. cbn [mapO].
    destruct (f x); [|reflexivity|contradiction]. cbn [obind]. rewrite (IH Hl). reflexivity.
Qed.

(** X18. [checkMatch] recognises a match through [board[row]?.[col]] but
    then reads the matched tiles through [board[row][col]]: when the value of
    the selection equals the target and one selected coordinate names a row
    that the board does not have, the match effect throws a [TypeError]
    instead of dispatching [MATCH_SUCCESS]. *)
Theorem X18_match_outside_board (s : GameState) :
  status s = Playing -> deciding s ->
  Exists (fun c => isNumberCell (cellAt (board s) (row c) (col c)) = true)
    (selectedCoords s) ->
  calculateSelectionValue (selectedCoords s) (board s) (mode (config s)) = targetNumber s ->
  Exists (fun c => js_nth (board s) (row c) = None) (selectedCoords s) ->
  matchEffect soundMap s = TypeError.
Proof.
  intros Hplay Hdec Hnum Hval Hmiss. destruct (existsb_number _ _ Hnum) as [Hex Hlen].
  rewrite (matchEffect_deciding s Hplay Hdec). unfold checkMatch. cbv zeta.
  rewrite Hlen, Hex, Hval, Z.eqb_refl. cbn [negb].
  rewrite mapO_TypeError; [reflexivity| |].
  - apply Forall_forall. intros c _. unfold readCell.
    destruct (js_nth (board s) (row c)); discriminate.
  - eapply Exists_impl; [exact Hmiss|]. cbn beta. intros c Hc.
    unfold readCell. rewrite Hc. reflexivity.
Qed.

(** *** After the verdict *)

Lemma checkMatch_shapes (s : GameState) (es : list Emission) :
  checkMatch soundMap s = Ok es ->
  es = []
  \/ dispatched es = [MATCH_FAILURE]
  \/ exists points, es = successEmissions soundMap s points.
Proof.
  unfold checkMatch. cbv zeta.
  destruct (_ =? 0)%nat; [intros [= <-]; auto|].
  destruct (negb _).
  { destruct (_ && _); intros [= <-]; auto. }
  destruct (_ =? targetNumber s)%Z.
  { destruct (mapO _ _) as [tiles| |]; cbn [obind]; [|discriminate..].
    intros [= <-]. right; right. eexists. reflexivity. }
  destruct (_ && _); [intros [= <-]; auto|].
  destruct (_ && _); intros [= <-]; auto.
Qed.

Lemma matchEffect_inv (s : GameState) (es : list Emission) :
  matchEffect soundMap s = Ok es -> es <> [] ->
  status s = Playing /\ checkMatch soundMap s = Ok es.
Proof.
  unfold matchEffect. destruct (bool_decide_reflect (status s = Playing)) as [Hplay|Hstop];
    cbn [negb]; [|intros [= <-]; contradiction].
  intros H Hne. split; [exact Hplay|].
  destruct (selectionMode (config s)).
  - rewrite bool_decide_eq_false_2 in H by discriminate.
    rewrite bool_decide_eq_true_2 in H by reflexivity. cbn [andb obind] in H.
    destruct (negb (isSelecting s)); [|injection H as <-; contradiction].
    destruct (checkMatch soundMap s) as [ds| |]; cbn [obind] in H; [|discriminate..].
    exact H.
  - rewrite bool_decide_eq_true_2 in H by reflexivity.
    rewrite bool_decide_eq_false_2 in H by discriminate. cbn [andb] in H.
    destruct (checkMatch soundMap s) as [ts| |]; cbn [obind] in H; [|discriminate..].
    rewrite app_nil_r in H. exact H.
Qed.

Lemma matchEffect_empty_selection (s : GameState) :
  selectedCoords s = [] -> matchEffect soundMap s = Ok [].
Proof.
  intros Hsel. unfold matchEffect, checkMatch. cbv zeta. rewrite Hsel. cbn [length Nat.eqb].
  destruct (negb _); [reflexivity|].
  destruct (bool_decide _); destruct (_ && _); reflexivity.
Qed.

Lemma matchEffect_not_playing (s : GameState) :
  status s <> Playing -> matchEffect soundMap s = Ok [].
Proof.
  intros Hstop. unfold matchEffect. rewrite (bool_decide_eq_false_2 _ Hstop). reflexivity.
Qed.

(** X19. Whatever the match effect emits, dispatching its actions leaves
    a state on which the effect emits nothing more: the selection is empty and
    the board untouched, and either the match was a success, the state is
    clearing the cells that were selected and the combo count is one higher, or
    it was a failure and the game goes on with score and combo count as
    before. *)
Theorem X19_match_effect_settles (s : GameState) (es : list Emission) (w : World) :
  matchEffect soundMap s = Ok es -> es <> [] ->
  exists s' w',
    run s (dispatched es) w = Ok (s', w')
    /\ selectedCoords s' = [] /\ board s' = board s
    /\ matchEffect soundMap s' = Ok []
    /\ ((status s' = Clearing /\ clearingCoords s' = selectedCoords s
         /\ comboCount s' = (comboCount s + 1)%Z)
        \/ (status s' = Playing /\ comboCount s' = comboCount s /\ score s' = score s)).
Proof.
  intros H Hne. destruct (matchEffect_inv s es H Hne) as [Hplay Hcheck].
  destruct (checkMatch_shapes s es Hcheck) as [->|[Hfail|[points ->]]]; [contradiction| |].
  - rewrite Hfail, run_one, reduce_MATCH_FAILURE. eexists _, _. split; [reflexivity|].
    fields. split; [reflexivity|]. split; [reflexivity|].
    split; [apply matchEffect_empty_selection; reflexivity|]. right. auto.
  - rewrite dispatched_success. unfold comboAnnouncement.
    destruct (_ && _); cbn [app].
    + erewrite run_cons by apply reduce_ADD_ANNOUNCEMENT.
      rewrite run_one, reduce_MATCH_SUCCESS. eexists _, _. split; [reflexivity|].
      fields. split; [reflexivity|]. split; [reflexivity|].
      split; [apply matchEffect_not_playing; fields; discriminate|]. left. auto.
    + rewrite run_one, reduce_MATCH_SUCCESS. eexists _, _. split; [reflexivity|].
      fields. split; [reflexivity|]. split; [reflexivity|].
      split; [apply matchEffect_not_playing; fields; discriminate|]. left. auto.
Qed.

(** *** Clearing the matched cells *)

Lemma clearCell_writeCell (b : Board) (p : Coords) :
  (0 <= col p)%Z -> clearCell b p = writeCell b (row p) (Z.to_nat (col p)) Null.
Proof.
  intros Hc. unfold clearCell, writeCell, js_setZ.
  destruct (Z.ltb_spec (col p) 0) as [Hneg|_]; [lia|]. reflexivity.
Qed.

Lemma clearedColumn_nil (c : nat) (cells : list Cell) : clearedColumn [] c cells = cells.
Proof.
  unfold clearedColumn. apply list_eq. intros r.
  rewrite list_lookup_imap. destruct (cells !! r); reflexivity.
Qed.

Lemma clearedColumn_cons_same (p : Coords) (rest : list Coords) (cells : list Cell) :
  (0 <= row p)%Z -> (0 <= col p)%Z ->
  clearedColumn rest (Z.to_nat (col p)) (<[Z.to_nat (row p) := Null]> cells)
  = clearedColumn (p :: rest) (Z.to_nat (col p)) cells.
Proof.
  intros Hr Hc. unfold clearedColumn. apply list_eq. intros r.
  rewrite !list_lookup_imap. unfold listed. cbn [existsb].
  destruct (decide (r = Z.to_nat (row p))) as [->|Hne].
  - assert (sameCoords p (mkCoords (Z.of_nat (Z.to_nat (row p)))
                            (Z.of_nat (Z.to_nat (col p)))) = true) as ->.
    { apply sameCoords_true. destruct p as [pr pc]. cbn in *. f_equal; lia. }
    cbn [orb]. destruct (cells !! Z.to_nat (row p)) as [x|] eqn:Hx.
    + rewrite list_lookup_insert_eq by (eapply lookup_lt_Some; exact Hx). cbn.
      destruct (existsb _ rest); reflexivity.
    + rewrite (proj2 (list_lookup_insert_None _ _ _ _) Hx). reflexivity.
  - rewrite list_lookup_insert_ne by congruence.
    assert (sameCoords p (mkCoords (Z.of_nat r) (Z.of_nat (Z.to_nat (col p)))) = false) as ->.
    { apply sameCoords_false. intros Heq. rewrite Heq in Hne. cbn in Hne. lia. }
    reflexivity.
Qed.

Lemma clearedColumn_cons_other (p : Coords) (rest : list Coords) (c : nat)
    (cells : list Cell) :
  c <> Z.to_nat (col p) ->
  (0 <= col p)%Z ->
  clearedColumn rest c cells = clearedColumn (p :: rest) c cells.
Proof.
  intros Hne Hc. unfold clearedColumn. apply list_eq. intros r.
  rewrite !list_lookup_imap. unfold listed. cbn [existsb].
  assert (sameCoords p (mkCoords (Z.of_nat r) (Z.of_nat c)) = false) as ->.
  { apply sameCoords_false. intros Heq. rewrite Heq in Hne. cbn in Hne. lia. }
  reflexivity.
Qed.

Lemma clearCells_grid (coords : list Coords) : forall b : Board,
  isGrid b -> Forall (fun p => inBounds (Z.of_nat GRID_SIZE) p = true) coords ->
  exists b',
    clearCells b coords = Ok b'
    /\ isGrid b'
    /\ forall c, column b' c = clearedColumn coords c (column b c).
Proof.
  induction coords as [|p rest IH]; intros b Hgrid Hall.
  - exists b. split; [reflexivity|]. split; [exact Hgrid|].
    intros c. rewrite clearedColumn_nil. reflexivity.
  - apply Forall_cons in Hall as [Hp Hrest]. apply inBounds_spec in Hp as [Hr Hc].
    destruct (writeCell_grid b (Z.to_nat (row p)) (Z.to_nat (col p)) Null Hgrid)
      as (b1 & Hwrite & Hgrid1 & Hsame & Hother); [lia..|].
    rewrite Z2Nat.id in Hwrite by lia.
    destruct (IH b1 Hgrid1 Hrest) as (b' & Hrun & Hgrid' & Hcols).
    exists b'. cbn [clearCells]. rewrite clearCell_writeCell, Hwrite by lia. cbn [obind].
    split; [exact Hrun|]. split; [exact Hgrid'|].
    intros c. rewrite Hcols.
    destruct (decide (c = Z.to_nat (col p))) as [->|Hne].
    + rewrite Hsame. apply clearedColumn_cons_same; lia.
    + rewrite (Hother c Hne). apply clearedColumn_cons_other; [exact Hne|lia].
Qed.

Lemma Forall_of_columns (P : Cell -> Prop) (b : Board) :
  isGrid b -> (forall c, c < GRID_SIZE -> Forall P (column b c)) -> Forall (Forall P) b.
Proof.
  intros Hgrid Hcols. apply Forall_lookup_2D. intros r c line x Hline Hx.
  assert (c < GRID_SIZE) as Hc.
  { destruct Hgrid as [_ Hlines]. rewrite Forall_forall in Hlines.
    rewrite <- (Hlines line); [|eapply list_elem_of_lookup_2; exact Hline].
    eapply lookup_lt_Some. exact Hx. }
  pose proof (grid_cell_in_column _ _ _ _ _ Hline Hx) as Hin.
  specialize (Hcols c Hc). rewrite Forall_forall in Hcols. apply Hcols.
  eapply list_elem_of_lookup_2. exact Hin.
Qed.

Lemma columns_of_Forall (P : Cell -> Prop) (b : Board) (c : nat) :
  isGrid b -> c < GRID_SIZE -> Forall (Forall P) b -> Forall P (column b c).
Proof.
  intros Hgrid Hc Hall. apply Forall_lookup. intros r x Hx.
  unfold column in Hx. rewrite list_lookup_fmap in Hx.
  destruct (b !! r) as [line|] eqn:Hline; [|discriminate]. injection Hx as <-.
  assert (c < length line) as Hlt.
  { destruct Hgrid as [_ Hlines]. rewrite Forall_forall in Hlines.
    rewrite (Hlines line); [exact Hc|]. eapply list_elem_of_lookup_2. exact Hline. }
  destruct (lookup_lt_is_Some_2 line c Hlt) as [y Hy]. rewrite Hy. cbn [default].
  exact (Forall2D_lookup P b r c line y Hall Hline Hy).
Qed.

Lemma filter_truthy (f : Cell -> bool) (l : list Cell) :
  Forall (fun x => isTruthy x = true \/ f x = false) l ->
  Forall (fun x => isTruthy x = true) (List.filter f l).
Proof.
  intros Hall. apply Forall_forall. intros x Hx.
  apply list_elem_of_In, filter_In in Hx as [Hx Hfx]. apply list_elem_of_In in Hx.
  rewrite Forall_forall in Hall. destruct (Hall x Hx) as [H|H]; [exact H|congruence].
Qed.

Lemma clearedColumn_truthy (coords : list Coords) (c : nat) (cells : list Cell) :
  Forall (fun x => isTruthy x = true) cells ->
  Forall (fun x => isTruthy x = true \/ nonNull x = false) (clearedColumn coords c cells).
Proof.
  intros Hall. apply Forall_lookup. intros r x Hx.
  unfold clearedColumn in Hx. rewrite list_lookup_imap in Hx.
  destruct (cells !! r) as [y|] eqn:Hy; [|discriminate]. injection Hx as <-.
  destruct (listed coords r c); [right; reflexivity|].
  left. rewrite Forall_forall in Hall. apply Hall. eapply list_elem_of_lookup_2. exact Hy.
Qed.

Lemma fresh_truthy (tiles : list TileType) :
  Forall (fun x => isTruthy x = true) (Tile <$> tiles).
Proof. apply Forall_fmap, Forall_true. intros t. reflexivity. Qed.

Lemma clearing_effect_spec (s : GameState) (w : World) :
  status s = Clearing -> clearingCoords s <> [] ->
  isGrid (board s) ->
  Forall (fun p => inBounds (Z.of_nat GRID_SIZE) p = true) (clearingCoords s) ->
  exists fresh r w',
    clearingEffect s w = Ok ([Dispatch (FINISH_CLEARING (nextBoard r) (droppedIds r))], w')
    /\ isGrid (nextBoard r)
    /\ (forall c, c < GRID_SIZE ->
          column (nextBoard r) c
          = (Tile <$> fresh c)
            ++ List.filter nonNull
                 (clearedColumn (clearingCoords s) c (column (board s) c)))
    /\ droppedIds r = list_to_set (freshIds fresh 0 GRID_SIZE)
    /\ (validBoard (difficulty (config s)) (board s) ->
          validBoard (difficulty (config s)) (nextBoard r))
    /\ (fullBoard (board s) -> fullBoard (nextBoard r)).
Proof.
  intros Hstatus Hcoords Hgrid Hin.
  destruct (clearCells_grid _ _ Hgrid Hin) as (b1 & Hclear & Hgrid1 & Hcols).
  destruct (applyGravity_spec b1 (mode (config s)) (difficulty (config s)) w Hgrid1)
    as (fresh & r & w' & Hrun & Hgrid' & Hfall & Hids & _).
  exists fresh, r, w'. unfold clearingEffect.
  rewrite (bool_decide_eq_true_2 _ Hstatus).
  assert ((0 <? length (clearingCoords s))%nat = true) as ->.
  { apply Nat.ltb_lt. destruct (clearingCoords s); [contradiction|cbn; lia]. }
  cbn [andb]. rewrite (bind_Ok _ _ _ _ _ (lift_Ok _ _ w Hclear)).
  rewrite (bind_Ok _ _ _ _ _ Hrun).
  assert (forall c, c < GRID_SIZE ->
            column (nextBoard r) c
            = (Tile <$> fresh c)
              ++ List.filter nonNull
                   (clearedColumn (clearingCoords s) c (column (board s) c))) as Hcolumns.
  { intros c Hc. rewrite (Hfall c Hc), Hcols. reflexivity. }
  split; [reflexivity|]. split; [exact Hgrid'|]. split; [exact Hcolumns|].
  split; [exact Hids|]. split.
  - intros Hvalid.
    eapply (applyGravity_Forall (validCell (difficulty (config s))) I I
              (difficulty (config s)) (fun t H => H)); [|exact Hrun].
    apply Forall_of_columns; [exact Hgrid1|]. intros c Hc. rewrite Hcols.
    apply Forall_lookup. intros i x Hx. unfold clearedColumn in Hx.
    rewrite list_lookup_imap in Hx.
    destruct (column (board s) c !! i) as [y|] eqn:Hy; [|discriminate]. injection Hx as <-.
    destruct (listed _ _ _); [exact I|].
    pose proof (columns_of_Forall _ _ c Hgrid Hc Hvalid) as Hcol.
    rewrite Forall_forall in Hcol. apply Hcol. eapply list_elem_of_lookup_2. exact Hy.
  - intros Hfull. apply Forall_of_columns; [exact Hgrid'|]. intros c Hc.
    rewrite (Hcolumns c Hc). apply Forall_app. split; [apply fresh_truthy|].
    apply filter_truthy, clearedColumn_truthy.
    exact (columns_of_Forall _ _ c Hgrid Hc Hfull).
Qed.

(** X20. In a clearing state on a grid, with matched coordinates inside
    the grid, the clearing effect dispatches one [FINISH_CLEARING] whose board
    is a grid again: each column holds its tiles that were not matched, in
    their order, at the bottom, below new tiles, and the identifiers reported
    as dropped are those of the new tiles.  Tile values stay in the range of
    the difficulty, and a board without an empty cell comes back without an
    empty cell. *)
Theorem X20_clearing_effect (s : GameState) (w : World) :
  status s = Clearing -> clearingCoords s <> [] ->
  isGrid (board s) ->
  Forall (fun p => inBounds (Z.of_nat GRID_SIZE) p = true) (clearingCoords s) ->
  exists fresh r w',
    clearingEffect s w = Ok ([Dispatch (FINISH_CLEARING (nextBoard r) (droppedIds r))], w')
    /\ isGrid (nextBoard r)
    /\ (forall c, c < GRID_SIZE ->
          column (nextBoard r) c
          = (Tile <$> fresh c)
            ++ List.filter nonNull
                 (clearedColumn (clearingCoords s) c (column (board s) c)))
    /\ droppedIds r = list_to_set (freshIds fresh 0 GRID_SIZE)
    /\ (validBoard (difficulty (config s)) (board s) ->
          validBoard (difficulty (config s)) (nextBoard r))
    /\ (fullBoard (board s) -> fullBoard (nextBoard r)).
Proof. exact (clearing_effect_spec s w). Qed.

Lemma size_list_to_set_le (l : list string) :
  size (list_to_set l : gset string) <= length l.
Proof.
  induction l as [|x l IH]; [rewrite list_to_set_nil, size_empty; cbn; lia|].
  rewrite list_to_set_cons, size_union_alt, size_singleton. cbn [length].
  pose proof (subseteq_size (list_to_set l ∖ {[x]}) (list_to_set l : gset string)
                ltac:(set_solver)).
  lia.
Qed.

Lemma length_omap_le {A B} (f : A -> option B) (l : list A) :
  length (omap f l) <= length l.
Proof.
  induction l as [|x l IH]; [reflexivity|]. cbn [omap list_omap length] in *.
  destruct (f x); cbn [length]; lia.
Qed.

Lemma bottomTimeIds_size (b : Board) : size (bottomTimeIds b) <= GRID_SIZE.
Proof.
  unfold bottomTimeIds.
  etransitivity; [apply size_list_to_set_le|].
  etransitivity; [apply length_omap_le|]. rewrite length_seq. reflexivity.
Qed.

(** *** The end of a turn *)

Section Targets.

Variable sort : list Cell -> Eff (list Cell).
Variable fuel : nat.
Hypothesis sort_rearranges : rearranges sort.
Hypothesis sort_steady : forall l, keepsEntropy (sort l).

Lemma removeBonuses_grid (ids : gset string) (b : Board) :
  isGrid b -> isGrid (removeBonuses ids b).
Proof.
  intros [Hrows Hcols]. unfold removeBonuses. split; [rewrite length_map; exact Hrows|].
  rewrite Forall_map. eapply Forall_impl; [exact Hcols|].
  cbn beta. intros line Hline. rewrite length_map. exact Hline.
Qed.

Lemma removeBonuses_valid (d : Difficulty) (ids : gset string) (b : Board) :
  validBoard d b -> validBoard d (removeBonuses ids b).
Proof.
  intros Hvalid. unfold validBoard, removeBonuses.
  rewrite Forall_map. eapply Forall_impl; [exact Hvalid|].
  cbn beta. intros line Hline. rewrite Forall_map. eapply Forall_impl; [exact Hline|].
  cbn beta. intros x Hx. destruct (bool_decide _); [exact I|exact Hx].
Qed.

Lemma removeBonuses_column (ids : gset string) (b : Board) (c : nat) :
  isGrid b -> c < GRID_SIZE ->
  column (removeBonuses ids b) c
  = (fun x => if bool_decide (idOrEmpty x ∈ ids) then Null else x) <$> column b c.
Proof.
  intros Hgrid Hc. unfold column, removeBonuses. apply list_eq. intros r.
  rewrite !list_lookup_fmap.
  destruct (b !! r) as [line|] eqn:Hline; [|reflexivity]. cbn [fmap option_fmap option_map].
  f_equal. rewrite list_lookup_fmap.
  destruct (line !! c) as [x|] eqn:Hx; [reflexivity|].
  exfalso. apply lookup_ge_None in Hx.
  destruct Hgrid as [_ Hcols]. rewrite Forall_forall in Hcols.
  specialize (Hcols line (list_elem_of_lookup_2 _ _ _ Hline)). lia.
Qed.

Lemma filter_removed (ids : gset string) (l : list Cell) :
  List.filter nonNull ((fun x => if bool_decide (idOrEmpty x ∈ ids) then Null else x) <$> l)
  = List.filter (fun x => nonNull x && negb (bool_decide (idOrEmpty x ∈ ids))) l.
Proof.
  induction l as [|x l IH]; [reflexivity|]. cbn [fmap list_fmap List.filter].
  change (list_fmap _ _ ?f l) with (f <$> l). rewrite IH.
  destruct (bool_decide (idOrEmpty x ∈ ids)); cbn [nonNull isNull negb andb].
  - rewrite andb_false_r. reflexivity.
  - rewrite andb_true_r. destruct (nonNull x); reflexivity.
Qed.

(** One run of the timer callback of the falling effect, on draws that visit
    the whole grid. *)
Lemma fallingCallback_spec (b : Board) (cfg : StartGameConfig) (w0 w : World) :
  thoroughDraws fuel w0 -> entropy w = entropy w0 ->
  isGrid b -> validBoard (difficulty cfg) b ->
  exists es installed w',
    fallingCallback sort fuel b cfg w = Ok ((es, installed), w')
    /\ entropy w' = entropy w0
    /\ (bottomTimeIds b = ∅ ->
          installed = None
          /\ exists t,
               findPathForTarget sort fuel b (mode cfg) w = Ok (t, w')
               /\ (1 <= t)%Z
               /\ es = [Dispatch (FINISH_TURN t)])
    /\ (bottomTimeIds b <> ∅ ->
          exists fresh r w1 t,
            applyGravity (removeBonuses (bottomTimeIds b) b) (mode cfg) (difficulty cfg) w
            = Ok (r, w1)
            /\ findPathForTarget sort fuel (nextBoard r) (mode cfg) w1 = Ok (t, w')
            /\ (1 <= t)%Z
            /\ installed = Some (nextBoard r)
            /\ es = [PlaySound SfxBonus;
                     Dispatch (START_BONUS_FALL (bottomTimeIds b)
                                 (TIME_BONUS * Z.of_nat (size (bottomTimeIds b)))%Z);
                     Dispatch (FINISH_BONUS_FALL (nextBoard r) (droppedIds r));
                     Dispatch (FINISH_TURN t)]
            /\ isGrid (nextBoard r) /\ validBoard (difficulty cfg) (nextBoard r)
            /\ (fullBoard b -> fullBoard (nextBoard r))
            /\ (forall c, c < GRID_SIZE ->
                  column (nextBoard r) c
                  = (Tile <$> fresh c)
                    ++ List.filter
                         (fun x => nonNull x
                                   && negb (bool_decide (idOrEmpty x ∈ bottomTimeIds b)))
                         (column b c))).
Proof using sort_rearranges sort_steady.
  intros Hthorough Hentropy Hgrid Hvalid. unfold fallingCallback.
  destruct (Nat.ltb_spec 0 (size (bottomTimeIds b))) as [Hsome|Hnone].
  - assert (bottomTimeIds b <> ∅) as Hne.
    { intros Hempty. rewrite Hempty, size_empty in Hsome. lia. }
    pose proof (removeBonuses_grid (bottomTimeIds b) _ Hgrid) as Hgrid1.
    destruct (applyGravity_spec _ (mode cfg) (difficulty cfg) w Hgrid1)
      as (fresh & r & w1 & Hrun & Hgrid' & Hfall & _).
    assert (validBoard (difficulty cfg) (nextBoard r)) as Hvalid'.
    { eapply (applyGravity_Forall (validCell (difficulty cfg)) I I
                (difficulty cfg) (fun t H => H)); [|exact Hrun].
      apply removeBonuses_valid. exact Hvalid. }
    assert (entropy w1 = entropy w0) as Hentropy1.
    { rewrite (keepsEntropy_applyGravity _ _ _ _ _ _ Hrun). exact Hentropy. }
    destruct (target_positive sort (nextBoard r) (mode cfg) (difficulty cfg) fuel w1
                sort_rearranges Hgrid' Hvalid') as (t & w' & Htarget & Hpos).
    { intros Hcount. apply (thorough_hits fuel w0 w1); [assumption..|lia]. }
    assert (forall c, c < GRID_SIZE ->
              column (nextBoard r) c
              = (Tile <$> fresh c)
                ++ List.filter
                     (fun x => nonNull x
                               && negb (bool_decide (idOrEmpty x ∈ bottomTimeIds b)))
                     (column b c)) as Hcolumns.
    { intros c Hc.
      rewrite (Hfall c Hc), (removeBonuses_column _ _ _ Hgrid Hc), filter_removed.
      reflexivity. }
    rewrite (bind_Ok _ _ _ _ _ Hrun), (bind_Ok _ _ _ _ _ Htarget). unfold ret.
    eexists _, _, w'. split; [reflexivity|]. split.
    { rewrite (keepsEntropy_findPathForTarget sort fuel _ _ sort_steady _ _ _ Htarget).
      exact Hentropy1. }
    split; [intros Hempty; contradiction|].
    intros _. exists fresh, r, w1, t.
    split; [exact Hrun|]. split; [exact Htarget|]. split; [exact Hpos|].
    split; [reflexivity|]. split; [reflexivity|]. split; [exact Hgrid'|].
    split; [exact Hvalid'|]. split; [|exact Hcolumns].
    intros Hfull. apply Forall_of_columns; [exact Hgrid'|]. intros c Hc.
    rewrite (Hcolumns c Hc). apply Forall_app. split; [apply fresh_truthy|].
    apply filter_truthy. eapply Forall_impl;
      [exact (columns_of_Forall _ _ c Hgrid Hc Hfull)|]. cbn beta. auto.
  - assert (bottomTimeIds b = ∅) as Hempty.
    { apply leibniz_equiv, size_empty_iff. lia. }
    destruct (target_positive sort b (mode cfg) (difficulty cfg) fuel w
                sort_rearranges Hgrid Hvalid) as (t & w' & Htarget & Hpos).
    { intros Hcount. apply (thorough_hits fuel w0 w); [assumption..|lia]. }
    rewrite (bind_Ok _ _ _ _ _ Htarget). unfold ret.
    eexists _, _, w'. split; [reflexivity|]. split.
    { rewrite (keepsEntropy_findPathForTarget sort fuel _ _ sort_steady _ _ _ Htarget).
      exact Hentropy. }
    split; [|intros Hne; contradiction].
    intros _. split; [reflexivity|]. exists t.
    split; [exact Htarget|]. split; [exact Hpos|reflexivity].
Qed.

Lemma falling_effect_spec (s : GameState) (w : World) :
  status s = Falling ->
  isGrid (board s) ->
  validBoard (difficulty (config s)) (board s) ->
  thoroughDraws fuel w ->
  (Z.abs (timeLeft s) + 2 * TIME_BONUS * Z.of_nat GRID_SIZE <= MAX_SAFE_INTEGER)%Z ->
  exists es w' s',
    fallingEffect sort fuel s w = Ok (es, w')
    /\ run s (dispatched es) w' = Ok (s', w')
    /\ status s' = Playing /\ (1 <= targetNumber s')%Z
    /\ isGrid (board s') /\ validBoard (difficulty (config s)) (board s')
    /\ (fullBoard (board s) -> fullBoard (board s'))
    /\ score s' = score s /\ comboCount s' = comboCount s
    /\ selectedCoords s' = selectedCoords s /\ config s' = config s
    /\ (timeLeft s <= timeLeft s')%Z /\ safeInteger (timeLeft s')
    /\ (bottomTimeIds (board s) = ∅ ->
          exists t,
            findPathForTarget sort fuel (board s) (mode (config s)) w = Ok (t, w')
            /\ es = [Dispatch (FINISH_TURN t)]
            /\ targetNumber s' = t /\ board s' = board s /\ timeLeft s' = timeLeft s)
    /\ (bottomTimeIds (board s) <> ∅ ->
          exists fresh r w1 t w2 again,
            applyGravity (removeBonuses (bottomTimeIds (board s)) (board s))
              (mode (config s)) (difficulty (config s)) w = Ok (r, w1)
            /\ (forall c, c < GRID_SIZE ->
                  column (nextBoard r) c
                  = (Tile <$> fresh c)
                    ++ List.filter
                         (fun x => nonNull x
                                   && negb (bool_decide
                                              (idOrEmpty x ∈ bottomTimeIds (board s))))
                         (column (board s) c))
            /\ findPathForTarget sort fuel (nextBoard r) (mode (config s)) w1 = Ok (t, w2)
            /\ es = [PlaySound SfxBonus;
                     Dispatch (START_BONUS_FALL (bottomTimeIds (board s))
                                 (TIME_BONUS * Z.of_nat (size (bottomTimeIds (board s))))%Z);
                     Dispatch (FINISH_BONUS_FALL (nextBoard r) (droppedIds r));
                     Dispatch (FINISH_TURN t)] ++ again
            /\ (bottomTimeIds (nextBoard r) = ∅ ->
                  exists t',
                    findPathForTarget sort fuel (nextBoard r) (mode (config s)) w2
                    = Ok (t', w')
                    /\ again = [Dispatch (FINISH_TURN t')]
                    /\ targetNumber s' = t' /\ board s' = nextBoard r
                    /\ timeLeft s'
                       = (timeLeft s
                          + TIME_BONUS * Z.of_nat (size (bottomTimeIds (board s))))%Z)
            /\ (bottomTimeIds (nextBoard r) <> ∅ ->
                  exists fresh' r' w3 t',
                    applyGravity (removeBonuses (bottomTimeIds (nextBoard r)) (nextBoard r))
                      (mode (config s)) (difficulty (config s)) w2 = Ok (r', w3)
                    /\ (forall c, c < GRID_SIZE ->
                          column (nextBoard r') c
                          = (Tile <$> fresh' c)
                            ++ List.filter
                                 (fun x => nonNull x
                                           && negb (bool_decide
                                                      (idOrEmpty x
                                                       ∈ bottomTimeIds (nextBoard r))))
                                 (column (nextBoard r) c))
                    /\ findPathForTarget sort fuel (nextBoard r') (mode (config s)) w3
                       = Ok (t', w')
                    /\ again
                       = [PlaySound SfxBonus;
                          Dispatch (START_BONUS_FALL (bottomTimeIds (nextBoard r))
                                      (TIME_BONUS
                                       * Z.of_nat (size (bottomTimeIds (nextBoard r))))%Z);
                          Dispatch (FINISH_BONUS_FALL (nextBoard r') (droppedIds r'));
                          Dispatch (FINISH_TURN t')]
                    /\ targetNumber s' = t' /\ board s' = nextBoard r'
                    /\ timeLeft s'
                       = (timeLeft s
                          + TIME_BONUS * Z.of_nat (size (bottomTimeIds (board s)))
                          + TIME_BONUS * Z.of_nat (size (bottomTimeIds (nextBoard r))))%Z)).
Proof using sort_rearranges sort_steady.
  intros Hstatus Hgrid Hvalid Hthorough Hclock.
  unfold fallingEffect. rewrite (bool_decide_eq_true_2 _ Hstatus).
  destruct (fallingCallback_spec (board s) (config s) w w Hthorough eq_refl Hgrid Hvalid)
    as (es1 & installed & w2 & Hfirst & Hentropy2 & Hnone & Hsome).
  rewrite (bind_Ok _ _ _ _ _ Hfirst). cbn [fst snd].
  pose proof (bottomTimeIds_size (board s)) as Hsize.
  unfold safeInteger. unfold TIME_BONUS, GRID_SIZE in *.
  destruct (decide (bottomTimeIds (board s) = ∅)) as [Hempty|Hne].
  - destruct (Hnone Hempty) as (-> & t & Htarget & Hpos & ->). unfold ret.
    eexists _, w2, _. split; [reflexivity|].
    cbn [dispatched omap list_omap dispatchAll gameReducer]. unfold bind, ret.
    split; [reflexivity|]. fields.
    split; [reflexivity|]. split; [exact Hpos|]. split; [exact Hgrid|].
    split; [exact Hvalid|]. split; [auto|].
    do 4 (split; [reflexivity|]). split; [lia|]. split; [lia|].
    split; [|intros Hne; contradiction].
    intros _. exists t. split; [exact Htarget|]. repeat split; reflexivity.
  - destruct (Hsome Hne)
      as (fresh & r & w1 & t & Hrun & Htarget & Hpos & -> & -> & Hgrid1 & Hvalid1
          & Hfull1 & Hcolumns).
    destruct (fallingCallback_spec (nextBoard r) (config s) w w2 Hthorough Hentropy2
                Hgrid1 Hvalid1)
      as (es2 & installed2 & w' & Hsecond & _ & Hnone2 & Hsome2).
    rewrite (bind_Ok _ _ _ _ _ Hsecond). cbn [fst snd]. unfold ret.
    pose proof (bottomTimeIds_size (nextBoard r)) as Hsize2.
    unfold GRID_SIZE in Hsize2.
    destruct (decide (bottomTimeIds (nextBoard r) = ∅)) as [Hempty2|Hne2].
    + destruct (Hnone2 Hempty2) as (-> & t' & Htarget' & Hpos' & ->).
      eexists _, w', _. split; [reflexivity|].
      cbn [app dispatched omap list_omap dispatchAll gameReducer]. unfold bind, ret.
      split; [reflexivity|]. fields.
      split; [reflexivity|]. split; [exact Hpos'|]. split; [exact Hgrid1|].
      split; [exact Hvalid1|]. split; [exact Hfull1|].
      do 4 (split; [reflexivity|]). unfold TIME_BONUS. split; [lia|]. split; [lia|].
      split; [intros Hempty; contradiction|].
      intros _. exists fresh, r, w1, t, w2, [Dispatch (FINISH_TURN t')].
      split; [exact Hrun|]. split; [exact Hcolumns|]. split; [exact Htarget|].
      split; [reflexivity|]. split; [|intros Hne2; contradiction].
      intros _. exists t'. split; [exact Htarget'|]. repeat split; reflexivity.
    + destruct (Hsome2 Hne2)
        as (fresh' & r' & w3 & t' & Hrun' & Htarget' & Hpos' & -> & -> & Hgrid2 & Hvalid2
            & Hfull2 & Hcolumns').
      eexists _, w', _. split; [reflexivity|].
      cbn [app dispatched omap list_omap dispatchAll gameReducer]. unfold bind, ret.
      split; [reflexivity|]. fields.
      split; [reflexivity|]. split; [exact Hpos'|]. split; [exact Hgrid2|].
      split; [exact Hvalid2|]. split; [auto|].
      do 4 (split; [reflexivity|]). unfold TIME_BONUS. split; [lia|]. split; [lia|].
      split; [intros Hempty; contradiction|].
      intros _.
      exists fresh, r, w1, t, w2,
        [PlaySound SfxBonus;
         Dispatch (START_BONUS_FALL (bottomTimeIds (nextBoard r))
                     (TIME_BONUS * Z.of_nat (size (bottomTimeIds (nextBoard r))))%Z);
         Dispatch (FINISH_BONUS_FALL (nextBoard r') (droppedIds r'));
         Dispatch (FINISH_TURN t')].
      split; [exact Hrun|]. split; [exact Hcolumns|]. split; [exact Htarget|].
      split; [reflexivity|]. split; [intros Hempty2; contradiction|].
      intros _. exists fresh', r', w3, t'.
      split; [exact Hrun'|]. split; [exact Hcolumns'|]. split; [exact Htarget'|].
      repeat split; reflexivity.
Qed.

(** X21. The falling effect ends the turn, in one run or in two.  The
    statement is about a falling state on a grid with tile values of the
    difficulty's range, with random numbers that keep visiting the whole grid
    and a clock within the safe integers, and about the actions of the effect
    dispatched in their order with no other action in between.

    The effect returns, and its actions leave the game playing with a target
    of at least 1 on a grid with values in range, without an empty cell if
    there was none; score, combo count, selection and configuration are
    unchanged and the clock has not gone down.

    Without a time tile in the bottom row the effect dispatches one
    [FINISH_TURN], with the target that [findPathForTarget] returns on the
    board, and board and clock stay as they are.

    With time tiles in the bottom row the first run plays the bonus sound,
    dispatches [START_BONUS_FALL] for their identifiers with [TIME_BONUS]
    seconds each, then [FINISH_BONUS_FALL] with the board that
    [applyGravity] returns once every tile carrying one of these identifiers
    is removed (the tiles that stay keep their order below new tiles), then
    [FINISH_TURN] with a target for this board.  The board installed while
    the status is still falling starts the second run, on this board: without
    a time tile in its bottom row it dispatches a second [FINISH_TURN] with a
    target drawn anew, and with time tiles there it cashes them in as the
    first run did, on a third board. *)
Theorem X21_falling_effect_ends_turn (s : GameState) (w : World) :
  status s = Falling ->
  isGrid (board s) ->
  validBoard (difficulty (config s)) (board s) ->
  thoroughDraws fuel w ->
  (Z.abs (timeLeft s) + 2 * TIME_BONUS * Z.of_nat GRID_SIZE <= MAX_SAFE_INTEGER)%Z ->
  exists es w' s',
    fallingEffect sort fuel s w = Ok (es, w')
    /\ run s (dispatched es) w' = Ok (s', w')
    /\ status s' = Playing /\ (1 <= targetNumber s')%Z
    /\ isGrid (board s') /\ validBoard (difficulty (config s)) (board s')
    /\ (fullBoard (board s) -> fullBoard (board s'))
    /\ score s' = score s /\ comboCount s' = comboCount s
    /\ selectedCoords s' = selectedCoords s /\ config s' = config s
    /\ (timeLeft s <= timeLeft s')%Z /\ safeInteger (timeLeft s')
    /\ (bottomTimeIds (board s) = ∅ ->
          exists t,
            findPathForTarget sort fuel (board s) (mode (config s)) w = Ok (t, w')
            /\ es = [Dispatch (FINISH_TURN t)]
            /\ targetNumber s' = t /\ board s' = board s /\ timeLeft s' = timeLeft s)
    /\ (bottomTimeIds (board s) <> ∅ ->
          exists fresh r w1 t w2 again,
            applyGravity (removeBonuses (bottomTimeIds (board s)) (board s))
              (mode (config s)) (difficulty (config s)) w = Ok (r, w1)
            /\ (forall c, c < GRID_SIZE ->
                  column (nextBoard r) c
                  = (Tile <$> fresh c)
                    ++ List.filter
                         (fun x => nonNull x
                                   && negb (bool_decide
                                              (idOrEmpty x ∈ bottomTimeIds (board s))))
                         (column (board s) c))
            /\ findPathForTarget sort fuel (nextBoard r) (mode (config s)) w1 = Ok (t, w2)
            /\ es = [PlaySound SfxBonus;
                     Dispatch (START_BONUS_FALL (bottomTimeIds (board s))
                                 (TIME_BONUS * Z.of_nat (size (bottomTimeIds (board s))))%Z);
                     Dispatch (FINISH_BONUS_FALL (nextBoard r) (droppedIds r));
                     Dispatch (FINISH_TURN t)] ++ again
            /\ (bottomTimeIds (nextBoard r) = ∅ ->
                  exists t',
                    findPathForTarget sort fuel (nextBoard r) (mode (config s)) w2
                    = Ok (t', w')
                    /\ again = [Dispatch (FINISH_TURN t')]
                    /\ targetNumber s' = t' /\ board s' = nextBoard r
                    /\ timeLeft s'
                       = (timeLeft s
                          + TIME_BONUS * Z.of_nat (size (bottomTimeIds (board s))))%Z)
            /\ (bottomTimeIds (nextBoard r) <> ∅ ->
                  exists fresh' r' w3 t',
                    applyGravity (removeBonuses (bottomTimeIds (nextBoard r)) (nextBoard r))
                      (mode (config s)) (difficulty (config s)) w2 = Ok (r', w3)
                    /\ (forall c, c < GRID_SIZE ->
                          column (nextBoard r') c
                          = (Tile <$> fresh' c)
                            ++ List.filter
                                 (fun x => nonNull x
                                           && negb (bool_decide
                                                      (idOrEmpty x
                                                       ∈ bottomTimeIds (nextBoard r))))
                                 (column (nextBoard r) c))
                    /\ findPathForTarget sort fuel (nextBoard r') (mode (config s)) w3
                       = Ok (t', w')
                    /\ again
                       = [PlaySound SfxBonus;
                          Dispatch (START_BONUS_FALL (bottomTimeIds (nextBoard r))
                                      (TIME_BONUS
                                       * Z.of_nat (size (bottomTimeIds (nextBoard r))))%Z);
                          Dispatch (FINISH_BONUS_FALL (nextBoard r') (droppedIds r'));
                          Dispatch (FINISH_TURN t')]
                    /\ targetNumber s' = t' /\ board s' = nextBoard r'
                    /\ timeLeft s'
                       = (timeLeft s
                          + TIME_BONUS * Z.of_nat (size (bottomTimeIds (board s)))
                          + TIME_BONUS * Z.of_nat (size (bottomTimeIds (nextBoard r))))%Z)).
Proof using sort_rearranges sort_steady. exact (falling_effect_spec s w). Qed.

(** X22. The first target of a game is set once.  In a playing state with
    target 0 on a grid with tile values of a difficulty's range, once the start
    search finds a number tile the initial-target effect dispatches
    [FINISH_TURN] and [RESET_ANIMATIONS]; the state they leave has a target of
    at least 1, the same board and no dropping tiles, and on it neither this
    effect nor the animation clean-up emits anything more. *)
Theorem X22_initial_target_once (d : Difficulty) (s : GameState) (w : World) :
  status s = Playing -> targetNumber s = 0%Z ->
  isGrid (board s) -> validBoard d (board s) ->
  (2 <= length (numberValues (board s)) ->
   exists k, k < fuel /\ attemptHits (board s) w k) ->
  exists es w' s',
    initialTargetEffect sort fuel s w = Ok (es, w')
    /\ run s (dispatched es) w' = Ok (s', w')
    /\ status s' = Playing /\ board s' = board s
    /\ (1 <= targetNumber s')%Z
    /\ droppingTileIds s' = ∅
    /\ initialTargetEffect sort fuel s' w' = Ok ([], w')
    /\ animationCleanupEffect s' = [].
Proof using sort_rearranges.
  intros Hstatus Hzero Hgrid Hvalid Hhit.
  destruct (target_positive sort (board s) (mode (config s)) d fuel w
              sort_rearranges Hgrid Hvalid Hhit) as (t & w' & Htarget & Hpos).
  unfold initialTargetEffect at 1.
  rewrite (bool_decide_eq_true_2 _ Hstatus), Hzero. cbn [Z.eqb andb].
  rewrite (bind_Ok _ _ _ _ _ Htarget). unfold ret.
  eexists _, w', _. split; [reflexivity|].
  cbn [dispatched omap list_omap dispatchAll gameReducer]. unfold bind, ret.
  split; [reflexivity|]. fields.
  split; [reflexivity|]. split; [reflexivity|]. split; [exact Hpos|].
  split; [reflexivity|]. split.
  - unfold initialTargetEffect. fields.
    assert ((t =? 0)%Z = false) as -> by (apply Z.eqb_neq; lia).
    rewrite andb_false_r. reflexivity.
  - unfold animationCleanupEffect. fields. rewrite size_empty. reflexivity.
Qed.

Lemma matchSuccess_fields (s : GameState) (points : Z) (coords : list Coords) (w : World) :
  exists s1 w1,
    reduce s (MATCH_SUCCESS points coords) w = Ok (s1, w1)
    /\ status s1 = Clearing /\ clearingCoords s1 = coords
    /\ board s1 = board s /\ config s1 = config s
    /\ score s1 = (score s + points)%Z /\ comboCount s1 = (comboCount s + 1)%Z
    /\ selectedCoords s1 = [] /\ timeLeft s1 = timeLeft s
    /\ entropy w1 = entropy w.
Proof.
  eexists _, _. split; [apply reduce_MATCH_SUCCESS|]. fields.
  repeat (split; [reflexivity|]). reflexivity.
Qed.

Lemma keepsEntropy_clearingEffect (s : GameState) : keepsEntropy (clearingEffect s).
Proof.
  unfold clearingEffect. destruct (_ && _); [|apply keepsEntropy_ret].
  apply keepsEntropy_bind; [apply keepsEntropy_lift|intros boardAfterClear].
  apply keepsEntropy_bind; [apply keepsEntropy_applyGravity|intros r].
  apply keepsEntropy_ret.
Qed.

Lemma finishClearing_fields (s : GameState) (next : Board) (dropped : gset string)
    (w : World) :
  exists s2,
    run s (dispatched [Dispatch (FINISH_CLEARING next dropped)]) w = Ok (s2, w)
    /\ status s2 = Falling /\ board s2 = next /\ config s2 = config s
    /\ score s2 = score s /\ comboCount s2 = comboCount s
    /\ selectedCoords s2 = selectedCoords s /\ timeLeft s2 = timeLeft s.
Proof.
  eexists. cbn [dispatched omap list_omap dispatchAll gameReducer]. unfold bind, ret.
  split; [reflexivity|]. fields. repeat (split; [reflexivity|]). reflexivity.
Qed.

(** X23. A whole turn.  From a state on a grid without an empty cell and
    with tile values of the difficulty's range, with random numbers that keep
    visiting the whole grid and a clock within the safe integers, a
    [MATCH_SUCCESS] on coordinates inside the grid starts a chain that the
    effects carry through, each action dispatched on the state the one before
    left: the reducer leaves a clearing state with an empty selection; the
    clearing effect answers it with one [FINISH_CLEARING], which leaves a
    falling state on a grid without an empty cell; the falling effect answers
    that state with at least one action, and its actions bring the game back
    to playing, on a grid without an empty cell and with values in range,
    with an empty selection, a target of at least 1, the score and the combo
    count that [MATCH_SUCCESS] left, and a clock that has not gone down.
    With no time tile in the bottom row after the fall the falling effect
    dispatches one [FINISH_TURN], with the target that [findPathForTarget]
    returns, and board and clock are those of the falling state; with time
    tiles there its actions begin with [START_BONUS_FALL] for their
    identifiers, [FINISH_BONUS_FALL] with the board of [applyGravity] and a
    [FINISH_TURN], those of its second run follow, and the clock has gained
    at least [TIME_BONUS] seconds for each of the identifiers. *)
Theorem X23_turn (s : GameState) (points : Z) (coords : list Coords) (w : World) :
  coords <> [] ->
  Forall (fun p => inBounds (Z.of_nat GRID_SIZE) p = true) coords ->
  isGrid (board s) ->
  validBoard (difficulty (config s)) (board s) ->
  fullBoard (board s) ->
  thoroughDraws fuel w ->
  (Z.abs (timeLeft s) + 2 * TIME_BONUS * Z.of_nat GRID_SIZE <= MAX_SAFE_INTEGER)%Z ->
  exists s1 w1 r w2 s2 es w3 s3,
    reduce s (MATCH_SUCCESS points coords) w = Ok (s1, w1)
    /\ status s1 = Clearing /\ clearingCoords s1 = coords /\ selectedCoords s1 = []
    /\ clearingEffect s1 w1
       = Ok ([Dispatch (FINISH_CLEARING (nextBoard r) (droppedIds r))], w2)
    /\ run s1 [FINISH_CLEARING (nextBoard r) (droppedIds r)] w2 = Ok (s2, w2)
    /\ status s2 = Falling /\ board s2 = nextBoard r
    /\ isGrid (board s2) /\ fullBoard (board s2)
    /\ fallingEffect sort fuel s2 w2 = Ok (es, w3)
    /\ es <> []
    /\ run s2 (dispatched es) w3 = Ok (s3, w3)
    /\ status s3 = Playing
    /\ isGrid (board s3) /\ validBoard (difficulty (config s)) (board s3)
    /\ fullBoard (board s3)
    /\ selectedCoords s3 = []
    /\ (1 <= targetNumber s3)%Z
    /\ score s3 = score s1 /\ comboCount s3 = comboCount s1
    /\ (timeLeft s <= timeLeft s3)%Z
    /\ (bottomTimeIds (board s2) = ∅ ->
          exists t,
            findPathForTarget sort fuel (board s2) (mode (config s)) w2 = Ok (t, w3)
            /\ es = [Dispatch (FINISH_TURN t)]
            /\ targetNumber s3 = t /\ board s3 = board s2 /\ timeLeft s3 = timeLeft s)
    /\ (bottomTimeIds (board s2) <> ∅ ->
          exists r' w' t again,
            applyGravity (removeBonuses (bottomTimeIds (board s2)) (board s2))
              (mode (config s)) (difficulty (config s)) w2 = Ok (r', w')
            /\ es = [PlaySound SfxBonus;
                     Dispatch (START_BONUS_FALL (bottomTimeIds (board s2))
                                 (TIME_BONUS * Z.of_nat (size (bottomTimeIds (board s2))))%Z);
                     Dispatch (FINISH_BONUS_FALL (nextBoard r') (droppedIds r'));
                     Dispatch (FINISH_TURN t)] ++ again
            /\ again <> []
            /\ (timeLeft s + TIME_BONUS * Z.of_nat (size (bottomTimeIds (board s2)))
                <= timeLeft s3)%Z)
    /\ config s3 = config s.
Proof using sort_rearranges sort_steady.
  intros Hne Hin Hgrid Hvalid Hfull Hthorough Hclock.
  destruct (matchSuccess_fields s points coords w)
    as (s1 & w1 & Hreduce & Hst1 & Hclr1 & Hb1 & Hcfg1 & Hsc1 & Hco1 & Hsel1 & Ht1 & He1).
  destruct (clearing_effect_spec s1 w1)
    as (fresh & r & w2 & Hclear & Hgrid2 & _ & _ & Hvalid2 & Hfull2).
  { exact Hst1. }
  { rewrite Hclr1. exact Hne. }
  { rewrite Hb1. exact Hgrid. }
  { rewrite Hclr1. exact Hin. }
  rewrite Hb1, Hcfg1 in Hvalid2. rewrite Hb1 in Hfull2.
  specialize (Hvalid2 Hvalid). specialize (Hfull2 Hfull).
  pose proof (keepsEntropy_clearingEffect s1 _ _ _ Hclear) as He2.
  destruct (finishClearing_fields s1 (nextBoard r) (droppedIds r) w2)
    as (s2 & Hrun2 & Hst2 & Hb2 & Hcfg2 & Hsc2 & Hco2 & Hsel2 & Ht2).
  destruct (falling_effect_spec s2 w2)
    as (es & w3 & s3 & Hfall & Hrun3 & Hst3 & Htarget & Hgrid3 & Hvalid3 & Hfull3
        & Hsc3 & Hco3 & Hsel3 & Hcfg3 & Htime & _ & Hnone & Hsome).
  { exact Hst2. }
  { rewrite Hb2. exact Hgrid2. }
  { rewrite Hb2, Hcfg2, Hcfg1. exact Hvalid2. }
  { apply (thoroughDraws_entropy fuel w); [|exact Hthorough]. congruence. }
  { rewrite Ht2, Ht1. exact Hclock. }
  exists s1, w1, r, w2, s2, es, w3, s3.
  split; [exact Hreduce|]. split; [exact Hst1|]. split; [exact Hclr1|].
  split; [exact Hsel1|]. split; [exact Hclear|]. split; [exact Hrun2|].
  split; [exact Hst2|]. split; [exact Hb2|].
  split; [rewrite Hb2; exact Hgrid2|]. split; [rewrite Hb2; exact Hfull2|].
  split; [exact Hfall|]. split.
  { destruct (decide (bottomTimeIds (board s2) = ∅)) as [Hempty|Hbonus].
    - destruct (Hnone Hempty) as (t & _ & -> & _). discriminate.
    - destruct (Hsome Hbonus) as (f & r' & w' & t & w'' & again & _ & _ & _ & -> & _).
      discriminate. }
  split; [exact Hrun3|]. split; [exact Hst3|]. split; [exact Hgrid3|].
  split; [rewrite Hcfg2, Hcfg1 in Hvalid3; exact Hvalid3|].
  split; [apply Hfull3; rewrite Hb2; exact Hfull2|].
  split; [rewrite Hsel3, Hsel2; exact Hsel1|]. split; [exact Htarget|].
  split; [rewrite Hsc3; exact Hsc2|]. split; [rewrite Hco3; exact Hco2|].
  split; [rewrite Ht2, Ht1 in Htime; exact Htime|].
  split; [|split; [|rewrite Hcfg3, Hcfg2; exact Hcfg1]].
  - intros Hempty.
    destruct (Hnone Hempty) as (t & Hfind & Hes & Htarget' & Hboard & Htime').
    exists t. rewrite Hcfg2, Hcfg1 in Hfind.
    split; [exact Hfind|]. split; [exact Hes|]. split; [exact Htarget'|].
    split; [exact Hboard|]. rewrite Htime', Ht2. exact Ht1.
  - intros Hbonus.
    destruct (Hsome Hbonus)
      as (f & r' & w' & t & w'' & again & Hgravity & _ & _ & Hes & Hnone' & Hsome').
    exists r', w', t, again. rewrite Hcfg2, Hcfg1 in Hgravity.
    split; [exact Hgravity|]. split; [exact Hes|].
    rewrite <- Ht1, <- Ht2.
    destruct (decide (bottomTimeIds (nextBoard r') = ∅)) as [Hempty'|Hbonus'].
    + destruct (Hnone' Hempty') as (t' & _ & -> & _ & _ & ->).
      split; [discriminate|lia].
    + destruct (Hsome' Hbonus') as (f' & r2 & w3' & t' & _ & _ & _ & -> & _ & _ & ->).
      split; [discriminate|]. unfold TIME_BONUS. lia.
Qed.

End Targets.

End MoreController.

Lemma X13_announcement_witness :
  exists s1 w1,
    gameReducer 7 "combo-0" true (exampleState Playing 30 Tap)
      (ADD_ANNOUNCEMENT "3x COMBO!" None) exampleWorld
    = Ok (s1, w1)
    /\ announcementCleanupEffect s1
       = [Dispatch (REMOVE_ANNOUNCEMENT (uuidSource exampleWorld (issued exampleWorld)))]
    /\ dispatchAll 7 "combo-0" true s1 (dispatched (announcementCleanupEffect s1)) w1
       = Ok (exampleState Playing 30 Tap, w1).
Proof.
  apply (X13_announcement_round_trip 7 "combo-0" true (exampleState Playing 30 Tap)
           "3x COMBO!" None exampleWorld).
  constructor.
Defined.

Lemma X16_countdown_witness :
  exists s',
    seconds 7 "combo-0" true 5 (exampleState Playing 3 Tap) exampleWorld = Ok (s', exampleWorld)
    /\ ((5 < 3)%Z -> status s' = Playing /\ timeLeft s' = (3 - 5)%Z)
    /\ ((3 <= 5)%Z -> status s' = GameOver /\ timeLeft s' = 0%Z)
    /\ score s' = 10%Z /\ board s' = exampleBoard.
Proof.
  apply (X16_countdown_to_game_over 7 "combo-0" true 5 (exampleState Playing 3 Tap)
           exampleWorld).
  - reflexivity.
  - change (0 < 3)%Z. lia.
Defined.


Lemma X17_match_verdict_witness :
  exists es,
    matchEffect exampleSounds (exampleTaps [mkCoords 0 0; mkCoords 0 1] 8) = Ok es
    /\ (calculateSelectionValue [mkCoords 0 0; mkCoords 0 1] exampleBoard Sum = 8%Z ->
          dispatched es
          = comboAnnouncement 0
            ++ [MATCH_SUCCESS
                  (comboPoints
                     (calculateSelectionValue [mkCoords 0 0; mkCoords 0 1] exampleBoard Sum) 0)
                  [mkCoords 0 0; mkCoords 0 1]])
    /\ ((8 < calculateSelectionValue [mkCoords 0 0; mkCoords 0 1] exampleBoard Sum)%Z ->
          dispatched es = [MATCH_FAILURE])
    /\ ((calculateSelectionValue [mkCoords 0 0; mkCoords 0 1] exampleBoard Sum < 8)%Z ->
          dispatched es = if bool_decide (Tap = Tap) then [] else [MATCH_FAILURE]).
Proof.
  apply (X17_match_verdict exampleSounds (exampleTaps [mkCoords 0 0; mkCoords 0 1] 8)).
  - reflexivity.
  - left. reflexivity.
  - unfold rowsExist. apply (bool_decide_unpack _). vm_compute. exact I.
  - left. reflexivity.
Defined.

Lemma X18_match_outside_board_witness :
  matchEffect exampleSounds (exampleTaps [mkCoords 0 0; mkCoords 7 0] 3) = TypeError.
Proof.
  apply (X18_match_outside_board exampleSounds (exampleTaps [mkCoords 0 0; mkCoords 7 0] 3)).
  - reflexivity.
  - left. reflexivity.
  - left. reflexivity.
  - reflexivity.
  - right. left. reflexivity.
Defined.

Lemma X19_match_effect_settles_witness :
  exists s' w',
    dispatchAll 7 "combo-0" true (exampleTaps [mkCoords 0 0; mkCoords 0 1] 5)
      [MATCH_FAILURE] exampleWorld = Ok (s', w')
    /\ selectedCoords s' = [] /\ board s' = exampleBoard
    /\ matchEffect exampleSounds s' = Ok []
    /\ ((status s' = Clearing /\ clearingCoords s' = [mkCoords 0 0; mkCoords 0 1]
         /\ comboCount s' = (0 + 1)%Z)
        \/ (status s' = Playing /\ comboCount s' = 0%Z /\ score s' = 10%Z)).
Proof.
  apply (X19_match_effect_settles 7 "combo-0" true exampleSounds
           (exampleTaps [mkCoords 0 0; mkCoords 0 1] 5)
           [PlaySound SfxError; Dispatch MATCH_FAILURE] exampleWorld).
  - reflexivity.
  - discriminate.
Defined.

Lemma X20_clearing_effect_witness :
  exists fresh r w',
    clearingEffect
      (set_status Clearing
         (set_clearingCoords [mkCoords 0 0; mkCoords 0 1] (exampleState Playing 30 Tap)))
      exampleWorld
    = Ok ([Dispatch (FINISH_CLEARING (nextBoard r) (droppedIds r))], w')
    /\ isGrid (nextBoard r)
    /\ (forall c, c < GRID_SIZE ->
          column (nextBoard r) c
          = (Tile <$> fresh c)
            ++ List.filter nonNull
                 (clearedColumn [mkCoords 0 0; mkCoords 0 1] c (column exampleBoard c)))
    /\ droppedIds r = list_to_set (freshIds fresh 0 GRID_SIZE)
    /\ (validBoard Banana exampleBoard -> validBoard Banana (nextBoard r))
    /\ (fullBoard exampleBoard -> fullBoard (nextBoard r)).
Proof.
  apply (X20_clearing_effect
           (set_status Clearing
              (set_clearingCoords [mkCoords 0 0; mkCoords 0 1]
                 (exampleState Playing 30 Tap))) exampleWorld).
  - reflexivity.
  - discriminate.
  - split; [reflexivity|]. repeat constructor.
  - repeat constructor.
Defined.

Lemma X21_falling_effect_witness :
  exists es w' s',
    fallingEffect exampleSort 25 exampleFalling thoroughWorld = Ok (es, w')
    /\ dispatchAll 7 "combo-0" true exampleFalling (dispatched es) w' = Ok (s', w')
    /\ status s' = Playing /\ (1 <= targetNumber s')%Z
    /\ fullBoard (board s')
    /\ (30 <= timeLeft s')%Z.
Proof.
  destruct (X21_falling_effect_ends_turn 7 "combo-0" true exampleSort 25
              exampleSort_rearranges exampleSort_steady exampleFalling thoroughWorld)
    as (es & w' & s' & Hfall & Hrun & Hstatus & Htarget & _ & _ & Hfull & _ & _ & _ & _
        & Htime & _).
  - reflexivity.
  - split; [reflexivity|]. repeat constructor.
  - apply (bool_decide_unpack _). vm_compute. exact I.
  - exact thoroughWorld_thorough.
  - change (30 + 100 <= 2 ^ 53 - 1)%Z. lia.
  - exists es, w', s'. split; [exact Hfall|]. split; [exact Hrun|].
    split; [exact Hstatus|]. split; [exact Htarget|].
    split; [apply Hfull; repeat constructor|exact Htime].
Defined.

Lemma X22_initial_target_witness :
  exists es w' s',
    initialTargetEffect exampleSort 10 exampleNewGame exampleWorld = Ok (es, w')
    /\ dispatchAll 7 "combo-0" true exampleNewGame (dispatched es) w' = Ok (s', w')
    /\ status s' = Playing /\ board s' = exampleBoard
    /\ (1 <= targetNumber s')%Z
    /\ droppingTileIds s' = ∅
    /\ initialTargetEffect exampleSort 10 s' w' = Ok ([], w')
    /\ animationCleanupEffect s' = [].
Proof.
  apply (X22_initial_target_once 7 "combo-0" true exampleSort 10 exampleSort_rearranges
           Apple exampleNewGame exampleWorld).
  - reflexivity.
  - reflexivity.
  - split; [reflexivity|]. repeat constructor.
  - apply (bool_decide_unpack _). vm_compute. exact I.
  - intros _. exists 0. split; [lia|]. vm_compute. reflexivity.
Defined.

Lemma X23_turn_witness :
  exists s1 w1 r w2 s2 es w3 s3,
    gameReducer 7 "combo-0" true exampleNewGame
      (MATCH_SUCCESS 8 [mkCoords 0 0; mkCoords 0 1]) thoroughWorld = Ok (s1, w1)
    /\ clearingEffect s1 w1
       = Ok ([Dispatch (FINISH_CLEARING (nextBoard r) (droppedIds r))], w2)
    /\ dispatchAll 7 "combo-0" true s1 [FINISH_CLEARING (nextBoard r) (droppedIds r)] w2
       = Ok (s2, w2)
    /\ status s2 = Falling
    /\ fallingEffect exampleSort 25 s2 w2 = Ok (es, w3)
    /\ dispatchAll 7 "combo-0" true s2 (dispatched es) w3 = Ok (s3, w3)
    /\ status s3 = Playing
    /\ fullBoard (board s3)
    /\ selectedCoords s3 = []
    /\ (1 <= targetNumber s3)%Z
    /\ (60 <= timeLeft s3)%Z.
Proof.
  destruct (X23_turn 7 "combo-0" true exampleSort 25 exampleSort_rearranges
              exampleSort_steady exampleNewGame 8 [mkCoords 0 0; mkCoords 0 1] thoroughWorld)
    as (s1 & w1 & r & w2 & s2 & es & w3 & s3 & Hreduce & _ & _ & _ & Hclear & Hrun2
        & Hst2 & _ & _ & _ & Hfall & _ & Hrun3 & Hst3 & _ & _ & Hfull & Hsel & Htarget
        & _ & _ & Htime & _).
  - discriminate.
  - repeat constructor.
  - split; [reflexivity|]. repeat constructor.
  - apply (bool_decide_unpack _). vm_compute. exact I.
  - repeat constructor.
  - exact thoroughWorld_thorough.
  - change (60 + 100 <= 2 ^ 53 - 1)%Z. lia.
  - exists s1, w1, r, w2, s2, es, w3, s3. repeat (split; [assumption|]). exact Htime.
Defined.
